(** * Trial engines of the reaction-time mini-games

    A shallow embedding of the React components of the repository
    (go/no-go colour games, five-target reaching game, span tasks) and the
    properties of their trial engines: response matching, adaptive
    difficulty, presentation schedule, report building.

    Conventions of the embedding.
    - A component is a record of its [useState] cells and [useRef] boxes;
      an event handler or timer callback is a function on that record and
      runs to completion.  State cells are read and written like variables:
      a read returns the value last written, also inside the handler that
      wrote it and inside a callback created earlier (React's deferred
      updates and the closures of earlier renders are not modelled).
    - [emitEvent] and [emitScore] append to the lists [emitted] and
      [scores] of the record, so that "nothing was emitted" is an equation
      between states.
    - Counters and positions are [nat], millisecond values are [Z].  The
      accuracy percentages and the completion time of a report are
      computed in binary64 ([B64]: every operation returns its exact
      result rounded to the nearest double); the other Numbers (means of
      reaction times, adapted windows, the STM index, the values drawn
      from [Math.random()]) are exact rationals ([Q]).  [NaN] and the
      infinities are kept where a division can produce them.
    - [Date.now()], [performance.now()], the pointer distance measured in
      the DOM and the values drawn from [Math.random()] are arguments of the
      handler that reads them. *)

From Stdlib Require Import ZArith QArith Qround Qabs Qpower Lqa List Bool Lia
  Sorted SpecFloat.
Import ListNotations.
Open Scope Z_scope.

(** ** Binary64 arithmetic

    A finite Number is the rational it denotes; an arithmetic operation
    returns the exact result rounded to the nearest binary64 number. *)

Module B64.

(** For [q > 0], the exponent [E] with [2^E <= q < 2^(E+1)]. *)
Definition ilog2 (q : Q) : Z :=
  let d := Z.log2 (Qnum q) - Z.log2 (Zpos (Qden q)) in
  if Qle_bool (2 ^ d) q then d else d - 1.

(** The exponent of the last place of the binary64 numbers of the
    magnitude of [q]: 53 significant bits, and no exponent below -1074
    (the subnormal numbers). *)
Definition exponent (q : Q) : Z := Z.max (ilog2 (Qabs q) - 52) (-1074).

(** The integer nearest to [x], the even one of the two when [x] is
    halfway between them. *)
Definition rne (x : Q) : Z :=
  let f := Qfloor x in
  match (x - inject_Z f ?= 1 # 2)%Q with
  | Lt => f
  | Gt => f + 1
  | Eq => if Z.even f then f else f + 1
  end.

(** The binary64 number nearest to [q], ties to the even significand
    (IEEE 754 roundTiesToEven), for [q] below the overflow threshold
    [2^1024] in magnitude. *)
Definition nearest (q : Q) : Q :=
  if Qeq_bool q 0 then 0%Q
  else (inject_Z (rne (q / 2 ^ exponent q)) * 2 ^ exponent q)%Q.

(** [a + b], [a * b] and [a / b] on finite Numbers, [b] other than zero
    in the last: the exact result, rounded. *)
Definition add (a b : Q) : Q := nearest (a + b).
Definition mul (a b : Q) : Q := nearest (a * b).
Definition div (a b : Q) : Q := nearest (a / b).

(** The Number held by a counter after [n] increments by 1 from 0:
    the increment is exact below [2^53], and [2^53 + 1] rounds back to
    [2^53]. *)
Definition counter (n : nat) : Q := inject_Z (Z.min (Z.of_nat n) (2 ^ 53)).

End B64.

(** ** The same operations on the binary64 floats of the Standard Library

    [SpecFloat] computes on sign, mantissa and exponent; the functions
    below compare its division, multiplication and addition with those of
    [B64] on given operands. *)

Module IEEE.

Definition double (z : Z) : spec_float := binary_normalize 53 1024 z 0 false.

(** The rational a finite float denotes. *)
Definition value (x : spec_float) : option Q :=
  match x with
  | S754_zero _ => Some 0%Q
  | S754_finite s m e => Some (inject_Z (cond_Zopp s (Zpos m)) * 2 ^ e)%Q
  | S754_infinity _ | S754_nan => None
  end.

Definition same (x : spec_float) (q : Q) : bool :=
  match value x with
  | Some v => Qeq_bool v q
  | None => false
  end.

(** [a / b], [(a / b) * 100] and [a + a / b] for integers [a] and [b]. *)
Definition agree (a b : Z) : bool :=
  let x := SFdiv 53 1024 (double a) (double b) in
  let q := B64.div (inject_Z a) (inject_Z b) in
  same x q
  && same (SFmul 53 1024 x (double 100)) (B64.mul q 100)
  && same (SFadd 53 1024 (double a) x) (B64.add (inject_Z a) q).

(** All pairs [0 <= a <= b] with [1 <= b <= n]. *)
Definition agree_upto (n : nat) : bool :=
  forallb (fun b => forallb (fun a => agree (Z.of_nat a) (Z.of_nat b))
                            (seq 0 (S b)))
          (seq 1 n).

End IEEE.

(** ** JavaScript Numbers *)

Module JS.

Inductive number : Type :=
| NaN
| Infinity
| NegInfinity
| Num (q : Q).

Definition of_Z (z : Z) : number := Num (inject_Z z).
Definition of_nat (n : nat) : number := of_Z (Z.of_nat n).

(** [a / b] on finite operands. *)
Definition div (a b : Q) : number :=
  if Qeq_bool b 0 then
    if Qeq_bool a 0 then NaN
    else if Qle_bool 0 a then Infinity else NegInfinity
  else Num (a / b).

(** [x * k] for a finite positive constant [k]. *)
Definition scale (x : number) (k : Q) : number :=
  match x with
  | Num q => Num (q * k)
  | other => other
  end.

(** [Math.round] on a finite Number: the nearest integer, ties upwards. *)
Definition Math_round (q : Q) : Z := Qfloor (q + (1 # 2)).

Definition round (x : number) : number :=
  match x with
  | Num q => of_Z (Math_round q)
  | other => other
  end.

(** [x || d]: [NaN] and zero are falsy. *)
Definition or_else (x d : number) : number :=
  match x with
  | NaN => d
  | Num q => if Qeq_bool q 0 then d else x
  | other => other
  end.

Definition Qltb (a b : Q) : bool := negb (Qle_bool b a).

(** [l.reduce((a, b) => a + b, 0)] *)
Definition sum (l : list Z) : Z := fold_left Z.add l 0.

(** [Math.min(...l)] on a non-empty list. *)
Definition minimum (l : list Z) : Z :=
  match l with
  | [] => 0
  | x :: rest => fold_left Z.min rest x
  end.

(** [l.slice(-n)] *)
Definition slice_last {A : Type} (n : nat) (l : list A) : list A :=
  skipn (length l - n) l.

(** [l.length ? Math.round(sum / l.length) : 0] *)
Definition rounded_mean (l : list Z) : Z :=
  match l with
  | [] => 0
  | _ => Math_round (inject_Z (sum l) / inject_Z (Z.of_nat (length l)))
  end.

Definition best (l : list Z) : Z :=
  match l with
  | [] => 0
  | _ => minimum l
  end.

(** [start ? now - start : 0]; [null] and 0 are falsy. *)
Definition elapsed_since (start : option Z) (now : Z) : Z :=
  match start with
  | Some t => if t =? 0 then 0 else now - t
  | None => 0
  end.

(** [Math.round((a / b) * 100)] for finite [a] and [b] other than zero. *)
Definition percent (a b : Q) : Z :=
  Math_round (B64.mul (B64.div a b) 100).

(** [Math.round((durationMs / 1000) * 100) / 100] *)
Definition seconds_2dp (durationMs : Z) : Q :=
  B64.div (inject_Z (percent (inject_Z durationMs) 1000)) 100.

End JS.

(** ** What the specification says about the reported accuracy *)

Module Spec.

(** "round(hits / (hits + errors + misses) * 100), and 100 when the
    denominator is 0". *)
Definition accuracyPct (hits errors misses : nat) : JS.number :=
  let total := (hits + errors + misses)%nat in
  match total with
  | O => JS.of_Z 100
  | _ => JS.round (JS.scale (JS.div (inject_Z (Z.of_nat hits))
                                   (inject_Z (Z.of_nat total))) 100)
  end.

(** "clamp(v, lo, hi)" *)
Definition clamp (v lo hi : Z) : Z :=
  if v <? lo then lo else if hi <? v then hi else v.

(** "nextLength = clamp(currentLength + (correct ? +1 : -1), 2, 7)" *)
Definition nextLength (currentLength : Z) (correct : bool) : Z :=
  clamp (currentLength + (if correct then 1 else -1)) 2 7.

End Spec.

(** ** The go/no-go games: ColorReactionGame and ColorReactionGameEdges

    The two components share their state, [adaptDifficulty], [stop],
    [spawnStimulus] and the expiry callback; they differ in [onCellClick]
    and in how the cell of a new stimulus is drawn. *)

Module GoNoGo.

Definition TOTAL_STIMULI : nat := 50.
Definition MAX_ACTIVE : nat := 1.

Inductive Color : Type := green | red.

Definition Color_eqb (a b : Color) : bool :=
  match a, b with
  | green, green | red, red => true
  | _, _ => false
  end.

(** A displayed stimulus; [timeoutId] is identified with [id]. *)
Record Stim : Type := {
  id : nat;
  idx : nat;
  color : Color;
  shownAt : Z;
  expiresAt : Z
}.

Inductive Reason : Type := no_go | late.

Inductive Event : Type :=
| START (ts : Z)
| STIMULUS (ts : Z) (sid cell : nat) (c : Color) (displayMs : Z)
| HIT (ts : Z) (cell : nat) (reactionMs : Z) (distancePx : option Z)
| ERROR_EMPTY (ts : Z) (cell : nat)
| ERROR (ts : Z) (cell : nat) (c : Color) (why : Reason)
        (reactionMs : Z) (distancePx : option Z)
| MISS (ts : Z) (cell : nat)
| ADAPT (ts : Z) (reactionWindowMs : Z)
| END (ts : Z) (nhits nerrors nmisses : nat) (avgMs bestMs : Z)
      (accuracy : Z).

(** The object handed to [emitScore]. *)
Record Report : Type := {
  durationMs : Z;
  completionTimeSec : Q;
  reactionTimeAvgMs : Z;
  reactionTimeBestMs : Z;
  reactionsCount : nat;
  r_errors : nat;
  r_misses : nat;
  r_hits : nat;
  accuracyPct : Z;
  reactionTimeListMs : list Z;
  distanceErrorPxList : list Z;
  reactionWindowHistoryMs : list Z;
  totalStimuli : nat
}.

Record State : Type := {
  running : bool;
  stimuli : list Stim;
  totalShown : nat;
  hits : nat;
  errors : nat;
  misses : nat;
  reactionList : list Z;
  distanceList : list Z;
  adaptHistory : list Z;
  reactionWindowMs : Z;
  startTs : option Z;
  lastPlacedIdx : option nat;
  (** live expiry timers, by stimulus id *)
  timeouts : list nat;
  (** pending [queueSpawn] timers *)
  spawnTimers : nat;
  emitted : list Event;
  scores : list Report
}.

Definition set_running (v : bool) (st : State) : State :=
  {| running := v; stimuli := stimuli st; totalShown := totalShown st;
     hits := hits st; errors := errors st; misses := misses st;
     reactionList := reactionList st; distanceList := distanceList st;
     adaptHistory := adaptHistory st;
     reactionWindowMs := reactionWindowMs st; startTs := startTs st;
     lastPlacedIdx := lastPlacedIdx st; timeouts := timeouts st;
     spawnTimers := spawnTimers st; emitted := emitted st;
     scores := scores st |}.

Definition set_stimuli (v : list Stim) (st : State) : State :=
  {| running := running st; stimuli := v; totalShown := totalShown st;
     hits := hits st; errors := errors st; misses := misses st;
     reactionList := reactionList st; distanceList := distanceList st;
     adaptHistory := adaptHistory st;
     reactionWindowMs := reactionWindowMs st; startTs := startTs st;
     lastPlacedIdx := lastPlacedIdx st; timeouts := timeouts st;
     spawnTimers := spawnTimers st; emitted := emitted st;
     scores := scores st |}.

Definition set_totalShown (v : nat) (st : State) : State :=
  {| running := running st; stimuli := stimuli st; totalShown := v;
     hits := hits st; errors := errors st; misses := misses st;
     reactionList := reactionList st; distanceList := distanceList st;
     adaptHistory := adaptHistory st;
     reactionWindowMs := reactionWindowMs st; startTs := startTs st;
     lastPlacedIdx := lastPlacedIdx st; timeouts := timeouts st;
     spawnTimers := spawnTimers st; emitted := emitted st;
     scores := scores st |}.

Definition set_hits (v : nat) (st : State) : State :=
  {| running := running st; stimuli := stimuli st;
     totalShown := totalShown st;
     hits := v; errors := errors st; misses := misses st;
     reactionList := reactionList st; distanceList := distanceList st;
     adaptHistory := adaptHistory st;
     reactionWindowMs := reactionWindowMs st; startTs := startTs st;
     lastPlacedIdx := lastPlacedIdx st; timeouts := timeouts st;
     spawnTimers := spawnTimers st; emitted := emitted st;
     scores := scores st |}.

Definition set_errors (v : nat) (st : State) : State :=
  {| running := running st; stimuli := stimuli st;
     totalShown := totalShown st;
     hits := hits st; errors := v; misses := misses st;
     reactionList := reactionList st; distanceList := distanceList st;
     adaptHistory := adaptHistory st;
     reactionWindowMs := reactionWindowMs st; startTs := startTs st;
     lastPlacedIdx := lastPlacedIdx st; timeouts := timeouts st;
     spawnTimers := spawnTimers st; emitted := emitted st;
     scores := scores st |}.

Definition set_misses (v : nat) (st : State) : State :=
  {| running := running st; stimuli := stimuli st;
     totalShown := totalShown st;
     hits := hits st; errors := errors st; misses := v;
     reactionList := reactionList st; distanceList := distanceList st;
     adaptHistory := adaptHistory st;
     reactionWindowMs := reactionWindowMs st; startTs := startTs st;
     lastPlacedIdx := lastPlacedIdx st; timeouts := timeouts st;
     spawnTimers := spawnTimers st; emitted := emitted st;
     scores := scores st |}.

Definition set_reactionList (v : list Z) (st : State) : State :=
  {| running := running st; stimuli := stimuli st;
     totalShown := totalShown st;
     hits := hits st; errors := errors st; misses := misses st;
     reactionList := v; distanceList := distanceList st;
     adaptHistory := adaptHistory st;
     reactionWindowMs := reactionWindowMs st; startTs := startTs st;
     lastPlacedIdx := lastPlacedIdx st; timeouts := timeouts st;
     spawnTimers := spawnTimers st; emitted := emitted st;
     scores := scores st |}.

Definition set_distanceList (v : list Z) (st : State) : State :=
  {| running := running st; stimuli := stimuli st;
     totalShown := totalShown st;
     hits := hits st; errors := errors st; misses := misses st;
     reactionList := reactionList st; distanceList := v;
     adaptHistory := adaptHistory st;
     reactionWindowMs := reactionWindowMs st; startTs := startTs st;
     lastPlacedIdx := lastPlacedIdx st; timeouts := timeouts st;
     spawnTimers := spawnTimers st; emitted := emitted st;
     scores := scores st |}.

Definition set_adaptHistory (v : list Z) (st : State) : State :=
  {| running := running st; stimuli := stimuli st;
     totalShown := totalShown st;
     hits := hits st; errors := errors st; misses := misses st;
     reactionList := reactionList st; distanceList := distanceList st;
     adaptHistory := v;
     reactionWindowMs := reactionWindowMs st; startTs := startTs st;
     lastPlacedIdx := lastPlacedIdx st; timeouts := timeouts st;
     spawnTimers := spawnTimers st; emitted := emitted st;
     scores := scores st |}.

Definition set_reactionWindowMs (v : Z) (st : State) : State :=
  {| running := running st; stimuli := stimuli st;
     totalShown := totalShown st;
     hits := hits st; errors := errors st; misses := misses st;
     reactionList := reactionList st; distanceList := distanceList st;
     adaptHistory := adaptHistory st;
     reactionWindowMs := v; startTs := startTs st;
     lastPlacedIdx := lastPlacedIdx st; timeouts := timeouts st;
     spawnTimers := spawnTimers st; emitted := emitted st;
     scores := scores st |}.

Definition set_startTs (v : option Z) (st : State) : State :=
  {| running := running st; stimuli := stimuli st;
     totalShown := totalShown st;
     hits := hits st; errors := errors st; misses := misses st;
     reactionList := reactionList st; distanceList := distanceList st;
     adaptHistory := adaptHistory st;
     reactionWindowMs := reactionWindowMs st; startTs := v;
     lastPlacedIdx := lastPlacedIdx st; timeouts := timeouts st;
     spawnTimers := spawnTimers st; emitted := emitted st;
     scores := scores st |}.

Definition set_lastPlacedIdx (v : option nat) (st : State) : State :=
  {| running := running st; stimuli := stimuli st;
     totalShown := totalShown st;
     hits := hits st; errors := errors st; misses := misses st;
     reactionList := reactionList st; distanceList := distanceList st;
     adaptHistory := adaptHistory st;
     reactionWindowMs := reactionWindowMs st; startTs := startTs st;
     lastPlacedIdx := v; timeouts := timeouts st;
     spawnTimers := spawnTimers st; emitted := emitted st;
     scores := scores st |}.

Definition set_timeouts (v : list nat) (st : State) : State :=
  {| running := running st; stimuli := stimuli st;
     totalShown := totalShown st;
     hits := hits st; errors := errors st; misses := misses st;
     reactionList := reactionList st; distanceList := distanceList st;
     adaptHistory := adaptHistory st;
     reactionWindowMs := reactionWindowMs st; startTs := startTs st;
     lastPlacedIdx := lastPlacedIdx st; timeouts := v;
     spawnTimers := spawnTimers st; emitted := emitted st;
     scores := scores st |}.

Definition set_spawnTimers (v : nat) (st : State) : State :=
  {| running := running st; stimuli := stimuli st;
     totalShown := totalShown st;
     hits := hits st; errors := errors st; misses := misses st;
     reactionList := reactionList st; distanceList := distanceList st;
     adaptHistory := adaptHistory st;
     reactionWindowMs := reactionWindowMs st; startTs := startTs st;
     lastPlacedIdx := lastPlacedIdx st; timeouts := timeouts st;
     spawnTimers := v; emitted := emitted st;
     scores := scores st |}.

Definition emitEvent (e : Event) (st : State) : State :=
  {| running := running st; stimuli := stimuli st;
     totalShown := totalShown st;
     hits := hits st; errors := errors st; misses := misses st;
     reactionList := reactionList st; distanceList := distanceList st;
     adaptHistory := adaptHistory st;
     reactionWindowMs := reactionWindowMs st; startTs := startTs st;
     lastPlacedIdx := lastPlacedIdx st; timeouts := timeouts st;
     spawnTimers := spawnTimers st; emitted := emitted st ++ [e];
     scores := scores st |}.

Definition emitScore (r : Report) (st : State) : State :=
  {| running := running st; stimuli := stimuli st;
     totalShown := totalShown st;
     hits := hits st; errors := errors st; misses := misses st;
     reactionList := reactionList st; distanceList := distanceList st;
     adaptHistory := adaptHistory st;
     reactionWindowMs := reactionWindowMs st; startTs := startTs st;
     lastPlacedIdx := lastPlacedIdx st; timeouts := timeouts st;
     spawnTimers := spawnTimers st; emitted := emitted st;
     scores := scores st ++ [r] |}.

(** The component as first rendered. *)
Definition initial : State :=
  {| running := false; stimuli := []; totalShown := 0%nat;
     hits := 0%nat; errors := 0%nat; misses := 0%nat;
     reactionList := []; distanceList := [];
     adaptHistory := [800]; reactionWindowMs := 800;
     startTs := None; lastPlacedIdx := None; timeouts := [];
     spawnTimers := 0%nat; emitted := []; scores := [] |}.

Definition remove_id (i : nat) (l : list nat) : list nat :=
  filter (fun j => negb (Nat.eqb j i)) l.

(** [clearAllTimeouts]: clears the timer of every displayed stimulus and
    empties the display. *)
Definition clearAllTimeouts (st : State) : State :=
  set_stimuli []
    (set_timeouts
       (fold_left (fun ts s => remove_id (id s) ts) (stimuli st)
                  (timeouts st)) st).

(** The accuracy computed by [stop]:
    [attempts ? Math.round((hits / attempts) * 100) : 100]. *)
Definition stop_accuracyPct (h e m : nat) : Z :=
  let hits := B64.counter h in
  let attempts :=
    B64.add (B64.add hits (B64.counter e)) (B64.counter m) in
  if Qeq_bool attempts 0 then 100 else JS.percent hits attempts.

Definition buildReport (now : Z) (st : State) : Report :=
  let rtList := reactionList st in
  {| durationMs := JS.elapsed_since (startTs st) now;
     completionTimeSec :=
       JS.seconds_2dp (JS.elapsed_since (startTs st) now);
     reactionTimeAvgMs := JS.rounded_mean rtList;
     reactionTimeBestMs := JS.best rtList;
     reactionsCount := length rtList;
     r_errors := errors st;
     r_misses := misses st;
     r_hits := hits st;
     accuracyPct := stop_accuracyPct (hits st) (errors st) (misses st);
     reactionTimeListMs := rtList;
     distanceErrorPxList := distanceList st;
     reactionWindowHistoryMs := adaptHistory st;
     totalStimuli := totalShown st |}.

Definition stop (now : Z) (st : State) : State :=
  let r := buildReport now st in
  let st := clearAllTimeouts (set_running false st) in
  let st := emitEvent (END now (r_hits r) (r_errors r) (r_misses r)
                           (reactionTimeAvgMs r) (reactionTimeBestMs r)
                           (accuracyPct r)) st in
  emitScore r st.

(** The quantities read by [adaptDifficulty]. *)
Definition avgRecent (st : State) : Q :=
  let recentHits := JS.slice_last 10 (reactionList st) in
  match recentHits with
  | [] => inject_Z (reactionWindowMs st)
  | _ => inject_Z (JS.sum recentHits)
         / inject_Z (Z.of_nat (length recentHits))
  end.

Definition missRate (st : State) : Q :=
  inject_Z (Z.of_nat (misses st))
  / inject_Z (Z.of_nat (Nat.max 1 (totalShown st))).

Definition errorRate (st : State) : Q :=
  inject_Z (Z.of_nat (errors st))
  / inject_Z (Z.of_nat (Nat.max 1 (totalShown st))).

(** The window chosen by [adaptDifficulty]. *)
Definition adaptedWindow (st : State) : Z :=
  let targetWindow := Z.max 400 (JS.Math_round (avgRecent st * (9 # 10))) in
  if JS.Qltb (missRate st) (5 # 100) && JS.Qltb (errorRate st) (5 # 100)
     && JS.Qltb (avgRecent st) (inject_Z (reactionWindowMs st))
  then Z.max 400 targetWindow
  else if JS.Qltb (15 # 100) (missRate st)
          || JS.Qltb (15 # 100) (errorRate st)
  then Z.min 1200 (JS.Math_round (inject_Z (reactionWindowMs st)
                                  * (11 # 10)))
  else reactionWindowMs st.

Definition adaptDifficulty (now : Z) (st : State) : State :=
  let w := adaptedWindow st in
  let st := set_reactionWindowMs w st in
  let st := set_adaptHistory (adaptHistory st ++ [w]) st in
  emitEvent (ADAPT now w) st.

(** [queueSpawn]: arms one jitter timer. *)
Definition queueSpawn (st : State) : State :=
  set_spawnTimers (S (spawnTimers st)) st.

(** [spawnStimulus]; the colour, the cell, the display duration and the
    id are the random draws of the call. [placed] tells whether the
    component records the cell in [lastPlacedIdxRef]. *)
Definition spawnStimulus (placed : bool) (c : Color) (cell : nat)
           (now displayDur : Z) (sid : nat) (st : State) : State :=
  if (TOTAL_STIMULI <=? totalShown st)%nat then st
  else
    let st := if placed then set_lastPlacedIdx (Some cell) st else st in
    let newStim := {| id := sid; idx := cell; color := c; shownAt := now;
                      expiresAt := now + displayDur |} in
    let st := set_timeouts (timeouts st ++ [sid]) st in
    let st := set_stimuli (stimuli st ++ [newStim]) st in
    let st := set_totalShown (S (totalShown st)) st in
    emitEvent (STIMULUS now sid cell c displayDur) st.

(** The callback of a [queueSpawn] timer. *)
Definition onSpawnTimer (placed : bool) (c : Color) (cell : nat)
           (now displayDur : Z) (sid : nat) (st : State) : State :=
  match spawnTimers st with
  | O => st
  | S n =>
      let st := set_spawnTimers n st in
      if negb (running st) then st
      else if (MAX_ACTIVE <=? length (stimuli st))%nat then st
      else if (TOTAL_STIMULI <=? totalShown st)%nat then st
      else spawnStimulus placed c cell now displayDur sid st
  end.

(** The tail shared by the click handler and the expiry callback:
    the stimulus leaves the display, the next one is queued, and the
    session stops after the last one. *)
Definition retire (sid : nat) (now : Z) (st : State) : State :=
  let next := filter (fun s => negb (Nat.eqb (id s) sid)) (stimuli st) in
  let st := if running st && (totalShown st <? TOTAL_STIMULI)%nat
            then queueSpawn st else st in
  let st := set_stimuli next st in
  if (TOTAL_STIMULI <=? totalShown st)%nat && (length next =? 0)%nat
  then stop now st else st.

(** The expiry timer of stimulus [sid] fires. *)
Definition onExpire (sid : nat) (now : Z) (st : State) : State :=
  if negb (existsb (Nat.eqb sid) (timeouts st)) then st
  else
    let st := set_timeouts (remove_id sid (timeouts st)) st in
    match find (fun s => Nat.eqb (id s) sid) (stimuli st) with
    | None => st
    | Some stim =>
        let st :=
          match color stim with
          | green => emitEvent (MISS now (idx stim))
                               (set_misses (S (misses st)) st)
          | red => st
          end in
        retire sid now st
    end.

(** [reset] *)
Definition reset (st : State) : State :=
  let st := clearAllTimeouts st in
  {| running := running st; stimuli := []; totalShown := 0%nat;
     hits := 0%nat; errors := 0%nat; misses := 0%nat;
     reactionList := []; distanceList := [];
     adaptHistory := [800]; reactionWindowMs := 800;
     startTs := None; lastPlacedIdx := None; timeouts := timeouts st;
     spawnTimers := spawnTimers st; emitted := emitted st;
     scores := scores st |}.

(** [start] *)
Definition start (now : Z) (st : State) : State :=
  let st := reset st in
  let st := set_running true st in
  let st := set_startTs (Some now) st in
  let st := emitEvent (START now) st in
  queueSpawn st.

(** What the user and the timers can do to the component. *)
Inductive Input : Type :=
| PressStart (now : Z)
| PressStop (now : Z)
| Click (cellIdx : nat) (now distPx : Z)
| SpawnTimer (c : Color) (cell : nat) (now displayDur : Z) (sid : nat)
| ExpiryTimer (sid : nat) (now : Z).

End GoNoGo.

Module ColorReactionGame.
Import GoNoGo.

(** The stimulus the render draws in cell [cellIdx]:
    [here.find((s) => s.color === "green") || here[0] || null]. *)
Definition shown (cellIdx : nat) (st : State) : option Stim :=
  let here := filter (fun s => Nat.eqb (idx s) cellIdx) (stimuli st) in
  match find (fun s => Color_eqb (color s) green) here with
  | Some g => Some g
  | None => nth_error here 0
  end.

(** [onCellClick(cellIdx, ev)] at time [now], the pointer being [distPx]
    (rounded) away from the centre of the cell. *)
Definition onCellClick (cellIdx : nat) (now distPx : Z) (st : State)
  : State :=
  if negb (running st) then st
  else
    let activeHere :=
      filter (fun s => Nat.eqb (idx s) cellIdx) (stimuli st) in
    match activeHere with
    | [] => emitEvent (ERROR_EMPTY now cellIdx)
                      (set_errors (S (errors st)) st)
    | first :: _ =>
        let stim :=
          match find (fun s => Color_eqb (color s) green) activeHere with
          | Some g => g
          | None => first
          end in
        let rt := now - shownAt stim in
        let withinWindow := now - shownAt stim <=? reactionWindowMs st in
        let st :=
          if Color_eqb (color stim) green && withinWindow then
            let st := set_hits (S (hits st)) st in
            let st := set_reactionList (reactionList st ++ [rt]) st in
            let st := set_distanceList (distanceList st ++ [distPx]) st in
            let st := emitEvent (HIT now (idx stim) rt (Some distPx)) st in
            if ((hits st + errors st + misses st) mod 10 =? 0)%nat
            then adaptDifficulty now st else st
          else
            let st := set_errors (S (errors st)) st in
            emitEvent (ERROR now (idx stim) (color stim)
                             (match color stim with
                              | red => no_go
                              | green => late
                              end) rt (Some distPx)) st in
        let st := set_timeouts (remove_id (id stim) (timeouts st)) st in
        retire (id stim) now st
    end.

Definition step (i : Input) (st : State) : State :=
  match i with
  | PressStart now => if running st then st else start now st
  | PressStop now => if running st then stop now st else st
  | Click cellIdx now distPx => onCellClick cellIdx now distPx st
  | SpawnTimer c cell now dur sid => onSpawnTimer true c cell now dur sid st
  | ExpiryTimer sid now => onExpire sid now st
  end.

Definition run (inputs : list Input) (st : State) : State :=
  fold_left (fun s i => step i s) inputs st.

End ColorReactionGame.

Module ColorReactionGameEdges.
Import GoNoGo.

(** The stimulus the render draws in cell [cellIdx]:
    [stimuli.find((s) => s.idx === idx)]. *)
Definition shown (cellIdx : nat) (st : State) : option Stim :=
  find (fun s => Nat.eqb (idx s) cellIdx) (stimuli st).

(** [onCellClick(cellIdx, ev)]; this component measures no distance. *)
Definition onCellClick (cellIdx : nat) (now : Z) (st : State) : State :=
  if negb (running st) then st
  else
    match find (fun s => Nat.eqb (idx s) cellIdx) (stimuli st) with
    | None => emitEvent (ERROR_EMPTY now cellIdx)
                        (set_errors (S (errors st)) st)
    | Some stim =>
        let rt := now - shownAt stim in
        let withinWindow := rt <=? reactionWindowMs st in
        let st :=
          if Color_eqb (color stim) green && withinWindow then
            let st := set_hits (S (hits st)) st in
            let st := set_reactionList (reactionList st ++ [rt]) st in
            let st := emitEvent (HIT now (idx stim) rt None) st in
            if ((hits st + errors st + misses st) mod 10 =? 0)%nat
            then adaptDifficulty now st else st
          else
            let st := set_errors (S (errors st)) st in
            emitEvent (ERROR now (idx stim) (color stim)
                             (match color stim with
                              | red => no_go
                              | green => late
                              end) rt None) st in
        let st := set_timeouts (remove_id (id stim) (timeouts st)) st in
        retire (id stim) now st
    end.

Definition step (i : Input) (st : State) : State :=
  match i with
  | PressStart now => if running st then st else start now st
  | PressStop now => if running st then stop now st else st
  | Click cellIdx now _ => onCellClick cellIdx now st
  | SpawnTimer c cell now dur sid =>
      onSpawnTimer false c cell now dur sid st
  | ExpiryTimer sid now => onExpire sid now st
  end.

Definition run (inputs : list Input) (st : State) : State :=
  fold_left (fun s i => step i s) inputs st.

End ColorReactionGameEdges.


(** ** FiveTargetReactionGame *)

Module FiveTargetReactionGame.

Definition GRID_SIZE : nat := 10.
Definition TOTAL_SETS : nat := 10.
Definition TARGETS_PER_SET : nat := 5.

(** [COLORS], by position in the palette: green, blue, pink, yellow,
    orange, violet. *)
Inductive Color : Type := c4ADE80 | c60A5FA | cF472B6 | cFACC15 | cFB923C
                        | cA78BFA.

Definition COLORS : list Color :=
  [c4ADE80; c60A5FA; cF472B6; cFACC15; cFB923C; cA78BFA].

(** One target of the current set; its id is the pair of the time the set
    was shown and the cell. *)
Record Stim : Type := {
  id : Z * nat;
  idx : nat;
  color : Color;
  clicked : bool;
  perfShownAt : Q
}.

Inductive Event : Type :=
| START (ts : Z)
| SET_START (ts : Z) (c : Color) (indices : list nat)
| ERROR_EMPTY (ts : Z) (cell : nat)
| HIT (ts : Z) (cell : nat) (c : Color) (reactionMs distancePx : Z)
| END (ts : Z) (sets nhits nerrors : nat) (avgMs bestMs : Z).

Record Report : Type := {
  durationMs : Z;
  completionTimeSec : Q;
  reactionTimeAvgMs : Z;
  reactionTimeBestMs : Z;
  r_hits : nat;
  r_errors : nat;
  accuracyPct : JS.number;
  reactionTimeListMs : list Z;
  distanceErrorPxList : list Z;
  totalSets : nat
}.

Record State : Type := {
  running : bool;
  stimuli : list Stim;
  currentColorIdx : nat;
  startTs : option Z;
  setStartTs : option Q;
  currentSet : nat;
  clickedCount : nat;
  totalShown : nat;
  hits : nat;
  errors : nat;
  reactionList : list Z;
  distanceList : list Z;
  (** pending [setTimeout(spawnSet, 300)] *)
  spawnTimers : nat;
  emitted : list Event;
  scores : list Report
}.

Definition initial : State :=
  {| running := false; stimuli := []; currentColorIdx := 0%nat;
     startTs := None; setStartTs := None; currentSet := 0%nat;
     clickedCount := 0%nat; totalShown := 0%nat; hits := 0%nat;
     errors := 0%nat; reactionList := []; distanceList := [];
     spawnTimers := 0%nat; emitted := []; scores := [] |}.

Definition emitEvent (e : Event) (st : State) : State :=
  {| running := running st; stimuli := stimuli st;
     currentColorIdx := currentColorIdx st; startTs := startTs st;
     setStartTs := setStartTs st; currentSet := currentSet st;
     clickedCount := clickedCount st; totalShown := totalShown st;
     hits := hits st; errors := errors st;
     reactionList := reactionList st; distanceList := distanceList st;
     spawnTimers := spawnTimers st; emitted := emitted st ++ [e];
     scores := scores st |}.

Definition emitScore (r : Report) (st : State) : State :=
  {| running := running st; stimuli := stimuli st;
     currentColorIdx := currentColorIdx st; startTs := startTs st;
     setStartTs := setStartTs st; currentSet := currentSet st;
     clickedCount := clickedCount st; totalShown := totalShown st;
     hits := hits st; errors := errors st;
     reactionList := reactionList st; distanceList := distanceList st;
     spawnTimers := spawnTimers st; emitted := emitted st;
     scores := scores st ++ [r] |}.

(** [clearAll] *)
Definition clearAll (st : State) : State :=
  {| running := running st; stimuli := []; currentColorIdx := 0%nat;
     startTs := startTs st; setStartTs := setStartTs st;
     currentSet := 0%nat; clickedCount := 0%nat; totalShown := 0%nat;
     hits := 0%nat; errors := 0%nat; reactionList := [];
     distanceList := []; spawnTimers := spawnTimers st;
     emitted := emitted st; scores := scores st |}.

(** The accuracy computed by [stop]:
    [Math.round((hits / (hits + errors)) * 100) || 100]. *)
Definition stop_accuracyPct (h e : nat) : JS.number :=
  let hits := B64.counter h in
  let attempts := B64.add hits (B64.counter e) in
  JS.or_else
    (if Qeq_bool attempts 0 then JS.NaN
     else JS.of_Z (JS.percent hits attempts))
    (JS.of_Z 100).

Definition buildReport (now : Z) (st : State) : Report :=
  let rtList := reactionList st in
  {| durationMs := JS.elapsed_since (startTs st) now;
     completionTimeSec :=
       JS.seconds_2dp (JS.elapsed_since (startTs st) now);
     reactionTimeAvgMs := JS.rounded_mean rtList;
     reactionTimeBestMs := JS.best rtList;
     r_hits := hits st;
     r_errors := errors st;
     accuracyPct := stop_accuracyPct (hits st) (errors st);
     reactionTimeListMs := rtList;
     distanceErrorPxList := distanceList st;
     totalSets := currentSet st |}.

(** [stop] *)
Definition stop (now : Z) (st : State) : State :=
  let r := buildReport now st in
  let st :=
    {| running := false; stimuli := stimuli st;
       currentColorIdx := currentColorIdx st; startTs := startTs st;
       setStartTs := setStartTs st; currentSet := currentSet st;
       clickedCount := clickedCount st; totalShown := totalShown st;
       hits := hits st; errors := errors st;
       reactionList := reactionList st; distanceList := distanceList st;
       spawnTimers := spawnTimers st; emitted := emitted st;
       scores := scores st |} in
  let st := emitScore r st in
  emitEvent (END now (totalSets r) (r_hits r) (r_errors r)
                 (reactionTimeAvgMs r) (reactionTimeBestMs r)) st.

(** [spawnSet]; [indices] is the result of [pickUniqueIndices]. *)
Definition spawnSet (indices : list nat) (now : Z) (perfNow : Q)
           (st : State) : State :=
  if negb (running st) then st
  else if (TOTAL_SETS <=? currentSet st)%nat then stop now st
  else
    let c := nth (currentColorIdx st mod length COLORS) COLORS c4ADE80 in
    let newStimuli :=
      map (fun i => {| id := (now, i); idx := i; color := c;
                       clicked := false; perfShownAt := perfNow |})
          indices in
    let st :=
      {| running := running st; stimuli := newStimuli;
         currentColorIdx := currentColorIdx st; startTs := startTs st;
         setStartTs := Some perfNow; currentSet := currentSet st;
         clickedCount := clickedCount st;
         totalShown := (totalShown st + TARGETS_PER_SET)%nat;
         hits := hits st; errors := errors st;
         reactionList := reactionList st; distanceList := distanceList st;
         spawnTimers := spawnTimers st; emitted := emitted st;
         scores := scores st |} in
    emitEvent (SET_START now c indices) st.

(** [start] *)
Definition start (indices : list nat) (now : Z) (perfNow : Q)
           (st : State) : State :=
  let st := clearAll st in
  let st :=
    {| running := true; stimuli := stimuli st;
       currentColorIdx := currentColorIdx st; startTs := Some now;
       setStartTs := setStartTs st; currentSet := currentSet st;
       clickedCount := clickedCount st; totalShown := totalShown st;
       hits := hits st; errors := errors st;
       reactionList := reactionList st; distanceList := distanceList st;
       spawnTimers := spawnTimers st; emitted := emitted st;
       scores := scores st |} in
  let st := emitEvent (START now) st in
  spawnSet indices now perfNow st.

(** [setStartTsRef.current || performance.now()] *)
Definition setStart_or (perfNow : Q) (st : State) : Q :=
  match setStartTs st with
  | Some t => if Qeq_bool t 0 then perfNow else t
  | None => perfNow
  end.

(** [onCellClick(cellIdx, ev)] at wall-clock time [now] and
    high-resolution time [perfNow], the pointer being [distPx] (rounded)
    away from the centre of the cell. *)
Definition onCellClick (cellIdx : nat) (now : Z) (perfNow : Q) (distPx : Z)
           (st : State) : State :=
  if negb (running st) then st
  else
    match find (fun s => Nat.eqb (idx s) cellIdx) (stimuli st) with
    | None =>
        emitEvent (ERROR_EMPTY now cellIdx)
          {| running := running st; stimuli := stimuli st;
             currentColorIdx := currentColorIdx st; startTs := startTs st;
             setStartTs := setStartTs st; currentSet := currentSet st;
             clickedCount := clickedCount st; totalShown := totalShown st;
             hits := hits st; errors := S (errors st);
             reactionList := reactionList st;
             distanceList := distanceList st;
             spawnTimers := spawnTimers st; emitted := emitted st;
             scores := scores st |}
    | Some stim =>
        if clicked stim then st
        else
          let rt := JS.Math_round (perfNow - setStart_or perfNow st) in
          let count := S (clickedCount st) in
          let nextSet := (count mod TARGETS_PER_SET =? 0)%nat in
          emitEvent (HIT now cellIdx (color stim) rt distPx)
            {| running := running st;
               stimuli :=
                 map (fun s =>
                        if Nat.eqb (idx s) cellIdx
                        then {| id := id s; idx := idx s; color := color s;
                                clicked := true;
                                perfShownAt := perfShownAt s |}
                        else s) (stimuli st);
               currentColorIdx :=
                 if nextSet then S (currentColorIdx st)
                 else currentColorIdx st;
               startTs := startTs st; setStartTs := setStartTs st;
               currentSet :=
                 if nextSet then S (currentSet st) else currentSet st;
               clickedCount := count; totalShown := totalShown st;
               hits := S (hits st); errors := errors st;
               reactionList := reactionList st ++ [rt];
               distanceList := distanceList st ++ [distPx];
               spawnTimers :=
                 if nextSet then S (spawnTimers st) else spawnTimers st;
               emitted := emitted st; scores := scores st |}
    end.

(** The callback of a pending [setTimeout(spawnSet, 300)]. *)
Definition onSpawnTimer (indices : list nat) (now : Z) (perfNow : Q)
           (st : State) : State :=
  match spawnTimers st with
  | O => st
  | S n =>
      spawnSet indices now perfNow
        {| running := running st; stimuli := stimuli st;
           currentColorIdx := currentColorIdx st; startTs := startTs st;
           setStartTs := setStartTs st; currentSet := currentSet st;
           clickedCount := clickedCount st; totalShown := totalShown st;
           hits := hits st; errors := errors st;
           reactionList := reactionList st;
           distanceList := distanceList st;
           spawnTimers := n; emitted := emitted st; scores := scores st |}
  end.

Inductive Input : Type :=
| PressStart (indices : list nat) (now : Z) (perfNow : Q)
| PressStop (now : Z)
| Click (cellIdx : nat) (now : Z) (perfNow : Q) (distPx : Z)
| SpawnTimer (indices : list nat) (now : Z) (perfNow : Q).

Definition step (i : Input) (st : State) : State :=
  match i with
  | PressStart indices now perfNow =>
      if running st then st else start indices now perfNow st
  | PressStop now => if running st then stop now st else st
  | Click cellIdx now perfNow distPx => onCellClick cellIdx now perfNow distPx st
  | SpawnTimer indices now perfNow => onSpawnTimer indices now perfNow st
  end.

Definition run (inputs : list Input) (st : State) : State :=
  fold_left (fun s i => step i s) inputs st.

End FiveTargetReactionGame.


(** ** What a call can do: return, throw, or stay in its loop *)

Module Call.

Inductive Exception : Type :=
| InsufficientSpaceError
| TypeError.

(** [Spinning s]: the supplied random draws are used up and the loop
    condition still holds; [s] is the sequence built so far. *)
Inductive Outcome (A : Type) : Type :=
| Returned (a : A)
| Threw (e : Exception)
| Spinning (sofar : A).

Arguments Returned {A} a.
Arguments Threw {A} e.
Arguments Spinning {A} sofar.

End Call.

(** ** The host's timers

    A pending [setTimeout] is its deadline, its callback, and whether the
    component kept its handle (only then can [clearTimers] cancel it). *)

Module Scheduler.

Record Timer (C : Type) : Type := {
  due : Z;
  tracked : bool;
  callback : C
}.

Arguments due {C} t.
Arguments tracked {C} t.
Arguments callback {C} t.

(** The pending timer with the least deadline fires first, the one set
    first among equal deadlines. *)
Fixpoint pop_earliest {C : Type} (l : list (Timer C))
  : option (Timer C * list (Timer C)) :=
  match l with
  | [] => None
  | t :: rest =>
      match pop_earliest rest with
      | None => Some (t, [])
      | Some (u, rest') =>
          if due u <? due t then Some (u, t :: rest') else Some (t, rest)
      end
  end.

(** The order in which the first [n] pending timers fire. *)
Fixpoint firing_order {C : Type} (n : nat) (l : list (Timer C))
  : list (Timer C) :=
  match n with
  | O => []
  | S n' =>
      match pop_earliest l with
      | None => []
      | Some (t, rest) => t :: firing_order n' rest
      end
  end.

(** The timers set by a run of [setTimeout] calls made at time [now]. *)
Definition arm {C : Type} (isTracked : bool) (now : Z)
           (calls : list (Z * C)) : list (Timer C) :=
  map (fun '(delay, cb) =>
         {| due := now + delay; tracked := isTracked; callback := cb |})
      calls.

End Scheduler.

(** ** Central-PeripheralSpanTask *)

Module CentralPeripheralSpanTask.
Import Call.

Definition GRID : nat := 10.
Definition CELLS : nat := GRID * GRID.

Inductive Region : Type := central | peripheral.

Definition BLOCKS : list Region := [central; peripheral].
Definition SEQS_PER_BLOCK : nat := 10.
Definition START_LEN : Z := 3.
Definition MIN_LEN : Z := 2.
Definition MAX_LEN : Z := 7.
Definition ON_MS : Z := 600.
Definition GAP_MS : Z := 400.

Inductive Phase : Type := idle | present | respond | between.

Definition Phase_eqb (a b : Phase) : bool :=
  match a, b with
  | idle, idle | present, present | respond, respond
  | between, between => true
  | _, _ => false
  end.

(** An entry of [logsRef]. *)
Record Log : Type := {
  ts : Z;
  i : nat;
  correct : bool;
  block : option Region;
  pos : nat
}.

Record Report : Type := {
  durationMs : Z;
  span_central : nat;
  span_peripheral : nat;
  details_logs : list Log
}.

(** The callbacks handed to [setTimeout]. *)
Inductive Callback : Type :=
| SetLit (cell : option nat)
| SetPhaseRespond
| StartTrial (len : Z).

Definition Timer : Type := Scheduler.Timer Callback.

Record State : Type := {
  running : bool;
  phase : Phase;
  blockIdx : nat;
  seq : list nat;
  lit : option nat;
  trialIdx : nat;
  seqLen : Z;
  replayPos : nat;
  logs : list Log;
  timers : list Timer;
  spanMax_central : nat;
  spanMax_peripheral : nat;
  startTs : option Z;
  scores : list Report
}.

Definition initial : State :=
  {| running := false; phase := idle; blockIdx := 0%nat; seq := [];
     lit := None; trialIdx := 0%nat; seqLen := START_LEN;
     replayPos := 0%nat; logs := []; timers := [];
     spanMax_central := 0%nat; spanMax_peripheral := 0%nat;
     startTs := None; scores := [] |}.

Definition set_phase (v : Phase) (st : State) : State :=
  {| running := running st; phase := v; blockIdx := blockIdx st;
     seq := seq st; lit := lit st; trialIdx := trialIdx st;
     seqLen := seqLen st; replayPos := replayPos st; logs := logs st;
     timers := timers st; spanMax_central := spanMax_central st;
     spanMax_peripheral := spanMax_peripheral st; startTs := startTs st;
     scores := scores st |}.

Definition set_seq (v : list nat) (st : State) : State :=
  {| running := running st; phase := phase st; blockIdx := blockIdx st;
     seq := v; lit := lit st; trialIdx := trialIdx st;
     seqLen := seqLen st; replayPos := replayPos st; logs := logs st;
     timers := timers st; spanMax_central := spanMax_central st;
     spanMax_peripheral := spanMax_peripheral st; startTs := startTs st;
     scores := scores st |}.

Definition set_lit (v : option nat) (st : State) : State :=
  {| running := running st; phase := phase st; blockIdx := blockIdx st;
     seq := seq st; lit := v; trialIdx := trialIdx st;
     seqLen := seqLen st; replayPos := replayPos st; logs := logs st;
     timers := timers st; spanMax_central := spanMax_central st;
     spanMax_peripheral := spanMax_peripheral st; startTs := startTs st;
     scores := scores st |}.

Definition set_replayPos (v : nat) (st : State) : State :=
  {| running := running st; phase := phase st; blockIdx := blockIdx st;
     seq := seq st; lit := lit st; trialIdx := trialIdx st;
     seqLen := seqLen st; replayPos := v; logs := logs st;
     timers := timers st; spanMax_central := spanMax_central st;
     spanMax_peripheral := spanMax_peripheral st; startTs := startTs st;
     scores := scores st |}.

Definition set_logs (v : list Log) (st : State) : State :=
  {| running := running st; phase := phase st; blockIdx := blockIdx st;
     seq := seq st; lit := lit st; trialIdx := trialIdx st;
     seqLen := seqLen st; replayPos := replayPos st; logs := v;
     timers := timers st; spanMax_central := spanMax_central st;
     spanMax_peripheral := spanMax_peripheral st; startTs := startTs st;
     scores := scores st |}.

Definition set_timers (v : list Timer) (st : State) : State :=
  {| running := running st; phase := phase st; blockIdx := blockIdx st;
     seq := seq st; lit := lit st; trialIdx := trialIdx st;
     seqLen := seqLen st; replayPos := replayPos st; logs := logs st;
     timers := v; spanMax_central := spanMax_central st;
     spanMax_peripheral := spanMax_peripheral st; startTs := startTs st;
     scores := scores st |}.

(** [setTimeout(cb, delay)] called at time [now]. *)
Definition setTimeout (isTracked : bool) (now : Z) (cb : Callback)
           (delay : Z) (st : State) : State :=
  set_timers
    (timers st ++ [{| Scheduler.due := now + delay;
                      Scheduler.tracked := isTracked;
                      Scheduler.callback := cb |}]) st.

(** [clearTimers]: cancels the timers whose handles are in [timersRef]. *)
Definition clearTimers (st : State) : State :=
  set_timers (filter (fun t => negb (Scheduler.tracked t)) (timers st)) st.

(** [regionFilter(region)]; [None] stands for a block index past
    [BLOCKS], for which [region === "central"] is false. *)
Definition regionFilter (region : option Region) : list nat :=
  flat_map
    (fun r =>
       flat_map
         (fun c =>
            let idx := (r * GRID + c)%nat in
            let inCenter :=
              (3 <=? r)%nat && (r <=? 6)%nat && (3 <=? c)%nat
              && (c <=? 6)%nat in
            if match region with
               | Some central => inCenter
               | _ => negb inCenter
               end
            then [idx] else [])
         (List.seq 0 GRID))
    (List.seq 0 GRID).

(** The loop of [randSeq].  A draw [r] is the entropy behind one call of
    [Math.random()]: [Math.floor(Math.random() * available.length)] is
    [r mod available.length], so any index of [available] can come out and
    nothing else. *)
Fixpoint randSeq_loop (available : list nat) (len : Z) (draws : list nat)
         (used sofar : list nat) : Outcome (list nat) :=
  if Z.of_nat (length sofar) <? len then
    match draws with
    | [] => Spinning sofar
    | r :: rest =>
        let idx := nth (r mod length available) available 0%nat in
        if negb (existsb (Nat.eqb idx) used)
        then randSeq_loop available len rest (idx :: used) (sofar ++ [idx])
        else randSeq_loop available len rest used sofar
    end
  else Returned sofar.

(** [randSeq(len, region)] *)
Definition randSeq (len : Z) (region : option Region) (draws : list nat)
  : Outcome (list nat) :=
  randSeq_loop (regionFilter region) len draws [] [].

(** The [setTimeout] calls of [presentSeq(arr)], in program order, each
    with its delay. *)
Definition presentSeq_timeouts (arr : list nat) : list (Z * Callback) :=
  let '(t, calls) :=
    fold_left
      (fun '(t, calls) cell =>
         let calls := calls ++ [(t, SetLit (Some cell))] in
         let t := t + ON_MS in
         let calls := calls ++ [(t, SetLit None)] in
         let t := t + GAP_MS in
         (t, calls))
      arr (0, []) in
  calls ++ [(t, SetPhaseRespond)].

(** [presentSeq(arr)] called at time [now]. *)
Definition presentSeq (arr : list nat) (now : Z) (st : State) : State :=
  fold_left
    (fun st '(delay, cb) => setTimeout true now cb delay st)
    (presentSeq_timeouts arr)
    (set_phase present st).

(** [startTrial(len)] called at time [now]; [None] when [randSeq] does not
    return on the supplied draws. *)
Definition startTrial (len : Z) (draws : list nat) (now : Z) (st : State)
  : option State :=
  let region := nth_error BLOCKS (blockIdx st) in
  match randSeq len region draws with
  | Returned arr => Some (presentSeq arr now (set_seq arr st))
  | _ => None
  end.

(** The next length computed by [finishTrial]. *)
Definition nextLen (currentLen : Z) (ok : bool) : Z :=
  Z.max MIN_LEN (Z.min MAX_LEN (currentLen + (if ok then 1 else -1))).

(** [finishTrial(ok)] called at time [now]. *)
Definition finishTrial (ok : bool) (now : Z) (st : State) : State :=
  let region := nth_error BLOCKS (blockIdx st) in
  let reached := length (seq st) in
  let central' :=
    match ok, region with
    | true, Some central => Nat.max (spanMax_central st) reached
    | _, _ => spanMax_central st
    end in
  let peripheral' :=
    match ok, region with
    | true, Some peripheral => Nat.max (spanMax_peripheral st) reached
    | _, _ => spanMax_peripheral st
    end in
  let next := nextLen (seqLen st) ok in
  if (SEQS_PER_BLOCK <=? trialIdx st + 1)%nat then
    if (length BLOCKS <=? blockIdx st + 1)%nat then
      {| running := false; phase := idle; blockIdx := blockIdx st;
         seq := seq st; lit := lit st; trialIdx := trialIdx st;
         seqLen := next; replayPos := replayPos st; logs := logs st;
         timers := timers st; spanMax_central := central';
         spanMax_peripheral := peripheral'; startTs := startTs st;
         scores :=
           scores st
           ++ [{| durationMs :=
                    now - match startTs st with Some t => t | None => 0 end;
                  span_central := central';
                  span_peripheral := peripheral';
                  details_logs := logs st |}] |}
    else
      setTimeout false now (StartTrial START_LEN) 800
        {| running := running st; phase := between;
           blockIdx := (blockIdx st + 1)%nat;
           seq := seq st; lit := lit st; trialIdx := 0%nat;
           seqLen := START_LEN; replayPos := replayPos st;
           logs := logs st; timers := timers st;
           spanMax_central := central';
           spanMax_peripheral := peripheral'; startTs := startTs st;
           scores := scores st |}
  else
    setTimeout false now (StartTrial next) 600
      {| running := running st; phase := between; blockIdx := blockIdx st;
         seq := seq st; lit := lit st; trialIdx := (trialIdx st + 1)%nat;
         seqLen := next; replayPos := replayPos st; logs := logs st;
         timers := timers st; spanMax_central := central';
         spanMax_peripheral := peripheral'; startTs := startTs st;
         scores := scores st |}.

(** [i === seq[replayPos]] *)
Definition matches (cell : nat) (st : State) : bool :=
  match nth_error (seq st) (replayPos st) with
  | Some expected => Nat.eqb cell expected
  | None => false
  end.

(** [onCellClick(i)] at time [now]. *)
Definition onCellClick (cell : nat) (now : Z) (st : State) : State :=
  if negb (Phase_eqb (phase st) respond) then st
  else
    let ok := matches cell st in
    let st :=
      set_logs (logs st ++ [{| ts := now; i := cell; correct := ok;
                               block := nth_error BLOCKS (blockIdx st);
                               pos := replayPos st |}]) st in
    if ok then
      if (length (seq st) <=? replayPos st + 1)%nat
      then finishTrial true now st
      else set_replayPos (replayPos st + 1)%nat st
    else finishTrial false now st.

(** [start] called at time [now]. *)
Definition start (now : Z) (st : State) : State :=
  let st := clearTimers st in
  setTimeout false now (StartTrial START_LEN) 500
    {| running := true; phase := between; blockIdx := 0%nat;
       seq := seq st; lit := lit st; trialIdx := 0%nat;
       seqLen := START_LEN; replayPos := replayPos st; logs := logs st;
       timers := timers st; spanMax_central := spanMax_central st;
       spanMax_peripheral := spanMax_peripheral st;
       startTs := Some now; scores := scores st |}.

(** The next pending timer fires, at its deadline. *)
Definition fire (draws : list nat) (st : State) : option State :=
  match Scheduler.pop_earliest (timers st) with
  | None => None
  | Some (t, rest) =>
      let st := set_timers rest st in
      match Scheduler.callback t with
      | SetLit cell => Some (set_lit cell st)
      | SetPhaseRespond => Some (set_phase respond st)
      | StartTrial len => startTrial len draws (Scheduler.due t) st
      end
  end.

(** What the user and the timers can do; the Start button is rendered
    only while the task is not running. *)
Inductive Input : Type :=
| PressStart (now : Z)
| Click (cell : nat) (now : Z)
| Fire (draws : list nat).

Definition step (inp : Input) (st : State) : option State :=
  match inp with
  | PressStart now => if running st then None else Some (start now st)
  | Click cell now => Some (onCellClick cell now st)
  | Fire draws => fire draws st
  end.

Fixpoint run (inputs : list Input) (st : State) : option State :=
  match inputs with
  | [] => Some st
  | inp :: rest =>
      match step inp st with
      | Some st' => run rest st'
      | None => None
      end
  end.

End CentralPeripheralSpanTask.


(** ** SpamperceptionBlocks *)

Module SpamperceptionBlocks.
Import Call.

Definition GRID : nat := 10.
Definition CELLS : nat := GRID * GRID.

Inductive Mode : Type := digits | letters | colors | shapes.

Definition Mode_eqb (a b : Mode) : bool :=
  match a, b with
  | digits, digits | letters, letters | colors, colors
  | shapes, shapes => true
  | _, _ => false
  end.

Definition MODES : list Mode := [digits; letters; colors; shapes].
Definition SEQS_PER_BLOCK : nat := 10.
Definition ON_MS : Z := 600.
Definition GAP_MS : Z := 400.
Definition MIN_LEN : Z := 2.
Definition MAX_LEN : Z := 7.
Definition START_LEN : Z := 3.

Inductive Phase : Type := idle | present | respond | between.

Definition Phase_eqb (a b : Phase) : bool :=
  match a, b with
  | idle, idle | present, present | respond, respond
  | between, between => true
  | _, _ => false
  end.

(** An entry of a serial-position array: a count, [NaN], or an index
    that was never written (reading it gives [undefined]). *)
Inductive Slot : Type :=
| Count (n : nat)
| NotANumber
| Hole.

(** [ModStats] *)
Record ModStats : Type := {
  spanMax : nat;
  hits : nat;
  total : nat;
  errors : nat;
  rtList : list Z;
  spCorrByPos : list Slot;
  spTotalByPos : list Slot;
  trials : list (nat * bool)
}.

(** An entry of [trialLogRef]. *)
Record TrialLog : Type := {
  ts : Z;
  l_mode : Mode;
  trial : nat;
  pos : nat;
  expected : option nat;
  clicked : nat;
  correct : bool;
  rt : Z
}.

Inductive Event : Type :=
| START (ts : Z)
| SEQ_PRESENTED (ts : Z) (m : Mode) (len trial : nat)
| RESP_OK (ts : Z) (m : Mode) (len : nat)
| RESP_ERR (ts : Z) (m : Mode) (pos : nat)
| BLOCK_END (ts : Z) (m : Mode) (ntrials : nat)
| END (ts : Z).

(** The per-modality entries of [summary.metrics]. *)
Record ModalityMetrics : Type := {
  m_spanMax : nat;
  m_accuracyPct : Z;
  m_errors : nat;
  m_reactionTimeAvgMs : Z;
  m_reactionTimeBestMs : Z
}.

Record Report : Type := {
  durationMs : Z;
  metrics : list (Mode * ModalityMetrics);
  STM_Index : Z;
  perModality : list (Mode * ModStats);
  details_trialLog : list TrialLog
}.

(** The callbacks handed to [window.setTimeout]. *)
Inductive Callback : Type :=
| SetLitIdx (cell : option nat)
| Done (len : nat)
| FirstTrial
| NextBlock (nextBlock : nat).

Definition Timer : Type := Scheduler.Timer Callback.

Record State : Type := {
  running : bool;
  blockIdx : nat;
  trialIdx : nat;
  phase : Phase;
  litIdx : option nat;
  seq : list nat;
  seqLen : Z;
  replayPos : nat;
  startTs : option Z;
  timers : list Timer;
  responseStart : option Q;
  lastClickPerf : option Q;
  (** [statsRef.current], a dictionary keyed by modality *)
  stats : list (Mode * ModStats);
  trialLog : list TrialLog;
  emitted : list Event;
  scores : list Report
}.

Definition initial : State :=
  {| running := false; blockIdx := 0%nat; trialIdx := 0%nat; phase := idle;
     litIdx := None; seq := []; seqLen := START_LEN; replayPos := 0%nat;
     startTs := None; timers := []; responseStart := None;
     lastClickPerf := None; stats := []; trialLog := []; emitted := [];
     scores := [] |}.

Definition set_phase (v : Phase) (st : State) : State :=
  {| running := running st; blockIdx := blockIdx st;
     trialIdx := trialIdx st; phase := v; litIdx := litIdx st;
     seq := seq st; seqLen := seqLen st; replayPos := replayPos st;
     startTs := startTs st; timers := timers st;
     responseStart := responseStart st; lastClickPerf := lastClickPerf st;
     stats := stats st; trialLog := trialLog st; emitted := emitted st;
     scores := scores st |}.

Definition set_running (v : bool) (st : State) : State :=
  {| running := v; blockIdx := blockIdx st;
     trialIdx := trialIdx st; phase := phase st; litIdx := litIdx st;
     seq := seq st; seqLen := seqLen st; replayPos := replayPos st;
     startTs := startTs st; timers := timers st;
     responseStart := responseStart st; lastClickPerf := lastClickPerf st;
     stats := stats st; trialLog := trialLog st; emitted := emitted st;
     scores := scores st |}.

Definition set_blockIdx (v : nat) (st : State) : State :=
  {| running := running st; blockIdx := v;
     trialIdx := trialIdx st; phase := phase st; litIdx := litIdx st;
     seq := seq st; seqLen := seqLen st; replayPos := replayPos st;
     startTs := startTs st; timers := timers st;
     responseStart := responseStart st; lastClickPerf := lastClickPerf st;
     stats := stats st; trialLog := trialLog st; emitted := emitted st;
     scores := scores st |}.

Definition set_trialIdx (v : nat) (st : State) : State :=
  {| running := running st; blockIdx := blockIdx st;
     trialIdx := v; phase := phase st; litIdx := litIdx st;
     seq := seq st; seqLen := seqLen st; replayPos := replayPos st;
     startTs := startTs st; timers := timers st;
     responseStart := responseStart st; lastClickPerf := lastClickPerf st;
     stats := stats st; trialLog := trialLog st; emitted := emitted st;
     scores := scores st |}.

Definition set_litIdx (v : option nat) (st : State) : State :=
  {| running := running st; blockIdx := blockIdx st;
     trialIdx := trialIdx st; phase := phase st; litIdx := v;
     seq := seq st; seqLen := seqLen st; replayPos := replayPos st;
     startTs := startTs st; timers := timers st;
     responseStart := responseStart st; lastClickPerf := lastClickPerf st;
     stats := stats st; trialLog := trialLog st; emitted := emitted st;
     scores := scores st |}.

Definition set_seq (v : list nat) (st : State) : State :=
  {| running := running st; blockIdx := blockIdx st;
     trialIdx := trialIdx st; phase := phase st; litIdx := litIdx st;
     seq := v; seqLen := seqLen st; replayPos := replayPos st;
     startTs := startTs st; timers := timers st;
     responseStart := responseStart st; lastClickPerf := lastClickPerf st;
     stats := stats st; trialLog := trialLog st; emitted := emitted st;
     scores := scores st |}.

Definition set_seqLen (v : Z) (st : State) : State :=
  {| running := running st; blockIdx := blockIdx st;
     trialIdx := trialIdx st; phase := phase st; litIdx := litIdx st;
     seq := seq st; seqLen := v; replayPos := replayPos st;
     startTs := startTs st; timers := timers st;
     responseStart := responseStart st; lastClickPerf := lastClickPerf st;
     stats := stats st; trialLog := trialLog st; emitted := emitted st;
     scores := scores st |}.

Definition set_replayPos (v : nat) (st : State) : State :=
  {| running := running st; blockIdx := blockIdx st;
     trialIdx := trialIdx st; phase := phase st; litIdx := litIdx st;
     seq := seq st; seqLen := seqLen st; replayPos := v;
     startTs := startTs st; timers := timers st;
     responseStart := responseStart st; lastClickPerf := lastClickPerf st;
     stats := stats st; trialLog := trialLog st; emitted := emitted st;
     scores := scores st |}.

Definition set_startTs (v : option Z) (st : State) : State :=
  {| running := running st; blockIdx := blockIdx st;
     trialIdx := trialIdx st; phase := phase st; litIdx := litIdx st;
     seq := seq st; seqLen := seqLen st; replayPos := replayPos st;
     startTs := v; timers := timers st;
     responseStart := responseStart st; lastClickPerf := lastClickPerf st;
     stats := stats st; trialLog := trialLog st; emitted := emitted st;
     scores := scores st |}.

Definition set_timers (v : list Timer) (st : State) : State :=
  {| running := running st; blockIdx := blockIdx st;
     trialIdx := trialIdx st; phase := phase st; litIdx := litIdx st;
     seq := seq st; seqLen := seqLen st; replayPos := replayPos st;
     startTs := startTs st; timers := v;
     responseStart := responseStart st; lastClickPerf := lastClickPerf st;
     stats := stats st; trialLog := trialLog st; emitted := emitted st;
     scores := scores st |}.

Definition set_responseStart (v : option Q) (st : State) : State :=
  {| running := running st; blockIdx := blockIdx st;
     trialIdx := trialIdx st; phase := phase st; litIdx := litIdx st;
     seq := seq st; seqLen := seqLen st; replayPos := replayPos st;
     startTs := startTs st; timers := timers st;
     responseStart := v; lastClickPerf := lastClickPerf st;
     stats := stats st; trialLog := trialLog st; emitted := emitted st;
     scores := scores st |}.

Definition set_lastClickPerf (v : option Q) (st : State) : State :=
  {| running := running st; blockIdx := blockIdx st;
     trialIdx := trialIdx st; phase := phase st; litIdx := litIdx st;
     seq := seq st; seqLen := seqLen st; replayPos := replayPos st;
     startTs := startTs st; timers := timers st;
     responseStart := responseStart st; lastClickPerf := v;
     stats := stats st; trialLog := trialLog st; emitted := emitted st;
     scores := scores st |}.

Definition set_stats (v : list (Mode * ModStats)) (st : State) : State :=
  {| running := running st; blockIdx := blockIdx st;
     trialIdx := trialIdx st; phase := phase st; litIdx := litIdx st;
     seq := seq st; seqLen := seqLen st; replayPos := replayPos st;
     startTs := startTs st; timers := timers st;
     responseStart := responseStart st; lastClickPerf := lastClickPerf st;
     stats := v; trialLog := trialLog st; emitted := emitted st;
     scores := scores st |}.

Definition set_trialLog (v : list TrialLog) (st : State) : State :=
  {| running := running st; blockIdx := blockIdx st;
     trialIdx := trialIdx st; phase := phase st; litIdx := litIdx st;
     seq := seq st; seqLen := seqLen st; replayPos := replayPos st;
     startTs := startTs st; timers := timers st;
     responseStart := responseStart st; lastClickPerf := lastClickPerf st;
     stats := stats st; trialLog := v; emitted := emitted st;
     scores := scores st |}.

Definition emitEvent (e : Event) (st : State) : State :=
  {| running := running st; blockIdx := blockIdx st;
     trialIdx := trialIdx st; phase := phase st; litIdx := litIdx st;
     seq := seq st; seqLen := seqLen st; replayPos := replayPos st;
     startTs := startTs st; timers := timers st;
     responseStart := responseStart st; lastClickPerf := lastClickPerf st;
     stats := stats st; trialLog := trialLog st;
     emitted := emitted st ++ [e]; scores := scores st |}.

Definition emitScore (r : Report) (st : State) : State :=
  {| running := running st; blockIdx := blockIdx st;
     trialIdx := trialIdx st; phase := phase st; litIdx := litIdx st;
     seq := seq st; seqLen := seqLen st; replayPos := replayPos st;
     startTs := startTs st; timers := timers st;
     responseStart := responseStart st; lastClickPerf := lastClickPerf st;
     stats := stats st; trialLog := trialLog st; emitted := emitted st;
     scores := scores st ++ [r] |}.

(** [MODES[blockIdx] || MODES[MODES.length - 1]] *)
Definition mode (st : State) : Mode := nth (blockIdx st) MODES shapes.

(** [statsRef.current[m]] *)
Fixpoint lookup (m : Mode) (d : list (Mode * ModStats)) : option ModStats :=
  match d with
  | [] => None
  | (k, v) :: rest => if Mode_eqb k m then Some v else lookup m rest
  end.

(** [statsRef.current[m] = v] *)
Fixpoint store (m : Mode) (v : ModStats) (d : list (Mode * ModStats))
  : list (Mode * ModStats) :=
  match d with
  | [] => [(m, v)]
  | (k, w) :: rest =>
      if Mode_eqb k m then (k, v) :: rest else (k, w) :: store m v rest
  end.

Definition freshStats : ModStats :=
  {| spanMax := 0; hits := 0; total := 0; errors := 0; rtList := [];
     spCorrByPos := repeat (Count 0) (Z.to_nat MAX_LEN);
     spTotalByPos := repeat (Count 0) (Z.to_nat MAX_LEN); trials := [] |}.

(** [resetStatsIfNeeded] *)
Definition resetStatsIfNeeded (st : State) : State :=
  set_stats
    (fold_left
       (fun d m => match lookup m d with
                   | None => store m freshStats d
                   | Some _ => d
                   end)
       MODES (stats st)) st.

(** [x + 1] for an entry [x]: [undefined + 1] and [NaN + 1] are [NaN]. *)
Definition plus_one (x : Slot) : Slot :=
  match x with
  | Count n => Count (S n)
  | NotANumber | Hole => NotANumber
  end.

(** [arr[p] += 1].  Past the end of the array [arr[p]] is [undefined]: the
    assignment stores [NaN] at [p], and the array grows to [p + 1]
    entries. *)
Fixpoint bump (p : nat) (arr : list Slot) : list Slot :=
  match arr, p with
  | [], O => [plus_one Hole]
  | [], S p' => Hole :: bump p' []
  | x :: rest, O => plus_one x :: rest
  | x :: rest, S p' => x :: bump p' rest
  end.

(** [setTimeout(cb, delay)] called at time [now]. *)
Definition setTimeout (isTracked : bool) (now : Z) (cb : Callback)
           (delay : Z) (st : State) : State :=
  set_timers
    (timers st ++ [{| Scheduler.due := now + delay;
                      Scheduler.tracked := isTracked;
                      Scheduler.callback := cb |}]) st.

(** [clearTimers] *)
Definition clearTimers (st : State) : State :=
  set_timers (filter (fun t => negb (Scheduler.tracked t)) (timers st)) st.

(** The loop of [randUniqueSeq]; a draw [r] is the entropy behind one call
    of [Math.random()], and [Math.floor(Math.random() * CELLS)] is
    [r mod CELLS]. *)
Fixpoint randUniqueSeq_loop (len : Z) (draws : list nat)
         (used arr : list nat) : Outcome (list nat) :=
  if Z.of_nat (length arr) <? len then
    match draws with
    | [] => Spinning arr
    | r :: rest =>
        let idx := (r mod CELLS)%nat in
        if negb (existsb (Nat.eqb idx) used)
        then randUniqueSeq_loop len rest (idx :: used) (arr ++ [idx])
        else randUniqueSeq_loop len rest used arr
    end
  else Returned arr.

(** [randUniqueSeq(len)] *)
Definition randUniqueSeq (len : Z) (draws : list nat)
  : Outcome (list nat) :=
  randUniqueSeq_loop len draws [] [].

(** [clamp(v, min, max)] *)
Definition clamp (v min max : Z) : Z := Z.max min (Z.min max v).

(** The [window.setTimeout] calls of [presentSequence(arr)], in program
    order, each with its delay. *)
Definition presentSequence_timeouts (arr : list nat)
  : list (Z * Callback) :=
  let '(t, calls) :=
    fold_left
      (fun '(t, calls) cell =>
         let calls := calls ++ [(t, SetLitIdx (Some cell))] in
         let t := t + ON_MS in
         let calls := calls ++ [(t, SetLitIdx None)] in
         let t := t + GAP_MS in
         (t, calls))
      arr (0, []) in
  calls ++ [(t, Done (length arr))].

(** [presentSequence(arr)] called at time [now]. *)
Definition presentSequence (arr : list nat) (now : Z) (st : State)
  : State :=
  let st := set_phase present st in
  let st := set_responseStart None st in
  let st := set_replayPos 0%nat st in
  fold_left
    (fun st '(delay, cb) => setTimeout true now cb delay st)
    (presentSequence_timeouts arr) st.

(** [startTrial(len)] called at time [now]; [None] when [randUniqueSeq]
    does not return on the supplied draws. *)
Definition startTrial (len : Z) (draws : list nat) (now : Z) (st : State)
  : option State :=
  match randUniqueSeq len draws with
  | Returned arr => Some (presentSequence arr now (set_seq arr st))
  | _ => None
  end.

(** The accuracy of one modality in [buildReport]:
    [st.total > 0 ? Math.round((st.hits / st.total) * 100) : 0]. *)
Definition acc (ms : ModStats) : Z :=
  if (0 <? total ms)%nat
  then JS.percent (B64.counter (hits ms)) (B64.counter (total ms))
  else 0.

Definition modalityMetrics (ms : ModStats) : ModalityMetrics :=
  {| m_spanMax := spanMax ms;
     m_accuracyPct := acc ms;
     m_errors := errors ms;
     m_reactionTimeAvgMs := JS.rounded_mean (rtList ms);
     m_reactionTimeBestMs := JS.best (rtList ms) |}.

(** [MODES.map(m => f(statsRef.current[m]))]; [None] when a modality has
    no entry (reading a field of [undefined] throws). *)
Fixpoint forModes {A : Type} (f : ModStats -> A) (ms : list Mode)
         (d : list (Mode * ModStats)) : option (list (Mode * A)) :=
  match ms with
  | [] => Some []
  | m :: rest =>
      match lookup m d, forModes f rest d with
      | Some v, Some tl => Some ((m, f v) :: tl)
      | _, _ => None
      end
  end.

Definition Qsum (l : list Q) : Q := fold_left Qplus l 0%Q.

(** [buildReport()] called at time [now]. *)
Definition buildReport (now : Z) (st : State) : option Report :=
  match forModes modalityMetrics MODES (stats st),
        forModes (fun ms => ms) MODES (stats st) with
  | Some perMetrics, Some perStats =>
      let spans :=
        map (fun '(_, ms) => inject_Z (Z.of_nat (spanMax ms))) perStats in
      let accs :=
        map (fun '(_, ms) =>
               if (0 <? total ms)%nat
               then (inject_Z (Z.of_nat (hits ms))
                     / inject_Z (Z.of_nat (total ms)))%Q
               else 0%Q) perStats in
      let spanScore :=
        (Qsum spans
         / (inject_Z (Z.of_nat (length MODES)) * inject_Z MAX_LEN))%Q in
      let accScore :=
        (Qsum accs / inject_Z (Z.of_nat (length MODES)))%Q in
      Some
        {| durationMs := JS.elapsed_since (startTs st) now;
           metrics := perMetrics;
           STM_Index :=
             JS.Math_round (((6 # 10) * spanScore + (4 # 10) * accScore)
                            * 100);
           perModality := perStats;
           details_trialLog := trialLog st |}
  | _, _ => None
  end.

(** [finishTrial(ok)] called at time [now]; [None] when the handler does
    not complete (a modality without statistics, or [randUniqueSeq] not
    returning on the supplied draws). *)
Definition finishTrial (ok : bool) (draws : list nat) (now : Z)
           (st : State) : option State :=
  match lookup (mode st) (stats st) with
  | None => None
  | Some ms =>
      let reached := length (seq st) in
      let ms :=
        {| spanMax := if ok then Nat.max (spanMax ms) reached
                      else spanMax ms;
           hits := hits ms; total := total ms; errors := errors ms;
           rtList := rtList ms; spCorrByPos := spCorrByPos ms;
           spTotalByPos := spTotalByPos ms;
           trials := trials ms ++ [(reached, ok)] |} in
      let m := mode st in
      let st := set_stats (store m ms (stats st)) st in
      let next := clamp (seqLen st + (if ok then 1 else -1))
                        MIN_LEN MAX_LEN in
      let st := set_seqLen next st in
      if (SEQS_PER_BLOCK <=? trialIdx st + 1)%nat then
        let st := emitEvent (BLOCK_END now m SEQS_PER_BLOCK) st in
        let st := set_phase between st in
        let nextBlock := (blockIdx st + 1)%nat in
        if (length MODES <=? nextBlock)%nat then
          let st := set_running false st in
          let st := set_blockIdx (length MODES - 1)%nat st in
          match buildReport now st with
          | Some report => Some (emitScore report st)
          | None => None
          end
        else
          Some (setTimeout false now (NextBlock nextBlock) 600 st)
      else
        let st := set_trialIdx (trialIdx st + 1)%nat st in
        let st := set_phase present st in
        startTrial next draws now st
  end.

(** [lastClickPerfRef.current ? Math.round(nowPerf - last) : 0] *)
Definition clickRt (nowPerf : Q) (st : State) : Z :=
  match lastClickPerf st with
  | Some t => if Qeq_bool t 0 then 0 else JS.Math_round (nowPerf - t)
  | None => 0
  end.

(** [onCellClick(cellIdx)] at wall-clock time [now] and high-resolution
    time [nowPerf]. *)
Definition onCellClick (cellIdx : nat) (nowPerf : Q) (now : Z)
           (draws : list nat) (st : State) : option State :=
  if negb (Phase_eqb (phase st) respond) then Some st
  else
    match lookup (mode st) (stats st) with
    | None => None
    | Some ms =>
        let m := mode st in
        let p := replayPos st in
        let want := nth_error (seq st) p in
        let ok := match want with
                  | Some e => Nat.eqb cellIdx e
                  | None => false
                  end in
        let r := clickRt nowPerf st in
        let st := set_lastClickPerf (Some nowPerf) st in
        let entry :=
          {| ts := now; l_mode := m; trial := (trialIdx st + 1)%nat;
             pos := p; expected := want; clicked := cellIdx;
             correct := ok; rt := r |} in
        if ok then
          let ms :=
            {| spanMax := spanMax ms; hits := S (hits ms);
               total := S (total ms); errors := errors ms;
               rtList := if 0 <? r then rtList ms ++ [r] else rtList ms;
               spCorrByPos := bump p (spCorrByPos ms);
               spTotalByPos := bump p (spTotalByPos ms);
               trials := trials ms |} in
          let st := set_stats (store m ms (stats st)) st in
          let st := set_trialLog (trialLog st ++ [entry]) st in
          let nextPos := (p + 1)%nat in
          let st := set_replayPos nextPos st in
          if (length (seq st) <=? nextPos)%nat then
            let st := emitEvent (RESP_OK now m (length (seq st))) st in
            finishTrial true draws now st
          else Some st
        else
          let ms :=
            {| spanMax := spanMax ms; hits := hits ms;
               total := S (total ms); errors := S (errors ms);
               rtList := rtList ms; spCorrByPos := spCorrByPos ms;
               spTotalByPos := bump p (spTotalByPos ms);
               trials := trials ms |} in
          let st := set_stats (store m ms (stats st)) st in
          let st := set_trialLog (trialLog st ++ [entry]) st in
          let st := emitEvent (RESP_ERR now m p) st in
          finishTrial false draws now st
    end.

(** [start] called at time [now]. *)
Definition start (now : Z) (st : State) : State :=
  let st := resetStatsIfNeeded st in
  let st := set_running true st in
  let st := set_blockIdx 0%nat st in
  let st := set_trialIdx 0%nat st in
  let st := set_seqLen START_LEN st in
  let st := set_phase present st in
  let st := set_seq [] st in
  let st := set_trialLog [] st in
  let st := set_startTs (Some now) st in
  let st := emitEvent (START now) st in
  setTimeout false now FirstTrial 50 st.

(** [stop] called at time [now]; [None] when [buildReport] throws. *)
Definition stop (now : Z) (st : State) : option State :=
  let st := clearTimers st in
  let st := set_running false st in
  match buildReport now st with
  | Some report => Some (emitScore report (emitEvent (END now) st))
  | None => None
  end.

(** The next pending timer fires, at its deadline; [nowPerf] is the
    high-resolution clock at that moment. *)
Definition fire (draws : list nat) (nowPerf : Q) (st : State)
  : option State :=
  match Scheduler.pop_earliest (timers st) with
  | None => None
  | Some (t, rest) =>
      let st := set_timers rest st in
      match Scheduler.callback t with
      | SetLitIdx cell => Some (set_litIdx cell st)
      | Done len =>
          let st := set_phase respond st in
          let st := set_responseStart (Some nowPerf) st in
          let st := set_lastClickPerf (Some nowPerf) st in
          Some (emitEvent (SEQ_PRESENTED (Scheduler.due t) (mode st) len
                                         (trialIdx st + 1)%nat) st)
      | FirstTrial => startTrial START_LEN draws (Scheduler.due t) st
      | NextBlock nextBlock =>
          let st := set_blockIdx nextBlock st in
          let st := set_trialIdx 0%nat st in
          let st := set_seqLen START_LEN st in
          let st := set_phase present st in
          startTrial START_LEN draws (Scheduler.due t) st
      end
  end.

(** [disabled] of a cell button in [renderCell]. *)
Definition cellDisabled (st : State) : bool :=
  negb (running st) || negb (Phase_eqb (phase st) respond).

(** What the user and the timers can do.  Start is rendered while the
    task is not running, Stop while it is; a disabled cell button
    dispatches no click. *)
Inductive Input : Type :=
| PressStart (now : Z)
| PressStop (now : Z)
| Click (cellIdx : nat) (nowPerf : Q) (now : Z) (draws : list nat)
| Fire (draws : list nat) (nowPerf : Q).

Definition step (inp : Input) (st : State) : option State :=
  match inp with
  | PressStart now => if running st then None else Some (start now st)
  | PressStop now => if running st then stop now st else None
  | Click cellIdx nowPerf now draws =>
      if cellDisabled st then Some st
      else onCellClick cellIdx nowPerf now draws st
  | Fire draws nowPerf => fire draws nowPerf st
  end.

Fixpoint run (inputs : list Input) (st : State) : option State :=
  match inputs with
  | [] => Some st
  | inp :: rest =>
      match step inp st with
      | Some st' => run rest st'
      | None => None
      end
  end.

End SpamperceptionBlocks.


(** * Properties

    ** Vocabulary of the statements *)

Module Props.

(** The cells drawn from [available] by a list of draws. *)
Definition picks (available : list nat) (draws : list nat) : list nat :=
  map (fun r => nth (r mod length available) available 0%nat) draws.

(** The generation loop keeps [sofar] duplicate-free, inside [available],
    and with the same elements as [used]. *)
Definition loop_inv (available used sofar : list nat) : Prop :=
  NoDup sofar /\ incl sofar available
  /\ (forall x, In x used <-> In x sofar).

(** The schedule the specification describes: element [k] (counted from
    0, the first one at delay [t0]) lit at [t0 + k * (ON + GAP)] and unlit
    [ON] later. *)
Fixpoint slots {C : Type} (on : nat -> C) (off : C) (ON GAP t0 : Z)
         (arr : list nat) : list (Z * C) :=
  match arr with
  | [] => []
  | cell :: rest =>
      (t0, on cell) :: (t0 + ON, off)
      :: slots on off ON GAP (t0 + ON + GAP) rest
  end.

Definition increasing (delays : list Z) : Prop := StronglySorted Z.lt delays.



(** The lengths of successive trials under an update rule, from a first
    length and the outcomes of the trials. *)
Fixpoint lengths (next : Z -> bool -> Z) (len : Z) (outcomes : list bool)
  : list Z :=
  match outcomes with
  | [] => [len]
  | ok :: rest => len :: lengths next (next len ok) rest
  end.

End Props.

Module GoNoGoProps.
Import GoNoGo.

(** The counters and the controller state of a go/no-go game. *)
Definition core (st : State)
  : nat * nat * nat * nat * list Z * list Z * Z :=
  (hits st, errors st, misses st, totalShown st, reactionList st,
   adaptHistory st, reactionWindowMs st).

(** The counters and the controller state after a click at time [now] on
    a cell where the render draws [shown]. *)
Definition scored (shown : option Stim) (now : Z) (st : State)
  : nat * nat * nat * nat * list Z * list Z * Z :=
  match shown with
  | None =>
      (hits st, S (errors st), misses st, totalShown st, reactionList st,
       adaptHistory st, reactionWindowMs st)
  | Some s =>
      if Color_eqb (color s) green
         && (now - shownAt s <=? reactionWindowMs st)
      then
        let rl := reactionList st ++ [now - shownAt s] in
        if (S (hits st + errors st + misses st) mod 10 =? 0)%nat
        then
          let w := adaptedWindow (set_reactionList rl st) in
          (S (hits st), errors st, misses st, totalShown st, rl,
           adaptHistory st ++ [w], w)
        else
          (S (hits st), errors st, misses st, totalShown st, rl,
           adaptHistory st, reactionWindowMs st)
      else
        (hits st, S (errors st), misses st, totalShown st, reactionList st,
         adaptHistory st, reactionWindowMs st)
  end.

(** A click at time [now] on a cell where the render draws [shown] took
    [st] to [st']: a hit exactly for a go stimulus inside the reaction
    window, an error otherwise. *)
Definition click_scored (shown : option Stim) (now : Z) (st st' : State)
  : Prop :=
  (hits st' = S (hits st) <->
   exists s, shown = Some s /\ color s = green
             /\ now - shownAt s <= reactionWindowMs st)
  /\ (errors st' = S (errors st) <->
      shown = None
      \/ exists s, shown = Some s
                   /\ (color s = red
                       \/ reactionWindowMs st < now - shownAt s))
  /\ (hits st' + errors st')%nat = S (hits st + errors st)
  /\ misses st' = misses st.

Definition in_range (w : Z) : Prop := 400 <= w <= 1200.

Definition window_ok (st : State) : Prop :=
  in_range (reactionWindowMs st) /\ Forall in_range (adaptHistory st).


(** One adaptation step on what [adaptDifficulty] reads: the reaction
    times, the error and miss counters, the number of stimuli shown. *)
Definition feed (st : State) (f : list Z * nat * nat * nat) : State :=
  let '(rts, e, m, shown) := f in
  adaptDifficulty 0
    (set_reactionList rts
       (set_errors e (set_misses m (set_totalShown shown st)))).

(** A go stimulus in cell 5, clicked 300 ms after its onset. *)
Definition hitRound (k : nat) : list Input :=
  [SpawnTimer green 5 (1000 * Z.of_nat k) 1000 k;
   Click 5 (1000 * Z.of_nat k + 300) 2].

Definition nineHits : list Input :=
  PressStart 0 :: flat_map hitRound (List.seq 1 9).

(** Nine hits, and a tenth go stimulus on display. *)
Definition beforeTenthHit : State :=
  ColorReactionGame.run (nineHits ++ [SpawnTimer green 5 10000 1000 10])
                        initial.


End GoNoGoProps.

Module SpanTaskProps.
Import CentralPeripheralSpanTask.

(** A pending callback that opens a trial or its respond phase. *)
Definition armed (t : Timer) : bool :=
  match Scheduler.callback t with
  | SetLit _ => false
  | SetPhaseRespond | StartTrial _ => true
  end.

Definition pendingTrials (st : State) : nat :=
  length (filter armed (timers st)).

(** At most one trial is under way; none is pending while the task waits
    for responses or is not running, and a task that is not running is
    idle. *)
Definition one_trial (st : State) : Prop :=
  (pendingTrials st <= 1)%nat
  /\ (phase st = respond -> pendingTrials st = 0%nat)
  /\ (running st = false -> pendingTrials st = 0%nat /\ phase st = idle).

(** The timers of the presentation of [n] elements firing one by one. *)
Definition presentation (n : nat) : list Input :=
  repeat (Fire []) (2 * n + 1).

(** A first trial on [33; 34; 35] answered correctly. *)
Definition firstTrialCorrect : list Input :=
  [PressStart 0; Fire [0; 1; 2]%nat] ++ presentation 3
  ++ [Click 33 5000; Click 34 5500; Click 35 6000].

(** ... then the second trial, on [33; 34; 35; 36], presented. *)
Definition secondTrialShown : list Input :=
  firstTrialCorrect ++ [Fire [0; 1; 2; 3]%nat] ++ presentation 4.

End SpanTaskProps.

Module BlocksProps.
Import SpamperceptionBlocks.



Definition presentation (n : nat) : list Input :=
  repeat (Fire [] 0%Q) (2 * n + 1).

(** The first trial of a session, on the sequence [4; 17; 82], presented. *)
Definition firstTrialShown : list Input :=
  [PressStart 0; Fire [4; 17; 82]%nat 0%Q] ++ presentation 3.



(** The outcomes recorded for a modality. *)
Definition trialsOf (m : Mode) (st : State) : list (nat * bool) :=
  match lookup m (stats st) with
  | Some ms => trials ms
  | None => []
  end.

End BlocksProps.

(** Concrete sessions on which the theorems are exercised. *)

Module Sessions.

(** Five-target game: a set on cells 1 to 5, cell 3 clicked, then an empty
    cell. *)
Definition fiveTargets : FiveTargetReactionGame.State :=
  FiveTargetReactionGame.run
    [FiveTargetReactionGame.PressStart [1; 2; 3; 4; 5]%nat 0 0;
     FiveTargetReactionGame.Click 3 100 100 1;
     FiveTargetReactionGame.Click 50 200 200 0]
    FiveTargetReactionGame.initial.

(** SpamperceptionBlocks waiting for the replay of [4; 17; 82]. *)
Definition blocksResponding : SpamperceptionBlocks.State :=
  match SpamperceptionBlocks.run BlocksProps.firstTrialShown
          SpamperceptionBlocks.initial with
  | Some st => st
  | None => SpamperceptionBlocks.initial
  end.


(** The state in which the third of these clicks calls [finishTrial]. *)
Definition blocksLastClick : SpamperceptionBlocks.State :=
  match SpamperceptionBlocks.run
          [SpamperceptionBlocks.Click 4 500 4000 [];
           SpamperceptionBlocks.Click 17 900 4400 []]
          blocksResponding with
  | Some st => st
  | None => SpamperceptionBlocks.initial
  end.

Definition blocksAfterFinish : SpamperceptionBlocks.State :=
  match SpamperceptionBlocks.finishTrial true [1; 2; 3; 4]%nat 4800
          blocksLastClick with
  | Some st => st
  | None => SpamperceptionBlocks.initial
  end.


(** Central-PeripheralSpanTask waiting for the replay of its second
    sequence. *)
Definition spanSecondTrial : CentralPeripheralSpanTask.State :=
  match CentralPeripheralSpanTask.run SpanTaskProps.secondTrialShown
          CentralPeripheralSpanTask.initial with
  | Some st => st
  | None => CentralPeripheralSpanTask.initial
  end.

End Sessions.

(** ** Where the go/no-go games place a stimulus

    [randInt], [idxToRowCol] and [rowColToIdx] are the same in both
    components.  A value [u] of [Math.random()] is a rational with
    [0 <= u < 1]. *)

Module Placement.

Definition GRID_SIZE : nat := 10.

(** [Math.floor(a + Math.random() * (b - a + 1))] *)
Definition randInt (a b : Z) (u : Q) : Z :=
  Qfloor (inject_Z a + u * inject_Z (b - a + 1)).

(** [{ row: Math.floor(idx / GRID_SIZE), col: idx % GRID_SIZE }] *)
Definition idxToRowCol (idx : nat) : nat * nat :=
  ((idx / GRID_SIZE)%nat, (idx mod GRID_SIZE)%nat).

Definition rowColToIdx (r c : nat) : nat := (r * GRID_SIZE + c)%nat.

(** [Math.max(0, Math.min(GRID_SIZE - 1, v))], a row or column of the
    grid. *)
Definition onGrid (v : Z) : nat :=
  Z.to_nat (Z.max 0 (Z.min (Z.of_nat GRID_SIZE - 1) v)).

(** [pickIndex] of ColorReactionGame; [uNear] is the draw compared with
    0.5, [u1] and [u2] the draws of the calls of [randInt] that follow. *)
Definition pickIndex (lastPlacedIdx : option nat) (uNear u1 u2 : Q) : nat :=
  match lastPlacedIdx with
  | Some lastIdx =>
      if JS.Qltb uNear (1 # 2) then
        let '(row, col) := idxToRowCol lastIdx in
        let nr := onGrid (Z.of_nat row + randInt (-2) 2 u1) in
        let nc := onGrid (Z.of_nat col + randInt (-2) 2 u2) in
        rowColToIdx nr nc
      else Z.to_nat (randInt 0 (Z.of_nat (GRID_SIZE * GRID_SIZE) - 1) u1)
  | None => Z.to_nat (randInt 0 (Z.of_nat (GRID_SIZE * GRID_SIZE) - 1) u1)
  end.

(** [pickEdgeIndex] of ColorReactionGameEdges; [uSide] is the draw
    compared with 0.5, [uRow] the draw of [randInt]. *)
Definition pickEdgeIndex (uSide uRow : Q) : nat :=
  let edgeCol := if JS.Qltb uSide (1 # 2) then 0%nat
                 else (GRID_SIZE - 1)%nat in
  let row := Z.to_nat (randInt 0 (Z.of_nat GRID_SIZE - 1) uRow) in
  rowColToIdx row edgeCol.

End Placement.

Module GoNoGoSession.
Import GoNoGo.

(** What the two click handlers have in common, on the stimulus [target]
    they pick in the clicked cell and the distance they record. *)
Definition click (cellIdx : nat) (target : option Stim) (dist : option Z)
           (now : Z) (st : State) : State :=
  if negb (running st) then st
  else
    match target with
    | None => emitEvent (ERROR_EMPTY now cellIdx)
                        (set_errors (S (errors st)) st)
    | Some stim =>
        let rt := now - shownAt stim in
        let st :=
          if Color_eqb (color stim) green && (rt <=? reactionWindowMs st)
          then
            let st := set_hits (S (hits st)) st in
            let st := set_reactionList (reactionList st ++ [rt]) st in
            let st := match dist with
                      | Some d => set_distanceList (distanceList st ++ [d]) st
                      | None => st
                      end in
            let st := emitEvent (HIT now (idx stim) rt dist) st in
            if ((hits st + errors st + misses st) mod 10 =? 0)%nat
            then adaptDifficulty now st else st
          else
            let st := set_errors (S (errors st)) st in
            emitEvent (ERROR now (idx stim) (color stim)
                             (match color stim with
                              | red => no_go
                              | green => late
                              end) rt dist) st in
        let st := set_timeouts (remove_id (id stim) (timeouts st)) st in
        retire (id stim) now st
    end.

(** What a report says about the counters it was built from; [measured]
    tells whether the game records the distance of a hit
    (ColorReactionGame does, ColorReactionGameEdges does not). *)
Definition report_ok (measured : bool) (r : Report) : Prop :=
  reactionsCount r = r_hits r
  /\ length (reactionTimeListMs r) = r_hits r
  /\ (r_hits r + r_misses r <= totalStimuli r)%nat
  /\ (totalStimuli r <= TOTAL_STIMULI)%nat
  /\ (if measured then length (distanceErrorPxList r) = r_hits r
      else distanceErrorPxList r = [])
  /\ (exists rest, reactionWindowHistoryMs r = 800 :: rest).

(** What holds in every state a session can reach. *)
Record session_ok (measured : bool) (st : State) : Prop := {
  one_displayed : (length (stimuli st) <= MAX_ACTIVE)%nat;
  expiry_tracked :
    forall i, In i (timeouts st) -> exists s, In s (stimuli st) /\ id s = i;
  stopped_empty : running st = false -> stimuli st = [];
  more_to_come :
    running st = true ->
    (totalShown st < TOTAL_STIMULI)%nat \/ stimuli st <> [];
  reactions_are_hits : length (reactionList st) = hits st;
  shown_bounded : (totalShown st <= TOTAL_STIMULI)%nat;
  responses_bounded :
    (hits st + misses st + length (stimuli st) <= totalShown st)%nat;
  history_starts : exists rest, adaptHistory st = 800 :: rest;
  history_ends : last (adaptHistory st) 800 = reactionWindowMs st;
  distances_recorded :
    if measured then length (distanceList st) = hits st
    else distanceList st = [];
  reports_agree : Forall (report_ok measured) (scores st)
}.

(** An input other than a press on Start. *)
Definition notStart (i : Input) : bool :=
  match i with
  | PressStart _ => false
  | _ => true
  end.

(** What a session has produced: the events, the reports, the counters. *)
Definition produced (st : State)
  : list Event * list Report * (nat * nat * nat * nat) :=
  (emitted st, scores st, (hits st, errors st, misses st, totalShown st)).

End GoNoGoSession.

(** ** The sets of the five-target game *)

Module FiveTargetSets.
Import Call FiveTargetReactionGame.

(** [randInt(0, GRID_SIZE * GRID_SIZE - 1)] on the draw [u]. *)
Definition drawCell (u : Q) : nat :=
  Z.to_nat (Placement.randInt 0 (Z.of_nat (GRID_SIZE * GRID_SIZE) - 1) u).

(** The loop of [pickUniqueIndices]; [indices] is the [Set] in insertion
    order, which is the order of [Array.from(indices)]. *)
Fixpoint pickUniqueIndices_loop (draws : list Q) (indices : list nat)
  : Outcome (list nat) :=
  if (length indices <? TARGETS_PER_SET)%nat then
    match draws with
    | [] => Spinning indices
    | u :: rest =>
        let cell := drawCell u in
        if existsb (Nat.eqb cell) indices
        then pickUniqueIndices_loop rest indices
        else pickUniqueIndices_loop rest (indices ++ [cell])
    end
  else Returned indices.

Definition pickUniqueIndices (draws : list Q) : Outcome (list nat) :=
  pickUniqueIndices_loop draws [].

(** What a report says about the hits it was built from. *)
Definition report_ok (r : Report) : Prop :=
  totalSets r = (r_hits r / TARGETS_PER_SET)%nat
  /\ length (reactionTimeListMs r) = r_hits r
  /\ length (distanceErrorPxList r) = r_hits r.

(** What holds in every state a session can reach. *)
Record tally_ok (st : State) : Prop := {
  hits_are_clicks : hits st = clickedCount st;
  reactions_are_hits : length (reactionList st) = hits st;
  distances_are_hits : length (distanceList st) = hits st;
  sets_of_five : currentSet st = (clickedCount st / TARGETS_PER_SET)%nat;
  colour_follows_set : currentColorIdx st = currentSet st;
  shown_by_fives : (totalShown st mod TARGETS_PER_SET = 0)%nat;
  reports_agree : Forall report_ok (scores st)
}.

(** The targets of the display not clicked yet. *)
Definition unclicked (st : State) : list Stim :=
  filter (fun s => negb (clicked s)) (stimuli st).

End FiveTargetSets.

Module SpanSessionProps.
Import CentralPeripheralSpanTask.

(** [inCenter] of [regionFilter] for the cell [idx = r * GRID + c]. *)
Definition inCenter (idx : nat) : bool :=
  let r := (idx / GRID)%nat in
  let c := (idx mod GRID)%nat in
  (3 <=? r)%nat && (r <=? 6)%nat && (3 <=? c)%nat && (c <=? 6)%nat.

(** [BLOCKS[blockIdx]], the region of the block under way. *)
Definition region (st : State) : option Region :=
  nth_error BLOCKS (blockIdx st).

Definition spans_bounded (central peripheral : nat) : Prop :=
  (Z.of_nat central <= MAX_LEN) /\ (Z.of_nat peripheral <= MAX_LEN).

(** What holds in every state the task can reach. *)
Record trial_ok (st : State) : Prop := {
  block_in_range : (blockIdx st < length BLOCKS)%nat;
  trial_in_range : (trialIdx st < SEQS_PER_BLOCK)%nat;
  length_in_range : MIN_LEN <= seqLen st <= MAX_LEN;
  next_trial_pending :
    forall t len,
      In t (timers st) -> Scheduler.callback t = StartTrial len ->
      len = seqLen st /\ phase st = between /\ running st = true;
  respond_pending :
    forall t,
      In t (timers st) -> Scheduler.callback t = SetPhaseRespond ->
      phase st = present;
  sequence_fits :
    phase st = present \/ phase st = respond ->
    Z.of_nat (length (seq st)) = seqLen st
    /\ NoDup (seq st)
    /\ incl (seq st) (regionFilter (region st));
  spans_in_range :
    spans_bounded (spanMax_central st) (spanMax_peripheral st);
  reports_in_range :
    Forall (fun r => spans_bounded (span_central r) (span_peripheral r))
           (scores st)
}.

(** [l] begins with [p]. *)
Definition extends {A : Type} (p l : list A) : Prop :=
  exists more, l = p ++ more.

(** What a step never undoes: log entries, span maxima, reports. *)
Definition keeps (st st' : State) : Prop :=
  extends (logs st) (logs st')
  /\ (spanMax_central st <= spanMax_central st')%nat
  /\ (spanMax_peripheral st <= spanMax_peripheral st')%nat
  /\ extends (scores st) (scores st').

(** The effect of the callbacks of a list of timers that light cells or
    open the respond phase, fired in the order of the list. *)
Definition played (l : list Timer) (st : State) : State :=
  fold_left
    (fun s t =>
       match Scheduler.callback t with
       | SetLit cell => set_lit cell s
       | SetPhaseRespond => set_phase respond s
       | StartTrial _ => s
       end) l st.

(** The next [k] pending timers fire, one by one. *)
Definition fires (k : nat) (st : State) : option State :=
  run (repeat (Fire []) k) st.

End SpanSessionProps.

Module BlocksSessionProps.
Import SpamperceptionBlocks.

(** The trials of a modality that ended on a wrong click, and the length
    of the longest sequence it has seen reproduced. *)
Definition failures (ms : ModStats) : nat :=
  length (filter (fun t => negb (snd t)) (trials ms)).

Definition longest (ms : ModStats) : nat :=
  list_max (map fst (filter snd (trials ms))).

(** A serial-position array of [MAX_LEN] counts, and one with [NaN] in
    an eighth entry. *)
Definition seven_counts (arr : list Slot) : Prop :=
  exists cs, length cs = Z.to_nat MAX_LEN /\ arr = map Count cs.

Definition seven_counts_and_NaN (arr : list Slot) : Prop :=
  exists cs,
    length cs = Z.to_nat MAX_LEN /\ arr = map Count cs ++ [NotANumber].

(** What holds of the statistics of every modality. *)
Record stats_ok (ms : ModStats) : Prop := {
  every_click_counted : total ms = (hits ms + errors ms)%nat;
  errors_are_failures : errors ms = failures ms;
  span_is_longest : spanMax ms = longest ms;
  trials_bounded :
    Forall (fun t => Z.of_nat (fst t) <= MAX_LEN) (trials ms);
  times_positive : Forall (fun r => 0 < r) (rtList ms);
  times_are_hits : (length (rtList ms) <= hits ms)%nat;
  positions_counted :
    seven_counts (spCorrByPos ms)
    /\ (seven_counts (spTotalByPos ms)
        \/ seven_counts_and_NaN (spTotalByPos ms))
}.

(** What holds of every report. *)
Definition report_ok (r : Report) : Prop :=
  0 <= STM_Index r <= 100
  /\ map fst (metrics r) = MODES
  /\ map fst (perModality r) = MODES
  /\ Forall (fun '(_, mm) =>
               0 <= m_accuracyPct mm <= 100
               /\ Z.of_nat (m_spanMax mm) <= MAX_LEN
               /\ 0 <= m_reactionTimeBestMs mm <= m_reactionTimeAvgMs mm)
            (metrics r).

(** What holds in every state the task can reach once it has been
    started. *)
Record blocks_ok (st : State) : Prop := {
  stats_present : forall m, lookup m (stats st) <> None;
  stats_consistent :
    forall m ms, lookup m (stats st) = Some ms -> stats_ok ms;
  sequence_bounded : Z.of_nat (length (seq st)) <= MAX_LEN;
  block_in_range : (blockIdx st < length MODES)%nat;
  trial_in_range : (trialIdx st < SEQS_PER_BLOCK)%nat;
  length_in_range : MIN_LEN <= seqLen st <= MAX_LEN;
  next_block_in_range :
    forall t nb,
      In t (timers st) -> Scheduler.callback t = NextBlock nb ->
      (nb < length MODES)%nat;
  reports_in_range : Forall report_ok (scores st);
  replay_in_range : (replayPos st <= Z.to_nat MAX_LEN)%nat
}.

(** The statistics after a click at position [p] that took [r] ms. *)
Definition clicked_right (p : nat) (r : Z) (ms : ModStats) : ModStats :=
  {| spanMax := spanMax ms; hits := S (hits ms); total := S (total ms);
     errors := errors ms;
     rtList := if 0 <? r then rtList ms ++ [r] else rtList ms;
     spCorrByPos := bump p (spCorrByPos ms);
     spTotalByPos := bump p (spTotalByPos ms);
     trials := trials ms |}.

Definition clicked_wrong (p : nat) (ms : ModStats) : ModStats :=
  {| spanMax := spanMax ms; hits := hits ms; total := S (total ms);
     errors := S (errors ms); rtList := rtList ms;
     spCorrByPos := spCorrByPos ms;
     spTotalByPos := bump p (spTotalByPos ms);
     trials := trials ms |}.

(** The statistics after [finishTrial(ok)] on a sequence of [reached]
    cells. *)
Definition trial_closed (ok : bool) (reached : nat) (ms : ModStats)
  : ModStats :=
  {| spanMax := if ok then Nat.max (spanMax ms) reached else spanMax ms;
     hits := hits ms; total := total ms; errors := errors ms;
     rtList := rtList ms; spCorrByPos := spCorrByPos ms;
     spTotalByPos := spTotalByPos ms;
     trials := trials ms ++ [(reached, ok)] |}.

(** Seven distinct draws, enough for any sequence the task asks for. *)
Definition ampleDraws : list nat := List.seq 0 7.

End BlocksSessionProps.

(** ** More sessions *)

Module Examples.

(** A go/no-go session stopped while its first stimulus is displayed,
    and what may still arrive afterwards. *)
Definition stoppedEarly : list GoNoGo.Input :=
  [GoNoGo.PressStart 0; GoNoGo.SpawnTimer GoNoGo.green 5 50 1000 1;
   GoNoGo.PressStop 500].

Definition lateArrivals : list GoNoGo.Input :=
  [GoNoGo.Click 5 600 0; GoNoGo.ExpiryTimer 1 1050;
   GoNoGo.SpawnTimer GoNoGo.red 7 1100 800 2; GoNoGo.PressStop 1200].

(** Six values of [Math.random()], the third repeating the cell of the
    first. *)
Definition sixDraws : list Q :=
  [3 # 100; 17 # 100; 3 # 100; 42 # 100; 58 # 100; 99 # 100]%Q.

(** The five-target game showing its first set on cells 1 to 5, and the
    same with cells 1 to 4 clicked. *)
Definition fiveShown : FiveTargetReactionGame.State :=
  FiveTargetReactionGame.run
    [FiveTargetReactionGame.PressStart [1; 2; 3; 4; 5]%nat 0 0]
    FiveTargetReactionGame.initial.

Definition fourClicked : FiveTargetReactionGame.State :=
  FiveTargetReactionGame.run
    [FiveTargetReactionGame.Click 1 100 100 1;
     FiveTargetReactionGame.Click 2 200 200 1;
     FiveTargetReactionGame.Click 3 300 300 1;
     FiveTargetReactionGame.Click 4 400 400 1]
    fiveShown.

(** SpamperceptionBlocks: the first trial on [4; 17; 82] answered with a
    wrong second click, the next sequence drawn from [1; 2], and Stop
    pressed during its presentation. *)
Definition blocksWrongClick : list SpamperceptionBlocks.Input :=
  BlocksProps.firstTrialShown
  ++ [SpamperceptionBlocks.Click 4 500 4000 [];
      SpamperceptionBlocks.Click 9 900 4400 [1; 2]%nat].

Definition blocksAnswered : SpamperceptionBlocks.State :=
  match SpamperceptionBlocks.run blocksWrongClick
          SpamperceptionBlocks.initial with
  | Some st => st
  | None => SpamperceptionBlocks.initial
  end.

Definition blocksStopped : SpamperceptionBlocks.State :=
  match SpamperceptionBlocks.stop 5000 blocksAnswered with
  | Some st => st
  | None => SpamperceptionBlocks.initial
  end.

Definition digitsAnswered : SpamperceptionBlocks.ModStats :=
  match SpamperceptionBlocks.lookup SpamperceptionBlocks.digits
          (SpamperceptionBlocks.stats blocksAnswered) with
  | Some ms => ms
  | None => SpamperceptionBlocks.freshStats
  end.

(** [fires] timers fire, then the cells 0, 1, ... of a sequence of [len]
    cells are clicked at time [now]. *)
Definition answered (fires len : nat) (now : Z)
  : list SpamperceptionBlocks.Input :=
  repeat (SpamperceptionBlocks.Fire (List.seq 0 7) 0%Q) fires
  ++ map (fun c => SpamperceptionBlocks.Click c 0%Q now (List.seq 0 7))
         (List.seq 0 len).

(** Start, Stop and Start within 50 ms leave two first-trial timers
    pending, hence two presentations of the first trial and two timers
    that open the replay.  Every sequence is replayed before the second
    of them has fired, so that one such timer is still pending at the
    end of each trial.  The tenth trial, on 7 cells, is answered last,
    600 ms or less before that timer: it fires before the block changes
    and opens a replay at position 7, where a click is taken. *)
Definition pastTheEnd : list SpamperceptionBlocks.Input :=
  [SpamperceptionBlocks.PressStart 0; SpamperceptionBlocks.PressStop 10;
   SpamperceptionBlocks.PressStart 20]
  ++ answered 15 3 3060 ++ answered 2 4 3080 ++ answered 16 5 7070
  ++ answered 6 6 8090 ++ answered 20 7 13080 ++ answered 10 7 15100
  ++ answered 20 7 20090 ++ answered 10 7 22110 ++ answered 20 7 27100
  ++ answered 18 7 33600
  ++ [SpamperceptionBlocks.Fire [] 0%Q; SpamperceptionBlocks.Fire [] 0%Q;
      SpamperceptionBlocks.Click 0 0%Q 34150 (List.seq 0 7)].

Definition blocksPastTheEnd : SpamperceptionBlocks.State :=
  match SpamperceptionBlocks.run pastTheEnd SpamperceptionBlocks.initial with
  | Some st => st
  | None => SpamperceptionBlocks.initial
  end.

Definition digitsPastTheEnd : SpamperceptionBlocks.ModStats :=
  match SpamperceptionBlocks.lookup SpamperceptionBlocks.digits
          (SpamperceptionBlocks.stats blocksPastTheEnd) with
  | Some ms => ms
  | None => SpamperceptionBlocks.freshStats
  end.

Definition blocksReport : option SpamperceptionBlocks.Report :=
  SpamperceptionBlocks.buildReport 5000
    (SpamperceptionBlocks.set_running false
       (SpamperceptionBlocks.clearTimers blocksAnswered)).

End Examples.

(** ** Proof steps that recur *)

(** Case analysis on the condition of the first conditional of the goal. *)
Ltac case_if :=
  match goal with
  | |- context [if ?b then _ else _] => destruct b
  end.

(** ... and on the first comparison of two integers. *)
Ltac case_ltb :=
  match goal with
  | |- context [Z.ltb ?a ?b] => destruct (Z.ltb_spec a b)
  end.

(** ** The go/no-go games *)

Section GoNoGoFacts.
Import GoNoGo GoNoGoProps.
Local Arguments Nat.modulo : simpl never.
Local Arguments adaptedWindow : simpl never.
Local Arguments retire : simpl never.

Lemma core_retire sid now st : core (retire sid now st) = core st.
Proof.
  unfold retire.
  destruct (running st && (totalShown st <? TOTAL_STIMULI)%nat); simpl;
    case_if;
    reflexivity.
Qed.

Lemma CRG_onCellClick_core cell now dist st :
  running st = true ->
  core (ColorReactionGame.onCellClick cell now dist st)
  = scored (ColorReactionGame.shown cell st) now st.
Proof.
  intros Hrun.
  unfold ColorReactionGame.onCellClick, ColorReactionGame.shown, scored.
  rewrite Hrun. simpl negb. cbv iota.
  destruct (filter (fun s => Nat.eqb (idx s) cell) (stimuli st))
    as [|first rest] eqn:Hf.
  - reflexivity.
  - cbv zeta.
    set (stim := match find (fun s => Color_eqb (color s) green)
                            (first :: rest) with
                 | Some g => g
                 | None => first
                 end).
    assert (Hs : match find (fun s => Color_eqb (color s) green)
                            (first :: rest) with
                 | Some g => Some g
                 | None => nth_error (first :: rest) 0
                 end = Some stim).
    { unfold stim. destruct (find _ (first :: rest)); reflexivity. }
    rewrite Hs.
    destruct (Color_eqb (color stim) green
              && (now - shownAt stim <=? reactionWindowMs st)) eqn:Hhit.
    + simpl.
      destruct (S (hits st + errors st + misses st) mod 10 =? 0)%nat;
        rewrite core_retire; reflexivity.
    + rewrite core_retire. reflexivity.
Qed.

Lemma Edges_onCellClick_core cell now st :
  running st = true ->
  core (ColorReactionGameEdges.onCellClick cell now st)
  = scored (ColorReactionGameEdges.shown cell st) now st.
Proof.
  intros Hrun.
  unfold ColorReactionGameEdges.onCellClick, ColorReactionGameEdges.shown,
    scored.
  rewrite Hrun. simpl negb. cbv iota.
  destruct (find (fun s => Nat.eqb (idx s) cell) (stimuli st)) as [stim|].
  - cbv zeta.
    destruct (Color_eqb (color stim) green
              && (now - shownAt stim <=? reactionWindowMs st)) eqn:Hhit.
    + simpl.
      destruct (S (hits st + errors st + misses st) mod 10 =? 0)%nat;
        rewrite core_retire; reflexivity.
    + rewrite core_retire. reflexivity.
  - reflexivity.
Qed.

Lemma onExpire_core sid now st :
  core (onExpire sid now st)
  = if existsb (Nat.eqb sid) (timeouts st) then
      match find (fun s => Nat.eqb (id s) sid) (stimuli st) with
      | Some {| color := green |} =>
          (hits st, errors st, S (misses st), totalShown st,
           reactionList st, adaptHistory st, reactionWindowMs st)
      | _ => core st
      end
    else core st.
Proof.
  unfold onExpire.
  destruct (existsb (Nat.eqb sid) (timeouts st)); [|reflexivity].
  simpl.
  destruct (find (fun s => Nat.eqb (id s) sid) (stimuli st)) as [s|];
    [|reflexivity].
  rewrite core_retire. destruct s as [? ? [] ? ?]; reflexivity.
Qed.

Lemma onSpawnTimer_window placed c cell now dur sid st :
  reactionWindowMs (onSpawnTimer placed c cell now dur sid st)
  = reactionWindowMs st
  /\ adaptHistory (onSpawnTimer placed c cell now dur sid st)
     = adaptHistory st.
Proof.
  unfold onSpawnTimer, spawnStimulus.
  destruct (spawnTimers st); [split; reflexivity|].
  simpl.
  repeat case_if; split; reflexivity.
Qed.


Lemma scored_click_scored shown now st st' :
  core st' = scored shown now st -> click_scored shown now st st'.
Proof.
  unfold core, scored, click_scored. intros H.
  destruct shown as [s|].
  - destruct s as [sid cell c t0 t1]. simpl in *.
    destruct c; simpl in H.
    + destruct (now - t0 <=? reactionWindowMs st) eqn:Hw.
      * apply Z.leb_le in Hw.
        assert (Hh : hits st' = S (hits st) /\ errors st' = errors st
                     /\ misses st' = misses st).
        { destruct (S (hits st + errors st + misses st) mod 10 =? 0)%nat;
            injection H; intros; subst; auto. }
        destruct Hh as (Hh & He & Hm). rewrite Hh, He, Hm.
        split; [|split; [|split]]; try lia; split.
        -- intros _. eexists. repeat split; simpl; auto.
        -- reflexivity.
        -- lia.
        -- intros [Hn | (s & Hs & [Hc | Hl])]; try discriminate;
             injection Hs as <-; simpl in *; [discriminate | lia].
      * apply Z.leb_gt in Hw.
        injection H; intros _ _ _ _ Hm He Hh. rewrite Hh, He, Hm.
        split; [|split; [|split]]; try lia; split.
        -- lia.
        -- intros (s & Hs & _ & Hl). injection Hs as <-. simpl in *. lia.
        -- intros _. right. eexists. split; [reflexivity|]. simpl. auto.
        -- reflexivity.
    + injection H; intros _ _ _ _ Hm He Hh. rewrite Hh, He, Hm.
      split; [|split; [|split]]; try lia; split.
      * lia.
      * intros (s & Hs & Hc & _). injection Hs as <-. discriminate.
      * intros _. right. eexists. split; [reflexivity|]. simpl. auto.
      * reflexivity.
  - injection H; intros _ _ _ _ Hm He Hh. rewrite Hh, He, Hm.
    split; [|split; [|split]]; try lia; split.
    + lia.
    + intros (s & Hs & _). discriminate.
    + intros _. left. reflexivity.
    + reflexivity.
Qed.

(** C3.  In both go/no-go games a click delivered while the game is running
    is a hit exactly when the clicked cell shows a stimulus, that stimulus
    is green and the time since its onset is within the reaction window; a
    click on a red stimulus, on an empty cell or after the window is an
    error; every such click is one or the other.  A green stimulus whose
    display timer fires while it is still displayed increments the miss
    counter, and only that counter. *)
Theorem C3_go_nogo_matching :
  (forall cell now dist st,
      running st = true ->
      click_scored (ColorReactionGame.shown cell st) now st
                   (ColorReactionGame.onCellClick cell now dist st))
  /\ (forall cell now st,
         running st = true ->
         click_scored (ColorReactionGameEdges.shown cell st) now st
                      (ColorReactionGameEdges.onCellClick cell now st))
  /\ (forall sid now st s,
         In sid (timeouts st) ->
         find (fun x => Nat.eqb (id x) sid) (stimuli st) = Some s ->
         color s = green ->
         let st' := onExpire sid now st in
         misses st' = S (misses st) /\ hits st' = hits st
         /\ errors st' = errors st).
Proof.
  split; [|split].
  - intros. apply scored_click_scored. now apply CRG_onCellClick_core.
  - intros. apply scored_click_scored. now apply Edges_onCellClick_core.
  - intros sid now st s Hin Hf Hc st'.
    pose proof (onExpire_core sid now st) as H. fold st' in H.
    assert (He : existsb (Nat.eqb sid) (timeouts st) = true).
    { apply existsb_exists. exists sid. split; [assumption|].
      apply Nat.eqb_refl. }
    rewrite He, Hf in H. destruct s as [? ? c ? ?]. simpl in Hc. subst c.
    unfold core in H. injection H; intros; subst. auto.
Qed.


Lemma Qltb_lt (a b : Q) : JS.Qltb a b = true -> (a < b)%Q.
Proof.
  unfold JS.Qltb. intros H. apply negb_true_iff in H.
  apply Qnot_le_lt. intros Hle. apply Qle_bool_iff in Hle. congruence.
Qed.

Lemma Math_round_le (q : Q) (z : Z) :
  (q + (1 # 2) <= inject_Z z)%Q -> JS.Math_round q <= z.
Proof.
  intros H. unfold JS.Math_round.
  rewrite <- (Qfloor_Z z). now apply Qfloor_resp_le.
Qed.

Lemma Math_round_ge (q : Q) (z : Z) :
  (inject_Z z <= q + (1 # 2))%Q -> z <= JS.Math_round q.
Proof.
  intros H. unfold JS.Math_round.
  rewrite <- (Qfloor_Z z). now apply Qfloor_resp_le.
Qed.

Lemma adaptedWindow_in_range (st : State) :
  in_range (reactionWindowMs st) -> in_range (adaptedWindow st).
Proof.
  unfold in_range, adaptedWindow. intros [Hlo Hhi].
  assert (Hlo' : (inject_Z 400 <= inject_Z (reactionWindowMs st))%Q)
    by (rewrite <- Zle_Qle; exact Hlo).
  assert (Hhi' : (inject_Z (reactionWindowMs st) <= inject_Z 1200)%Q)
    by (rewrite <- Zle_Qle; exact Hhi).
  destruct (JS.Qltb (missRate st) (5 # 100)
            && JS.Qltb (errorRate st) (5 # 100)
            && JS.Qltb (avgRecent st) (inject_Z (reactionWindowMs st)))
    eqn:Ht.
  - apply andb_true_iff in Ht as [_ Hav]. apply Qltb_lt in Hav.
    assert (JS.Math_round (avgRecent st * (9 # 10)) <= 1200).
    { apply Math_round_le. generalize dependent (avgRecent st).
      generalize dependent (inject_Z (reactionWindowMs st)).
      intros. unfold inject_Z in *. lra. }
    lia.
  - destruct (JS.Qltb (15 # 100) (missRate st)
              || JS.Qltb (15 # 100) (errorRate st)).
    + assert (400 <= JS.Math_round (inject_Z (reactionWindowMs st)
                                    * (11 # 10))).
      { apply Math_round_ge.
        generalize dependent (inject_Z (reactionWindowMs st)).
        intros. unfold inject_Z in *. lra. }
      lia.
    + lia.
Qed.

Lemma window_ok_initial : window_ok initial.
Proof.
  unfold window_ok, in_range. simpl. split; [lia|].
  constructor; [lia|constructor].
Qed.

Lemma window_ok_same st st' :
  reactionWindowMs st' = reactionWindowMs st ->
  adaptHistory st' = adaptHistory st ->
  window_ok st -> window_ok st'.
Proof. unfold window_ok. intros -> ->. auto. Qed.

Lemma window_ok_adaptDifficulty now st :
  window_ok st -> window_ok (adaptDifficulty now st).
Proof.
  unfold window_ok. intros [Hw Hh]. simpl.
  pose proof (adaptedWindow_in_range st Hw) as Ha.
  split; [exact Ha|].
  apply Forall_app. split; [exact Hh|]. constructor; [exact Ha|constructor].
Qed.

Lemma window_ok_scored shown now st st' :
  core st' = scored shown now st -> window_ok st -> window_ok st'.
Proof.
  unfold core, scored. intros H Hok.
  assert (Hcase :
            (reactionWindowMs st' = reactionWindowMs st
             /\ adaptHistory st' = adaptHistory st)
            \/ exists rl,
                reactionWindowMs st'
                = adaptedWindow (set_reactionList rl st)
                /\ adaptHistory st'
                   = adaptHistory st
                     ++ [adaptedWindow (set_reactionList rl st)]).
  { destruct shown as [s|].
    - destruct (Color_eqb (color s) green
                && (now - shownAt s <=? reactionWindowMs st)).
      + destruct (S (hits st + errors st + misses st) mod 10 =? 0)%nat.
        * right. eexists. injection H; intros; split; eassumption.
        * left. injection H; intros; split; assumption.
      + left. injection H; intros; split; assumption.
    - left. injection H; intros; split; assumption. }
  destruct Hcase as [[Hw Hh] | (rl & Hw & Hh)].
  - eapply window_ok_same; eassumption.
  - destruct Hok as [Hr Hf].
    pose proof (adaptedWindow_in_range (set_reactionList rl st) Hr) as Ha.
    unfold window_ok. rewrite Hw, Hh. split; [exact Ha|].
    apply Forall_app. split; [exact Hf|]. constructor; [exact Ha|constructor].
Qed.

Lemma window_ok_onExpire sid now st :
  window_ok st -> window_ok (onExpire sid now st).
Proof.
  pose proof (onExpire_core sid now st) as H.
  apply window_ok_same.
  - destruct (existsb _ _); [|now injection H].
    destruct (find _ _) as [[? ? [] ? ?]|]; now injection H.
  - destruct (existsb _ _); [|now injection H].
    destruct (find _ _) as [[? ? [] ? ?]|]; now injection H.
Qed.

Lemma window_ok_start now st : window_ok (start now st).
Proof.
  unfold window_ok, in_range. simpl. split; [lia|].
  constructor; [lia|constructor].
Qed.

Lemma window_ok_CRG_step i st :
  window_ok st -> window_ok (ColorReactionGame.step i st).
Proof.
  intros Hok. destruct i as [now|now|cell now dist|c cell now dur sid|sid now];
    simpl.
  - destruct (running st); [assumption|apply window_ok_start].
  - destruct (running st); [|assumption].
    eapply window_ok_same; [| |eassumption]; reflexivity.
  - destruct (running st) eqn:Hrun.
    + eapply window_ok_scored; [|eassumption].
      now apply CRG_onCellClick_core.
    + unfold ColorReactionGame.onCellClick. rewrite Hrun. assumption.
  - eapply window_ok_same; [| |eassumption]; apply onSpawnTimer_window.
  - now apply window_ok_onExpire.
Qed.

Lemma window_ok_Edges_step i st :
  window_ok st -> window_ok (ColorReactionGameEdges.step i st).
Proof.
  intros Hok. destruct i as [now|now|cell now dist|c cell now dur sid|sid now];
    simpl.
  - destruct (running st); [assumption|apply window_ok_start].
  - destruct (running st); [|assumption].
    eapply window_ok_same; [| |eassumption]; reflexivity.
  - destruct (running st) eqn:Hrun.
    + eapply window_ok_scored; [|eassumption].
      now apply Edges_onCellClick_core.
    + unfold ColorReactionGameEdges.onCellClick. rewrite Hrun. assumption.
  - eapply window_ok_same; [| |eassumption]; apply onSpawnTimer_window.
  - now apply window_ok_onExpire.
Qed.

Lemma window_ok_feed st f : window_ok st -> window_ok (feed st f).
Proof.
  destruct f as [[[rts e] m] shown]. intros Hok. unfold feed.
  apply window_ok_adaptDifficulty.
  eapply window_ok_same; [| |eassumption]; reflexivity.
Qed.

Lemma fold_left_invariant {A B : Type} (P : A -> Prop) (f : A -> B -> A) :
  (forall a b, P a -> P (f a b)) ->
  forall l a, P a -> P (fold_left f l a).
Proof.
  intros Hstep l. induction l as [|b l IH]; simpl; intros a Ha.
  - exact Ha.
  - apply IH, Hstep, Ha.
Qed.

(** C5.  Starting from the initial window of 800 ms, whatever reaction
    times and counters the difficulty controller is fed, and whatever the
    players and the timers of the two games do, the reaction window stays
    within 400 ms and 1200 ms, and so does every value of the adaptation
    history. *)
Theorem C5_reaction_window_bounded :
  (forall feeds, window_ok (fold_left feed feeds initial))
  /\ (forall inputs, window_ok (ColorReactionGame.run inputs initial))
  /\ (forall inputs, window_ok (ColorReactionGameEdges.run inputs initial)).
Proof.
  split; [|split]; intros l.
  - apply fold_left_invariant; [|exact window_ok_initial].
    intros a b. apply window_ok_feed.
  - apply (fold_left_invariant window_ok
             (fun s i => ColorReactionGame.step i s));
      [|exact window_ok_initial].
    intros a b. apply window_ok_CRG_step.
  - apply (fold_left_invariant window_ok
             (fun s i => ColorReactionGameEdges.step i s));
      [|exact window_ok_initial].
    intros a b. apply window_ok_Edges_step.
Qed.





End GoNoGoFacts.

Section OneStimulus.
Import GoNoGo.

Lemma retire_stimuli sid now st :
  (length (stimuli (retire sid now st)) <= length (stimuli st))%nat.
Proof.
  unfold retire. cbv zeta.
  assert (Hf : (length (filter (fun s => negb (Nat.eqb (id s) sid))
                               (stimuli st)) <= length (stimuli st))%nat)
    by apply filter_length_le.
  destruct (running st && (totalShown st <? TOTAL_STIMULI)%nat); simpl;
    case_if; simpl; lia.
Qed.

Lemma onSpawnTimer_stimuli placed c cell now dur sid st :
  (length (stimuli st) <= MAX_ACTIVE)%nat ->
  (length (stimuli (onSpawnTimer placed c cell now dur sid st))
   <= MAX_ACTIVE)%nat.
Proof.
  intros H. unfold onSpawnTimer.
  destruct (spawnTimers st) as [|n]; [exact H|]. cbv zeta.
  destruct (negb (running (set_spawnTimers n st))); [exact H|].
  destruct (MAX_ACTIVE <=? length (stimuli (set_spawnTimers n st)))%nat
    eqn:Hm; [exact H|].
  destruct (TOTAL_STIMULI <=? totalShown (set_spawnTimers n st))%nat
    eqn:Ht; [exact H|].
  unfold spawnStimulus. rewrite Ht. cbv zeta.
  apply Nat.leb_gt in Hm.
  change (stimuli (set_spawnTimers n st)) with (stimuli st) in Hm.
  unfold MAX_ACTIVE in *.
  destruct placed; cbn [stimuli emitEvent set_totalShown set_stimuli];
    rewrite length_app; cbn [stimuli set_timeouts set_lastPlacedIdx
                             set_spawnTimers length]; lia.
Qed.
End OneStimulus.

Section Display.
Import GoNoGo GoNoGoProps.

Lemma onExpire_stimuli sid now st :
  (length (stimuli (onExpire sid now st)) <= length (stimuli st))%nat.
Proof.
  unfold onExpire.
  destruct (negb (existsb (Nat.eqb sid) (timeouts st))); [lia|]. cbv zeta.
  change (stimuli (set_timeouts (remove_id sid (timeouts st)) st))
    with (stimuli st).
  destruct (find _ (stimuli st)) as [s|]; [|simpl; lia].
  etransitivity; [apply retire_stimuli|].
  destruct (color s); simpl; lia.
Qed.

Lemma CRG_onCellClick_stimuli cell now dist st :
  (length (stimuli (ColorReactionGame.onCellClick cell now dist st))
   <= length (stimuli st))%nat.
Proof.
  unfold ColorReactionGame.onCellClick.
  destruct (negb (running st)); [lia|].
  destruct (filter _ (stimuli st)); [simpl; lia|]. cbv zeta.
  etransitivity; [apply retire_stimuli|].
  case_if; simpl;
    [case_if; simpl; lia | lia].
Qed.

Lemma Edges_onCellClick_stimuli cell now st :
  (length (stimuli (ColorReactionGameEdges.onCellClick cell now st))
   <= length (stimuli st))%nat.
Proof.
  unfold ColorReactionGameEdges.onCellClick.
  destruct (negb (running st)); [lia|].
  destruct (find _ (stimuli st)); [|simpl; lia]. cbv zeta.
  etransitivity; [apply retire_stimuli|].
  case_if; simpl;
    [case_if; simpl; lia | lia].
Qed.

(** Every reachable state of either game displays at most [MAX_ACTIVE]
    stimuli, so "the displayed stimulus" of a cell click is the only one. *)
Lemma at_most_one_stimulus inputs :
  (length (stimuli (ColorReactionGame.run inputs initial)) <= MAX_ACTIVE)%nat
  /\ (length (stimuli (ColorReactionGameEdges.run inputs initial))
      <= MAX_ACTIVE)%nat.
Proof.
  split.
  - apply (fold_left_invariant
             (fun st => (length (stimuli st) <= MAX_ACTIVE)%nat)
             (fun s i => ColorReactionGame.step i s)).
    + intros st [now|now|cell now dist|c cell now dur sid|sid now] H; simpl.
      * destruct (running st); [exact H|]. unfold MAX_ACTIVE. simpl. lia.
      * destruct (running st); [|exact H]. unfold MAX_ACTIVE. simpl. lia.
      * etransitivity; [apply CRG_onCellClick_stimuli|exact H].
      * now apply onSpawnTimer_stimuli.
      * etransitivity; [apply onExpire_stimuli|exact H].
    + unfold MAX_ACTIVE. simpl. lia.
  - apply (fold_left_invariant
             (fun st => (length (stimuli st) <= MAX_ACTIVE)%nat)
             (fun s i => ColorReactionGameEdges.step i s)).
    + intros st [now|now|cell now dist|c cell now dur sid|sid now] H; simpl.
      * destruct (running st); [exact H|]. unfold MAX_ACTIVE. simpl. lia.
      * destruct (running st); [|exact H]. unfold MAX_ACTIVE. simpl. lia.
      * etransitivity; [apply Edges_onCellClick_stimuli|exact H].
      * now apply onSpawnTimer_stimuli.
      * etransitivity; [apply onExpire_stimuli|exact H].
    + unfold MAX_ACTIVE. simpl. lia.
Qed.
End Display.


(** ** Binary64 rounding *)

Section Binary64.
Import B64.

Lemma pow2_pos (e : Z) : (0 < 2 ^ e)%Q.
Proof. now apply Qpower_0_lt. Qed.

Lemma pow2_add (a b : Z) : (2 ^ (a + b) == 2 ^ a * 2 ^ b)%Q.
Proof. apply Qpower_plus. discriminate. Qed.

Lemma pow2_succ (a : Z) : (2 ^ (a + 1) == 2 * 2 ^ a)%Q.
Proof. rewrite pow2_add. change (2 ^ 1)%Q with 2%Q. ring. Qed.

Lemma pow2_pred (a : Z) : (2 ^ (a - 1) == 2 ^ a / 2)%Q.
Proof.
  rewrite Qpower_minus by discriminate. change (2 ^ 1)%Q with 2%Q.
  reflexivity.
Qed.

Lemma pow2_Z (n : Z) : 0 <= n -> (2 ^ n == inject_Z (2 ^ n))%Q.
Proof. intros H. symmetry. now apply (Zpower_Qpower 2 n). Qed.

Lemma pow2_le (a b : Z) : a <= b -> (2 ^ a <= 2 ^ b)%Q.
Proof. intros H. apply Qpower_le_compat_l; [exact H | discriminate]. Qed.

Lemma pow2_lt (a b : Z) : a < b -> (2 ^ a < 2 ^ b)%Q.
Proof. intros H. apply Qpower_lt_compat_l; [exact H | reflexivity]. Qed.

Lemma pow2_lt_inv (a b : Z) : (2 ^ a < 2 ^ b)%Q -> a < b.
Proof. intros H. apply (Qpower_lt_compat_l_inv 2); [exact H | reflexivity]. Qed.

Lemma Qle_bool_false (a b : Q) : Qle_bool a b = false -> (b < a)%Q.
Proof.
  intros H. apply Qnot_le_lt. intros Hle.
  apply Qle_bool_iff in Hle. congruence.
Qed.

Lemma ilog2_spec (q : Q) :
  (0 < q)%Q -> (2 ^ ilog2 q <= q)%Q /\ (q < 2 ^ (ilog2 q + 1))%Q.
Proof.
  intros Hq. unfold ilog2.
  set (la := Z.log2 (Qnum q)). set (lb := Z.log2 (Zpos (Qden q))).
  assert (Ha : 0 < Qnum q).
  { destruct q as [a b]. unfold Qlt in Hq. simpl in *. lia. }
  destruct (Z.log2_spec (Qnum q) Ha) as [Ha1 Ha2].
  destruct (Z.log2_spec (Zpos (Qden q)) eq_refl) as [Hb1 Hb2].
  fold la in Ha1, Ha2. fold lb in Hb1, Hb2.
  assert (Hla : 0 <= la) by apply Z.log2_nonneg.
  assert (Hlb : 0 <= lb) by apply Z.log2_nonneg.
  unfold Z.succ in *.
  set (A := inject_Z (Qnum q)). set (B := inject_Z (Zpos (Qden q))).
  assert (HB : (0 < B)%Q) by (unfold B; rewrite <- (Zlt_Qlt 0); lia).
  assert (Hq' : (q == A / B)%Q).
  { unfold A, B. destruct q as [a b]. simpl. rewrite Qmake_Qdiv. reflexivity. }
  assert (Hx1 : (2 ^ la <= A)%Q)
    by (rewrite pow2_Z by lia; unfold A; now rewrite <- Zle_Qle).
  assert (Hx2 : (A < 2 * 2 ^ la)%Q).
  { rewrite <- pow2_succ, pow2_Z by lia. unfold A. now rewrite <- Zlt_Qlt. }
  assert (Hy1 : (2 ^ lb <= B)%Q)
    by (rewrite pow2_Z by lia; unfold B; now rewrite <- Zle_Qle).
  assert (Hy2 : (B < 2 * 2 ^ lb)%Q).
  { rewrite <- pow2_succ, pow2_Z by lia. unfold B. now rewrite <- Zlt_Qlt. }
  assert (Hd : (2 ^ (la - lb) == 2 ^ la / 2 ^ lb)%Q)
    by (apply Qpower_minus; discriminate).
  pose proof (pow2_pos la) as Hpa. pose proof (pow2_pos lb) as Hpb.
  assert (Hup : (q < 2 * 2 ^ (la - lb))%Q).
  { rewrite Hq', Hd. apply Qlt_shift_div_r; [exact HB|].
    assert (E : (2 * (2 ^ la / 2 ^ lb) * B
                 == 2 * 2 ^ la * (B / 2 ^ lb))%Q)
      by (field; intros E; rewrite E in Hpb; discriminate).
    rewrite E.
    assert (H1 : (1 <= B / 2 ^ lb)%Q)
      by (apply Qle_shift_div_l; [exact Hpb | lra]).
    nra. }
  assert (Hlo : (2 ^ (la - lb) / 2 < q)%Q).
  { rewrite Hq', Hd. apply Qlt_shift_div_l; [exact HB|].
    assert (E : (2 ^ la / 2 ^ lb / 2 * B
                 == 2 ^ la * (B / (2 * 2 ^ lb)))%Q)
      by (field; intros E; rewrite E in Hpb; discriminate).
    rewrite E.
    assert (H1 : (B / (2 * 2 ^ lb) < 1)%Q)
      by (apply Qlt_shift_div_r; lra).
    assert (H0 : (0 < B / (2 * 2 ^ lb))%Q)
      by (apply Qlt_shift_div_l; lra).
    nra. }
  destruct (Qle_bool (2 ^ (la - lb)) q) eqn:Hc.
  - apply Qle_bool_iff in Hc. split; [exact Hc|].
    now rewrite pow2_succ.
  - apply Qle_bool_false in Hc. split.
    + rewrite pow2_pred. lra.
    + replace (la - lb - 1 + 1) with (la - lb) by lia. exact Hc.
Qed.


Lemma ilog2_lt (q : Q) (k : Z) : (0 < q)%Q -> (q < 2 ^ k)%Q -> ilog2 q < k.
Proof.
  intros Hq Hk. destruct (ilog2_spec q Hq) as [H1 _].
  apply pow2_lt_inv. lra.
Qed.

Lemma ilog2_ge (q : Q) (k : Z) : (2 ^ k <= q)%Q -> k <= ilog2 q.
Proof.
  intros Hk.
  assert (Hq : (0 < q)%Q) by (pose proof (pow2_pos k); lra).
  destruct (ilog2_spec q Hq) as [_ H2].
  assert (k < ilog2 q + 1) by (apply pow2_lt_inv; lra). lia.
Qed.



Lemma rne_error (x : Q) :
  (x - (1 # 2) <= inject_Z (rne x))%Q /\ (inject_Z (rne x) <= x + (1 # 2))%Q.
Proof.
  unfold rne.
  pose proof (Qfloor_le x) as Hf1. pose proof (Qlt_floor x) as Hf2.
  rewrite inject_Z_plus in Hf2. change (inject_Z 1) with 1%Q in Hf2.
  destruct (x - inject_Z (Qfloor x) ?= 1 # 2)%Q eqn:Hc.
  - apply Qeq_alt in Hc.
    destruct (Z.even (Qfloor x));
      rewrite ?inject_Z_plus; change (inject_Z 1) with 1%Q; lra.
  - apply Qlt_alt in Hc. lra.
  - apply Qgt_alt in Hc. rewrite inject_Z_plus.
    change (inject_Z 1) with 1%Q. lra.
Qed.

Lemma rne_le_Z (x : Q) (n : Z) : (x <= inject_Z n)%Q -> rne x <= n.
Proof.
  intros H. unfold rne.
  pose proof (Qfloor_le x) as Hf1.
  assert (Hfn : Qfloor x <= n) by (rewrite Zle_Qle; lra).
  assert (Hstep : (inject_Z (Qfloor x) < x)%Q -> Qfloor x + 1 <= n).
  { intros Hlt. assert (Hq : (inject_Z (Qfloor x) < inject_Z n)%Q) by lra.
    rewrite <- Zlt_Qlt in Hq. lia. }
  destruct (x - inject_Z (Qfloor x) ?= 1 # 2)%Q eqn:Hc.
  - apply Qeq_alt in Hc. destruct (Z.even (Qfloor x)); [exact Hfn|].
    apply Hstep. lra.
  - exact Hfn.
  - apply Qgt_alt in Hc. apply Hstep. lra.
Qed.

Lemma rne_ge_Z (x : Q) (n : Z) : (inject_Z n <= x)%Q -> n <= rne x.
Proof.
  intros H. unfold rne.
  assert (Hfn : n <= Qfloor x).
  { rewrite <- (Qfloor_Z n). now apply Qfloor_resp_le. }
  destruct (x - inject_Z (Qfloor x) ?= 1 # 2)%Q;
    [destruct (Z.even (Qfloor x))| |]; lia.
Qed.

Lemma rne_Z (n : Z) : rne (inject_Z n) = n.
Proof.
  pose proof (rne_le_Z (inject_Z n) n ltac:(apply Qle_refl)).
  pose proof (rne_ge_Z (inject_Z n) n ltac:(apply Qle_refl)). lia.
Qed.

(** Scaling an integer bound to the last place. *)
Lemma scaled_bound (n e : Z) :
  e <= 0 -> (inject_Z n / 2 ^ e == inject_Z (n * 2 ^ (- e)))%Q.
Proof.
  intros He. rewrite inject_Z_mult, <- pow2_Z by lia.
  rewrite Qpower_opp. field. intros E.
  pose proof (pow2_pos e) as Hp. rewrite E in Hp. discriminate.
Qed.

Lemma nearest_zero : (nearest 0 == 0)%Q.
Proof. reflexivity. Qed.

Lemma ilog2_unique (q : Q) (k : Z) :
  (2 ^ k <= q)%Q -> (q < 2 ^ (k + 1))%Q -> ilog2 q = k.
Proof.
  intros H1 H2.
  assert (Hq : (0 < q)%Q) by (pose proof (pow2_pos k); lra).
  pose proof (ilog2_ge q k H1). pose proof (ilog2_lt q (k + 1) Hq H2). lia.
Qed.

Lemma ilog2_comp (x y : Q) : (0 < x)%Q -> (x == y)%Q -> ilog2 x = ilog2 y.
Proof.
  intros Hx H. destruct (ilog2_spec x Hx) as [H1 H2].
  symmetry. apply ilog2_unique; rewrite <- H; assumption.
Qed.

Lemma Qabs_nonzero (x : Q) : ~ (x == 0)%Q -> (0 < Qabs x)%Q.
Proof.
  intros H. destruct (Qlt_le_dec x 0) as [Hlt|Hle].
  - rewrite Qabs_neg by lra. lra.
  - rewrite Qabs_pos by exact Hle.
    destruct (Qlt_le_dec 0 x) as [Hp|Hn]; [exact Hp|].
    exfalso. apply H. lra.
Qed.



Lemma nearest_pos_eq (q : Q) :
  (0 < q)%Q ->
  (nearest q
   == inject_Z (rne (q / 2 ^ Z.max (ilog2 q - 52) (-1074)))
      * 2 ^ Z.max (ilog2 q - 52) (-1074))%Q.
Proof.
  intros Hq. unfold nearest.
  destruct (Qeq_bool q 0) eqn:H0;
    [apply Qeq_bool_iff in H0; lra|].
  unfold exponent.
  rewrite (ilog2_comp (Qabs q) q);
    [reflexivity | | apply Qabs_pos; lra].
  apply Qabs_nonzero. intros E. lra.
Qed.

Lemma exponent_small (q : Q) :
  (Qabs q < 2 ^ 53)%Q -> ~ (q == 0)%Q -> exponent q <= 0.
Proof.
  intros Hq H0. unfold exponent.
  pose proof (ilog2_lt (Qabs q) 53 (Qabs_nonzero q H0) Hq). lia.
Qed.

Lemma Qle_div_mul (a b c : Q) :
  (0 < c)%Q -> (a <= b / c)%Q -> (a * c <= b)%Q.
Proof.
  intros Hc H. apply (Qmult_le_compat_r _ _ c) in H; [|lra].
  assert (E : (b / c * c == b)%Q) by (field; intros Z0; lra).
  lra.
Qed.

Lemma Qge_div_mul (a b c : Q) :
  (0 < c)%Q -> (b / c <= a)%Q -> (b <= a * c)%Q.
Proof.
  intros Hc H. apply (Qmult_le_compat_r _ _ c) in H; [|lra].
  assert (E : (b / c * c == b)%Q) by (field; intros Z0; lra).
  lra.
Qed.

(** Rounding does not cross an integer of at most 53 bits. *)
Lemma nearest_le_Z (q : Q) (n : Z) :
  (Qabs q < 2 ^ 53)%Q -> (q <= inject_Z n)%Q ->
  (nearest q <= inject_Z n)%Q.
Proof.
  intros Hq Hn. unfold nearest.
  destruct (Qeq_bool q 0) eqn:H0.
  - apply Qeq_bool_iff in H0. lra.
  - apply Qeq_bool_neq in H0.
    pose proof (exponent_small q Hq H0) as He.
    pose proof (pow2_pos (exponent q)) as Hp.
    assert (Hs : (q / 2 ^ exponent q
                  <= inject_Z (n * 2 ^ (- exponent q)))%Q).
    { rewrite <- scaled_bound by exact He.
      apply Qmult_le_compat_r; [exact Hn|].
      apply Qlt_le_weak, Qinv_lt_0_compat, Hp. }
    apply rne_le_Z in Hs. rewrite Zle_Qle in Hs.
    rewrite <- scaled_bound in Hs by exact He.
    apply Qle_div_mul; [exact Hp | exact Hs].
Qed.

Lemma nearest_ge_Z (q : Q) (n : Z) :
  (Qabs q < 2 ^ 53)%Q -> (inject_Z n <= q)%Q ->
  (inject_Z n <= nearest q)%Q.
Proof.
  intros Hq Hn. unfold nearest.
  destruct (Qeq_bool q 0) eqn:H0.
  - apply Qeq_bool_iff in H0. lra.
  - apply Qeq_bool_neq in H0.
    pose proof (exponent_small q Hq H0) as He.
    pose proof (pow2_pos (exponent q)) as Hp.
    assert (Hs : (inject_Z (n * 2 ^ (- exponent q))
                  <= q / 2 ^ exponent q)%Q).
    { rewrite <- scaled_bound by exact He.
      apply Qmult_le_compat_r; [exact Hn|].
      apply Qlt_le_weak, Qinv_lt_0_compat, Hp. }
    apply rne_ge_Z in Hs. rewrite Zle_Qle in Hs.
    rewrite <- scaled_bound in Hs by exact He.
    apply Qge_div_mul; [exact Hp | exact Hs].
Qed.


(** A normal number is rounded within its binade, by at most half a unit
    in the last place. *)
Lemma nearest_normal (q : Q) :
  (0 < q)%Q -> -1022 <= ilog2 q ->
  (2 ^ ilog2 q <= nearest q)%Q
  /\ (q - 2 ^ (ilog2 q - 53) <= nearest q)%Q
  /\ (nearest q <= q + 2 ^ (ilog2 q - 53))%Q.
Proof.
  intros Hq Hn. rewrite (nearest_pos_eq q Hq).
  replace (Z.max (ilog2 q - 52) (-1074)) with (ilog2 q - 52) by lia.
  set (E := ilog2 q). set (e := E - 52).
  destruct (ilog2_spec q Hq) as [H1 H2]. fold E in H1, H2.
  pose proof (pow2_pos e) as Hp.
  assert (HE : (2 ^ E == 2 ^ 52 * 2 ^ e)%Q).
  { rewrite <- pow2_add. f_equiv. unfold e. lia. }
  assert (Hh : (2 ^ (E - 53) == (1 # 2) * 2 ^ e)%Q).
  { replace (E - 53) with (e - 1) by (unfold e; lia).
    rewrite pow2_pred. field. }
  set (x := (q / 2 ^ e)%Q).
  assert (Hx : (q == x * 2 ^ e)%Q).
  { unfold x. field. intros Z0. rewrite Z0 in Hp. discriminate. }
  destruct (rne_error x) as [He1 He2].
  assert (Hlow : 2 ^ 52 <= rne x).
  { apply rne_ge_Z. rewrite <- pow2_Z by lia. unfold x.
    apply Qle_shift_div_l; [exact Hp|]. lra. }
  rewrite Zle_Qle, <- pow2_Z in Hlow by lia.
  set (r := inject_Z (rne x)) in *.
  assert (Hp0 : (0 <= 2 ^ e)%Q) by lra.
  pose proof (Qmult_le_compat_r _ _ _ Hlow Hp0) as G1.
  pose proof (Qmult_le_compat_r _ _ _ He1 Hp0) as G2.
  pose proof (Qmult_le_compat_r _ _ _ He2 Hp0) as G3.
  rewrite Hh, HE, Hx. clear Hx HE Hh H1 H2.
  clearbody r x.
  revert G1 G2 G3. generalize (2 ^ e)%Q (2 ^ 52)%Q. intros p c G1 G2 G3.
  split; [exact G1|]. split; lra.
Qed.


Lemma Qfloor_ge_Z (q : Q) (z : Z) : (inject_Z z <= q)%Q -> z <= Qfloor q.
Proof.
  intros H. rewrite <- (Qfloor_Z z). now apply Qfloor_resp_le.
Qed.

Lemma Math_round_between (q : Q) (lo hi : Z) :
  (inject_Z lo <= q)%Q -> (q <= inject_Z hi)%Q ->
  lo <= JS.Math_round q <= hi.
Proof.
  intros H1 H2. unfold JS.Math_round. split.
  - apply Qfloor_ge_Z. lra.
  - apply Z.lt_succ_r. rewrite Zlt_Qlt.
    eapply Qle_lt_trans; [apply Qfloor_le|].
    unfold Z.succ. rewrite inject_Z_plus. change (inject_Z 1) with 1%Q.
    lra.
Qed.

Lemma Qabs_small (q : Q) (n : Z) :
  (0 <= q)%Q -> (q <= inject_Z n)%Q -> n < 2 ^ 53 ->
  (Qabs q < 2 ^ 53)%Q.
Proof.
  intros H0 Hn Hb. rewrite Qabs_pos by exact H0.
  rewrite (pow2_Z 53) by lia. eapply Qle_lt_trans; [exact Hn|].
  now rewrite <- Zlt_Qlt.
Qed.

(** A ratio of at most 1 stays at most 1, and its percentage at most
    100. *)
Lemma div_unit (a b : Q) :
  (0 <= a)%Q -> (a <= b)%Q -> (0 < b)%Q ->
  (0 <= B64.div a b)%Q /\ (B64.div a b <= 1)%Q.
Proof.
  intros Ha Hab Hb. unfold B64.div.
  assert (H0 : (0 <= a / b)%Q) by (apply Qle_shift_div_l; lra).
  assert (H1 : (a / b <= 1)%Q) by (apply Qle_shift_div_r; lra).
  assert (Hs : (Qabs (a / b) < 2 ^ 53)%Q)
    by (apply (Qabs_small _ 1); [exact H0 | exact H1 | reflexivity]).
  split.
  - apply (nearest_ge_Z _ 0); [exact Hs | exact H0].
  - apply (nearest_le_Z _ 1); [exact Hs | exact H1].
Qed.

Lemma percent_bounds (a b : Q) :
  (0 <= a)%Q -> (a <= b)%Q -> (0 < b)%Q -> 0 <= JS.percent a b <= 100.
Proof.
  intros Ha Hab Hb. destruct (div_unit a b Ha Hab Hb) as [H0 H1].
  unfold JS.percent, B64.mul.
  set (x := B64.div a b) in *.
  assert (Hw0 : (0 <= x * 100)%Q) by lra.
  assert (Hw1 : (x * 100 <= inject_Z 100)%Q)
    by (change (inject_Z 100) with 100%Q; lra).
  assert (Hs : (Qabs (x * 100) < 2 ^ 53)%Q)
    by (apply (Qabs_small _ 100); [exact Hw0 | exact Hw1 | reflexivity]).
  apply Math_round_between.
  - apply (nearest_ge_Z _ 0); [exact Hs | exact Hw0].
  - apply (nearest_le_Z _ 100); [exact Hs | exact Hw1].
Qed.




(** [B64] against [SpecFloat]: on every quotient of a hit count by a
    total up to 40, on the durations around one second, and on operands
    at both ends of the 53 bits. *)
Lemma B64_agrees_with_SpecFloat :
  IEEE.agree_upto 40 = true
  /\ forallb (fun d => IEEE.agree d 1000) [999; 1004; 1005; 1006; 123456]
     = true
  /\ forallb (fun '(a, b) => IEEE.agree a b)
       [(1, 9007199254740991); (9007199254740991, 3);
        (9007199254740991, 9007199254740990); (-23, 40)]
     = true.
Proof. vm_compute. repeat split. Qed.

(** The rounding error on a number between two powers of 2. *)
Lemma nearest_close (q : Q) (lo hi : Z) :
  -1022 <= lo -> (2 ^ lo <= q)%Q -> (q < 2 ^ hi)%Q ->
  (2 ^ lo <= nearest q)%Q
  /\ (q - 2 ^ (hi - 54) <= nearest q)%Q
  /\ (nearest q <= q + 2 ^ (hi - 54))%Q.
Proof.
  intros Hlo H1 H2.
  assert (Hq : (0 < q)%Q)
    by (eapply Qlt_le_trans; [apply (pow2_pos lo) | exact H1]).
  pose proof (ilog2_ge q lo H1) as Hl.
  pose proof (ilog2_lt q hi Hq H2) as Hh.
  destruct (nearest_normal q Hq) as (G1 & G2 & G3); [lia|].
  assert (P1 : (2 ^ lo <= 2 ^ ilog2 q)%Q) by (apply pow2_le; lia).
  assert (P2 : (2 ^ (ilog2 q - 53) <= 2 ^ (hi - 54))%Q)
    by (apply pow2_le; lia).
  repeat split; lra.
Qed.

End Binary64.

(** ** Reported accuracy *)

Section Accuracy.






Lemma counter_nonneg (n : nat) : (0 <= B64.counter n)%Q.
Proof.
  unfold B64.counter. change 0%Q with (inject_Z 0). rewrite <- Zle_Qle.
  apply Z.min_glb; [lia|]. apply Z.pow_nonneg. lia.
Qed.

Lemma counter_positive (n : nat) : (0 < n)%nat -> (1 <= B64.counter n)%Q.
Proof.
  intros H. unfold B64.counter. change 1%Q with (inject_Z 1).
  rewrite <- Zle_Qle. apply Z.min_glb; [lia|].
  change 1 with (2 ^ 0). apply Z.pow_le_mono_r; lia.
Qed.

Lemma counter_le (n m : nat) :
  (n <= m)%nat -> (B64.counter n <= B64.counter m)%Q.
Proof.
  intros H. unfold B64.counter. rewrite <- Zle_Qle.
  apply Z.min_le_compat_r. lia.
Qed.
















End Accuracy.

(** ** Sequence generation *)

Section Generation.
Import Call CentralPeripheralSpanTask Props.

Lemma existsb_eqb_In (x : nat) (l : list nat) :
  existsb (Nat.eqb x) l = true <-> In x l.
Proof.
  rewrite existsb_exists. split.
  - intros (y & Hy & Heq). apply Nat.eqb_eq in Heq. now subst.
  - intros H. exists x. split; [assumption|apply Nat.eqb_refl].
Qed.

Lemma pick_in (available : list nat) (r : nat) :
  available <> [] ->
  In (nth (r mod length available) available 0%nat) available.
Proof.
  intros Hne. apply nth_In. apply Nat.mod_upper_bound.
  destruct available; simpl; [congruence|lia].
Qed.

Lemma loop_inv_push available used sofar r :
  available <> [] ->
  loop_inv available used sofar ->
  let idx := nth (r mod length available) available 0%nat in
  existsb (Nat.eqb idx) used = false ->
  loop_inv available (idx :: used) (sofar ++ [idx]).
Proof.
  intros Hne (Hnd & Hin & Hsame) idx Hfresh.
  assert (Hnot : ~ In idx used).
  { intros H. apply existsb_eqb_In in H. congruence. }
  repeat split.
  - apply NoDup_app; [assumption | constructor; [easy|constructor] |].
    intros x Hx [Hx'|[]]. subst x. apply Hnot, Hsame, Hx.
  - intros x Hx. apply in_app_or in Hx as [Hx|[Hx|[]]].
    + now apply Hin.
    + subst x. now apply pick_in.
  - intros [Hx|Hx]; apply in_or_app.
    + right. now left.
    + left. now apply Hsame.
  - intros Hx. apply in_app_or in Hx as [Hx|[Hx|[]]].
    + right. now apply Hsame.
    + now left.
Qed.

Lemma randSeq_loop_returned available len :
  available <> [] ->
  forall draws used sofar s,
    loop_inv available used sofar ->
    Z.of_nat (length sofar) <= len ->
    randSeq_loop available len draws used sofar = Returned s ->
    Z.of_nat (length s) = len /\ NoDup s /\ incl s available.
Proof.
  intros Hne draws. induction draws as [|r rest IH]; intros used sofar s Hinv Hlen;
    simpl; destruct (Z.of_nat (length sofar) <? len) eqn:Hlt;
    try discriminate.
  - intros [= <-]. apply Z.ltb_ge in Hlt. destruct Hinv as (? & ? & _).
    split; [lia|auto].
  - destruct (existsb _ used) eqn:Hex; simpl.
    + apply IH; assumption.
    + apply IH.
      * now apply loop_inv_push.
      * rewrite length_app. simpl. apply Z.ltb_lt in Hlt. lia.
  - intros [= <-]. apply Z.ltb_ge in Hlt. destruct Hinv as (? & ? & _).
    split; [lia|auto].
Qed.

Lemma randSeq_loop_spins available len :
  available <> [] ->
  Z.of_nat (length available) < len ->
  forall draws used sofar,
    loop_inv available used sofar ->
    exists partial,
      randSeq_loop available len draws used sofar = Spinning partial.
Proof.
  intros Hne Hbig draws. induction draws as [|r rest IH]; intros used sofar Hinv;
    simpl.
  - assert (Hle : (length sofar <= length available)%nat).
    { destruct Hinv as (Hnd & Hin & _). now apply NoDup_incl_length. }
    destruct (Z.of_nat (length sofar) <? len) eqn:Hlt.
    + eexists. reflexivity.
    + apply Z.ltb_ge in Hlt. lia.
  - assert (Hle : (length sofar <= length available)%nat).
    { destruct Hinv as (Hnd & Hin & _). now apply NoDup_incl_length. }
    destruct (Z.of_nat (length sofar) <? len) eqn:Hlt.
    + destruct (existsb _ used) eqn:Hex; simpl.
      * now apply IH.
      * apply IH. now apply loop_inv_push.
    + apply Z.ltb_ge in Hlt. lia.
Qed.

Lemma filter_neq_length (a : nat) (l : list nat) :
  NoDup l ->
  (length l <= S (length (filter (fun x => negb (Nat.eqb x a)) l)))%nat.
Proof.
  induction 1 as [|x l Hx Hnd IH]; simpl; [lia|].
  destruct (Nat.eqb x a) eqn:Heq; simpl; [|lia].
  apply Nat.eqb_eq in Heq. subst x.
  assert (Hid : filter (fun x => negb (Nat.eqb x a)) l = l).
  { clear IH Hnd. induction l as [|y l IHl]; simpl; [reflexivity|].
    destruct (Nat.eqb y a) eqn:Hy; simpl.
    - apply Nat.eqb_eq in Hy. subst y. exfalso. apply Hx. now left.
    - f_equal. apply IHl. intros H. apply Hx. now right. }
  rewrite Hid. lia.
Qed.

Lemma randSeq_loop_returns available len :
  forall draws used sofar ds,
    NoDup ds ->
    incl ds (picks available draws) ->
    (forall x, In x ds -> ~ In x used) ->
    len <= Z.of_nat (length sofar + length ds) ->
    exists s, randSeq_loop available len draws used sofar = Returned s.
Proof.
  induction draws as [|r rest IH]; intros used sofar ds Hnd Hincl Hdisj Hlen;
    simpl.
  - assert (ds = []) as ->.
    { destruct ds as [|d ds]; [reflexivity|].
      exfalso. apply (Hincl d). now left. }
    simpl in Hlen. rewrite Nat.add_0_r in Hlen.
    destruct (Z.of_nat (length sofar) <? len) eqn:Hlt.
    + apply Z.ltb_lt in Hlt. lia.
    + eexists. reflexivity.
  - destruct (Z.of_nat (length sofar) <? len) eqn:Hlt;
      [|eexists; reflexivity].
    set (idx := nth (r mod length available) available 0%nat).
    destruct (existsb (Nat.eqb idx) used) eqn:Hex; simpl.
    + apply (IH used sofar ds); try assumption.
      intros x Hx. specialize (Hincl x Hx). simpl in Hincl.
      destruct Hincl as [Heq|Hin]; [|assumption].
      exfalso. apply (Hdisj x Hx). apply existsb_eqb_In.
      fold idx in Heq. now subst x.
    + apply (IH (idx :: used) (sofar ++ [idx])
                (filter (fun x => negb (Nat.eqb x idx)) ds)).
      * now apply NoDup_filter.
      * intros x Hx. apply filter_In in Hx as [Hx Hneq].
        specialize (Hincl x Hx). simpl in Hincl.
        destruct Hincl as [Heq|Hin]; [|assumption].
        fold idx in Heq. subst x. rewrite Nat.eqb_refl in Hneq.
        discriminate.
      * intros x Hx. apply filter_In in Hx as [Hx Hneq].
        intros [Heq|Hin].
        -- subst x. rewrite Nat.eqb_refl in Hneq. discriminate.
        -- now apply (Hdisj x).
      * rewrite length_app. simpl.
        pose proof (filter_neq_length idx ds Hnd). lia.
Qed.

Lemma loop_inv_nil available : loop_inv available [] [].
Proof.
  repeat split; try constructor; try easy.
Qed.

Lemma regionFilter_nonempty region : regionFilter region <> [].
Proof. destruct region as [[]|]; discriminate. Qed.

Lemma randUniqueSeq_loop_eq len draws :
  forall used arr,
  SpamperceptionBlocks.randUniqueSeq_loop len draws used arr
  = randSeq_loop (List.seq 0 SpamperceptionBlocks.CELLS) len draws used arr.
Proof.
  induction draws as [|r rest IH]; intros used arr;
    cbn [SpamperceptionBlocks.randUniqueSeq_loop randSeq_loop];
    [reflexivity|].
  rewrite length_seq, seq_nth
    by (apply Nat.mod_upper_bound; discriminate).
  rewrite !IH. reflexivity.
Qed.


Lemma NoDup_by_nodup (l : list nat) :
  nodup Nat.eq_dec l = l -> NoDup l.
Proof. intros H. rewrite <- H. apply NoDup_nodup. Qed.

Lemma regionFilter_NoDup region : NoDup (regionFilter region).
Proof.
  destruct region as [[]|]; apply NoDup_by_nodup; vm_compute; reflexivity.
Qed.

Lemma picks_seq (available : list nat) (n : nat) :
  (n <= length available)%nat ->
  picks available (List.seq 0 n) = firstn n available.
Proof.
  intros Hn. unfold picks.
  apply nth_error_ext. intros k.
  destruct (Nat.lt_ge_cases k n) as [Hk|Hk].
  - rewrite nth_error_map, nth_error_seq.
    replace (k <? n)%nat with true by (symmetry; now apply Nat.ltb_lt).
    simpl. rewrite Nat.mod_small by lia.
    rewrite nth_error_firstn.
    replace (k <? n)%nat with true by (symmetry; now apply Nat.ltb_lt).
    symmetry. apply nth_error_nth'. lia.
  - rewrite (proj2 (nth_error_None _ _)) by (rewrite length_map, length_seq; lia).
    symmetry. apply nth_error_None. rewrite length_firstn. lia.
Qed.

Lemma firstn_In (n : nat) (l : list nat) (x : nat) :
  In x (firstn n l) -> In x l.
Proof.
  revert n. induction l as [|y l IH]; intros [|n]; simpl; try easy.
  intros [H|H]; [now left | right; eapply IH, H].
Qed.

Lemma NoDup_firstn (n : nat) (l : list nat) :
  NoDup l -> NoDup (firstn n l).
Proof.
  intros H. revert n. induction H as [|x l Hx Hnd IH]; intros [|n]; simpl;
    try constructor.
  - intros Hin. apply Hx. eapply firstn_In, Hin.
  - apply IH.
Qed.

Lemma randUniqueSeq_returned len draws s :
  0 <= len ->
  SpamperceptionBlocks.randUniqueSeq len draws = Returned s ->
  Z.of_nat (length s) = len /\ NoDup s
  /\ forall c, In c s -> (c < SpamperceptionBlocks.CELLS)%nat.
Proof.
  intros Hlen Hret.
  unfold SpamperceptionBlocks.randUniqueSeq in Hret.
  rewrite randUniqueSeq_loop_eq in Hret.
  apply randSeq_loop_returned in Hret;
    [| discriminate | apply loop_inv_nil | assumption].
  destruct Hret as (Hl & Hnd & Hin). repeat split; try assumption.
  intros c Hc. apply Hin, in_seq in Hc. lia.
Qed.

(** The lengths the span tasks ask for lie between 2 and 7, below the size
    of every region. *)
Lemma requested_lengths_fit (len : Z) (ok : bool) :
  2 <= nextLen len ok <= 7
  /\ 2 <= SpamperceptionBlocks.clamp (len + (if ok then 1 else -1))
            SpamperceptionBlocks.MIN_LEN SpamperceptionBlocks.MAX_LEN <= 7
  /\ (forall region, 7 <= Z.of_nat (length (regionFilter region)))
  /\ 7 <= Z.of_nat SpamperceptionBlocks.CELLS.
Proof.
  unfold nextLen, SpamperceptionBlocks.clamp, MIN_LEN, MAX_LEN,
    SpamperceptionBlocks.MIN_LEN, SpamperceptionBlocks.MAX_LEN.
  repeat split; try lia.
  - destruct region as [[]|]; vm_compute; discriminate.
  - vm_compute. discriminate.
Qed.

(** C7, counterexample.  Asked for 17 cells of the 16-cell central region
    (101 of the 100 cells of the blocks grid), generation neither throws
    nor returns: after draws that cover the region several times it is
    still in its loop, holding every cell of the region. *)
Lemma C7_overlong_request_spins :
  length (regionFilter (Some central)) = 16%nat
  /\ randSeq 17 (Some central) (List.seq 0 64)
     = Spinning (regionFilter (Some central))
  /\ randSeq 17 (Some central) (List.seq 0 64)
     <> Threw InsufficientSpaceError
  /\ SpamperceptionBlocks.randUniqueSeq 101 (List.seq 0 300)
     = Spinning (List.seq 0 100)
  /\ SpamperceptionBlocks.randUniqueSeq 101 (List.seq 0 300)
     <> Threw InsufficientSpaceError.
Proof.
  repeat split; try (vm_compute; reflexivity); vm_compute; discriminate.
Qed.

(** C7, amended.  For a requested length greater than the size of the
    region, generation never returns and never throws, whatever is drawn.
    For a length between 0 and the size of the region, a returned sequence
    has exactly that many cells, all distinct and all of the region;
    generation returns as soon as the draws have produced that many
    distinct cells, and some draws do. *)
Theorem C7_generation_returns_distinct_cells_or_spins :
  (forall region len draws,
      Z.of_nat (length (regionFilter region)) < len ->
      exists partial, randSeq len region draws = Spinning partial)
  /\ (forall region len draws s,
         0 <= len ->
         randSeq len region draws = Returned s ->
         Z.of_nat (length s) = len /\ NoDup s
         /\ incl s (regionFilter region))
  /\ (forall region len draws ds,
         NoDup ds ->
         incl ds (picks (regionFilter region) draws) ->
         len <= Z.of_nat (length ds) ->
         exists s, randSeq len region draws = Returned s)
  /\ (forall region len,
         len <= Z.of_nat (length (regionFilter region)) ->
         exists s,
           randSeq len region (List.seq 0 (Z.to_nat len)) = Returned s)
  /\ (forall len draws,
         Z.of_nat SpamperceptionBlocks.CELLS < len ->
         exists partial,
           SpamperceptionBlocks.randUniqueSeq len draws = Spinning partial)
  /\ (forall len draws s,
         0 <= len ->
         SpamperceptionBlocks.randUniqueSeq len draws = Returned s ->
         Z.of_nat (length s) = len /\ NoDup s
         /\ forall c, In c s -> (c < SpamperceptionBlocks.CELLS)%nat)
  /\ (forall len draws ds,
         NoDup ds ->
         incl ds (map (fun r => (r mod SpamperceptionBlocks.CELLS)%nat) draws) ->
         len <= Z.of_nat (length ds) ->
         exists s, SpamperceptionBlocks.randUniqueSeq len draws = Returned s).
Proof.
  repeat match goal with |- _ /\ _ => split end.
  - intros region len draws Hbig. unfold randSeq.
    apply randSeq_loop_spins;
      [apply regionFilter_nonempty | assumption | apply loop_inv_nil].
  - intros region len draws s Hlen Hret. unfold randSeq in Hret.
    eapply randSeq_loop_returned; [| | |eassumption].
    + apply regionFilter_nonempty.
    + apply loop_inv_nil.
    + exact Hlen.
  - intros region len draws ds Hnd Hincl Hlen. unfold randSeq.
    apply (randSeq_loop_returns _ _ draws [] [] ds); auto.
  - intros region len Hlen. unfold randSeq.
    apply (randSeq_loop_returns _ _ _ [] []
             (firstn (Z.to_nat len) (regionFilter region))).
    + apply NoDup_firstn, regionFilter_NoDup.
    + rewrite picks_seq by lia. apply incl_refl.
    + auto.
    + simpl. rewrite length_firstn. lia.
  - intros len draws Hbig. unfold SpamperceptionBlocks.randUniqueSeq.
    rewrite randUniqueSeq_loop_eq.
    apply randSeq_loop_spins.
    + discriminate.
    + rewrite length_seq. assumption.
    + apply loop_inv_nil.
  - intros len draws s. apply randUniqueSeq_returned.
  - intros len draws ds Hnd Hincl Hlen.
    unfold SpamperceptionBlocks.randUniqueSeq.
    rewrite randUniqueSeq_loop_eq.
    apply (randSeq_loop_returns _ _ draws [] [] ds); auto.
    intros x Hx. apply Hincl in Hx. unfold picks.
    apply in_map_iff in Hx as (r & <- & Hr). apply in_map_iff.
    exists r. split; [|assumption].
    rewrite length_seq. apply seq_nth. apply Nat.mod_upper_bound.
    discriminate.
Qed.
End Generation.

(** ** Presentation schedule *)

Section Presentation.
Import Props Scheduler.

Lemma fold_slots {C : Type} (on : nat -> C) (off : C) (ON GAP : Z) :
  forall arr t0 calls0,
    fold_left
      (fun '(t, calls) cell =>
         let calls := calls ++ [(t, on cell)] in
         let t := t + ON in
         let calls := calls ++ [(t, off)] in
         let t := t + GAP in
         (t, calls))
      arr (t0, calls0)
    = (t0 + (ON + GAP) * Z.of_nat (length arr),
       calls0 ++ slots on off ON GAP t0 arr).
Proof.
  induction arr as [|cell rest IH]; intros t0 calls0.
  - simpl. rewrite Z.mul_0_r, Z.add_0_r, app_nil_r. reflexivity.
  - cbn [fold_left slots]. rewrite IH. f_equal.
    + rewrite length_cons. lia.
    + rewrite <- !app_assoc. reflexivity.
Qed.

Lemma slots_length {C : Type} (on : nat -> C) (off : C) ON GAP arr :
  forall t0, length (slots on off ON GAP t0 arr) = (2 * length arr)%nat.
Proof.
  induction arr as [|c rest IH]; intros t0; simpl; [reflexivity|].
  rewrite IH. lia.
Qed.

Lemma slots_nth {C : Type} (on : nat -> C) (off : C) ON GAP arr :
  forall t0 k cell,
    nth_error arr k = Some cell ->
    nth_error (slots on off ON GAP t0 arr) (2 * k)
    = Some (t0 + Z.of_nat k * (ON + GAP), on cell)
    /\ nth_error (slots on off ON GAP t0 arr) (2 * k + 1)
       = Some (t0 + Z.of_nat k * (ON + GAP) + ON, off).
Proof.
  induction arr as [|c rest IH]; intros t0 k cell Hk.
  - destruct k; discriminate.
  - destruct k as [|k].
    + injection Hk as <-. simpl. rewrite Z.add_0_r. split; reflexivity.
    + simpl in Hk. destruct (IH (t0 + ON + GAP) k cell Hk) as [H1 H2].
      replace (2 * S k)%nat with (S (S (2 * k))) by lia.
      replace (S (S (2 * k)) + 1)%nat with (S (S (2 * k + 1))) by lia.
      cbn [slots nth_error]. rewrite H1, H2.
      split; do 2 f_equal; lia.
Qed.

Lemma slots_delays_bounds {C : Type} (on : nat -> C) (off : C) ON GAP arr :
  0 < ON -> 0 < GAP ->
  forall t0 d,
    In d (map fst (slots on off ON GAP t0 arr)) ->
    t0 <= d < t0 + (ON + GAP) * Z.of_nat (length arr).
Proof.
  intros HON HGAP. induction arr as [|c rest IH]; intros t0 d Hd.
  - destruct Hd.
  - cbn [slots map fst] in Hd. rewrite length_cons.
    destruct Hd as [<-|[<-|Hd]]; try nia.
    apply IH in Hd. nia.
Qed.

Lemma slots_increasing {C : Type} (on : nat -> C) (off : C) ON GAP arr :
  0 < ON -> 0 < GAP ->
  forall t0, increasing (map fst (slots on off ON GAP t0 arr)).
Proof.
  intros HON HGAP. induction arr as [|c rest IH]; intros t0.
  - constructor.
  - cbn [slots map fst]. constructor; [constructor; [apply IH|]|].
    + apply Forall_forall. intros d Hd.
      apply (slots_delays_bounds on off ON GAP rest HON HGAP) in Hd. lia.
    + constructor; [lia|].
      apply Forall_forall. intros d Hd.
      apply (slots_delays_bounds on off ON GAP rest HON HGAP) in Hd. lia.
Qed.

Lemma increasing_snoc (l : list Z) (z : Z) :
  increasing l -> (forall d, In d l -> d < z) -> increasing (l ++ [z]).
Proof.
  induction 1 as [|x l Hs IH Hx]; intros Hlt; simpl.
  - constructor; constructor.
  - constructor.
    + apply IH. intros d Hd. apply Hlt. now right.
    + apply Forall_app. split; [assumption|].
      constructor; [|constructor]. apply Hlt. now left.
Qed.

Lemma pop_earliest_In {C : Type} (l : list (Timer C)) t rest :
  pop_earliest l = Some (t, rest) -> In t l.
Proof.
  revert t rest. induction l as [|x l IH]; intros t rest; simpl;
    [discriminate|].
  destruct (pop_earliest l) as [[u rest']|].
  - destruct (due u <? due x); intros [= <- <-].
    + right. eapply IH. reflexivity.
    + now left.
  - intros [= <- <-]. now left.
Qed.

Lemma pop_earliest_sorted {C : Type} (t : Timer C) (rest : list (Timer C)) :
  increasing (map due (t :: rest)) ->
  pop_earliest (t :: rest) = Some (t, rest).
Proof.
  intros Hs. simpl.
  destruct (pop_earliest rest) as [[u rest']|] eqn:Hp.
  - apply pop_earliest_In in Hp.
    inversion Hs as [|? ? _ Hall]; subst.
    rewrite Forall_forall in Hall.
    assert (due t < due u) by (apply Hall, in_map, Hp).
    replace (due u <? due t) with false by (symmetry; apply Z.ltb_ge; lia).
    reflexivity.
  - destruct rest; [reflexivity|].
    simpl in Hp. destruct (pop_earliest rest) as [[? ?]|];
      [destruct (_ <? _)|]; discriminate.
Qed.

Lemma firing_order_sorted {C : Type} (l : list (Timer C)) :
  increasing (map due l) -> firing_order (length l) l = l.
Proof.
  induction l as [|t rest IH]; intros Hs; [reflexivity|].
  cbn [length firing_order]. rewrite (pop_earliest_sorted t rest Hs).
  f_equal. apply IH. now inversion Hs.
Qed.


Lemma CP_presentSeq_timeouts_slots arr :
  CentralPeripheralSpanTask.presentSeq_timeouts arr
  = slots (fun cell => CentralPeripheralSpanTask.SetLit (Some cell))
          (CentralPeripheralSpanTask.SetLit None) 600 400 0 arr
    ++ [(1000 * Z.of_nat (length arr),
         CentralPeripheralSpanTask.SetPhaseRespond)].
Proof.
  unfold CentralPeripheralSpanTask.presentSeq_timeouts.
  match goal with
  | |- (let '(t, calls) := ?f in _) = _ =>
      replace f
        with (0 + (600 + 400) * Z.of_nat (length arr),
              [] ++ slots
                (fun cell => CentralPeripheralSpanTask.SetLit (Some cell))
                (CentralPeripheralSpanTask.SetLit None) 600 400 0 arr)
        by (symmetry;
            exact (fold_slots
                     (fun cell =>
                        CentralPeripheralSpanTask.SetLit (Some cell))
                     (CentralPeripheralSpanTask.SetLit None)
                     600 400 arr 0 []))
  end.
  reflexivity.
Qed.

Lemma SB_presentSequence_timeouts_slots arr :
  SpamperceptionBlocks.presentSequence_timeouts arr
  = slots (fun cell => SpamperceptionBlocks.SetLitIdx (Some cell))
          (SpamperceptionBlocks.SetLitIdx None) 600 400 0 arr
    ++ [(1000 * Z.of_nat (length arr),
         SpamperceptionBlocks.Done (length arr))].
Proof.
  unfold SpamperceptionBlocks.presentSequence_timeouts.
  match goal with
  | |- (let '(t, calls) := ?f in _) = _ =>
      replace f
        with (0 + (600 + 400) * Z.of_nat (length arr),
              [] ++ slots
                (fun cell => SpamperceptionBlocks.SetLitIdx (Some cell))
                (SpamperceptionBlocks.SetLitIdx None) 600 400 0 arr)
        by (symmetry;
            exact (fold_slots
                     (fun cell => SpamperceptionBlocks.SetLitIdx (Some cell))
                     (SpamperceptionBlocks.SetLitIdx None)
                     600 400 arr 0 []))
  end.
  reflexivity.
Qed.

(** The shape of a presentation: [2n + 1] calls, element [k] lit at
    [1000 k] and unlit at [1000 k + 600], the last call at [1000 n]  *)
Lemma schedule_shape {C : Type} (on : nat -> C) (off last : C)
      (arr : list nat) :
  let n := length arr in
  let calls := slots on off 600 400 0 arr ++ [(1000 * Z.of_nat n, last)] in
  length calls = (2 * n + 1)%nat
  /\ (forall k cell,
         nth_error arr k = Some cell ->
         nth_error calls (2 * k) = Some (Z.of_nat k * 1000, on cell)
         /\ nth_error calls (2 * k + 1) = Some (Z.of_nat k * 1000 + 600, off))
  /\ nth_error calls (2 * n) = Some (Z.of_nat n * 1000, last)
  /\ increasing (map fst calls)
  /\ forall now,
      firing_order (2 * n + 1) (arm true now calls) = arm true now calls.
Proof.
  intros n calls.
  assert (Hlen : length calls = (2 * n + 1)%nat).
  { unfold calls. rewrite length_app, slots_length. reflexivity. }
  assert (Hinc : increasing (map fst calls)).
  { unfold calls. rewrite map_app. apply increasing_snoc.
    - apply slots_increasing; lia.
    - intros d Hd. apply slots_delays_bounds in Hd; [|lia|lia].
      unfold n. cbn [fst]. lia. }
  split; [exact Hlen|]. split; [|split; [|split; [exact Hinc|]]].
  - intros k cell Hk.
    assert (Hkn : (k < n)%nat) by (apply nth_error_Some; congruence).
    destruct (slots_nth on off 600 400 arr 0 k cell Hk) as [H1 H2].
    unfold calls. rewrite !nth_error_app1 by (rewrite slots_length; lia).
    rewrite H1, H2. split; do 2 f_equal; lia.
  - unfold calls. rewrite nth_error_app2 by (rewrite slots_length; lia).
    rewrite slots_length, Nat.sub_diag. cbn [nth_error].
    do 2 f_equal. lia.
  - intros now.
    replace (2 * n + 1)%nat with (length (arm true now calls))
      by (unfold arm; rewrite length_map; exact Hlen).
    apply firing_order_sorted.
    unfold arm. rewrite map_map.
    assert (Hmap : forall l : list (Z * C),
               increasing (map fst l) ->
               increasing (map (fun x => due (let '(delay, cb) := x in
                                              {| due := now + delay;
                                                 tracked := true;
                                                 callback := cb |})) l)).
    { induction l as [|[d c] l IH]; simpl; intros Hs; [constructor|].
      inversion Hs as [|? ? Hs' Hall]; subst.
      constructor; [apply IH, Hs'|].
      rewrite Forall_map in *. eapply Forall_impl; [|exact Hall].
      intros [d' c']. simpl. lia. }
    apply Hmap, Hinc.
Qed.

Lemma CP_presentSeq_timers arr now st :
  CentralPeripheralSpanTask.timers
    (CentralPeripheralSpanTask.presentSeq arr now st)
  = CentralPeripheralSpanTask.timers st
    ++ arm true now (CentralPeripheralSpanTask.presentSeq_timeouts arr).
Proof.
  unfold CentralPeripheralSpanTask.presentSeq.
  change (CentralPeripheralSpanTask.timers st)
    with (CentralPeripheralSpanTask.timers
            (CentralPeripheralSpanTask.set_phase
               CentralPeripheralSpanTask.present st)).
  generalize (CentralPeripheralSpanTask.set_phase
                CentralPeripheralSpanTask.present st).
  induction (CentralPeripheralSpanTask.presentSeq_timeouts arr)
    as [|[d c] l IH]; intros s; simpl.
  - now rewrite app_nil_r.
  - rewrite IH. simpl. rewrite <- app_assoc. reflexivity.
Qed.

Lemma SB_presentSequence_timers arr now st :
  SpamperceptionBlocks.timers
    (SpamperceptionBlocks.presentSequence arr now st)
  = SpamperceptionBlocks.timers st
    ++ arm true now (SpamperceptionBlocks.presentSequence_timeouts arr).
Proof.
  unfold SpamperceptionBlocks.presentSequence. cbv zeta.
  change (SpamperceptionBlocks.timers st)
    with (SpamperceptionBlocks.timers
            (SpamperceptionBlocks.set_replayPos 0
               (SpamperceptionBlocks.set_responseStart None
                  (SpamperceptionBlocks.set_phase
                     SpamperceptionBlocks.present st)))).
  generalize (SpamperceptionBlocks.set_replayPos 0
               (SpamperceptionBlocks.set_responseStart None
                  (SpamperceptionBlocks.set_phase
                     SpamperceptionBlocks.present st))).
  induction (SpamperceptionBlocks.presentSequence_timeouts arr)
    as [|[d c] l IH]; intros s; simpl.
  - now rewrite app_nil_r.
  - rewrite IH. simpl. rewrite <- app_assoc. reflexivity.
Qed.

(** C9.  With ON_MS = 600 and GAP_MS = 400, presenting a sequence of [n]
    cells makes [2n + 1] [setTimeout] calls: element [k] (from 0) is lit
    at delay [1000 k] and unlit at [1000 k + 600], and the respond phase
    is set at delay [1000 n].  The delays increase strictly in program
    order, so the timers fire in that order. *)
Theorem C9_presentation_schedule :
  CentralPeripheralSpanTask.ON_MS = 600
  /\ CentralPeripheralSpanTask.GAP_MS = 400
  /\ SpamperceptionBlocks.ON_MS = 600
  /\ SpamperceptionBlocks.GAP_MS = 400
  /\ (forall arr,
         let n := length arr in
         let calls := CentralPeripheralSpanTask.presentSeq_timeouts arr in
         length calls = (2 * n + 1)%nat
         /\ (forall k cell,
                nth_error arr k = Some cell ->
                nth_error calls (2 * k)
                = Some (Z.of_nat k * 1000,
                        CentralPeripheralSpanTask.SetLit (Some cell))
                /\ nth_error calls (2 * k + 1)
                   = Some (Z.of_nat k * 1000 + 600,
                           CentralPeripheralSpanTask.SetLit None))
         /\ nth_error calls (2 * n)
            = Some (Z.of_nat n * 1000,
                    CentralPeripheralSpanTask.SetPhaseRespond)
         /\ increasing (map fst calls)
         /\ forall now st,
             CentralPeripheralSpanTask.timers
               (CentralPeripheralSpanTask.presentSeq arr now st)
             = CentralPeripheralSpanTask.timers st ++ arm true now calls
             /\ firing_order (2 * n + 1) (arm true now calls)
                = arm true now calls)
  /\ (forall arr,
         let n := length arr in
         let calls := SpamperceptionBlocks.presentSequence_timeouts arr in
         length calls = (2 * n + 1)%nat
         /\ (forall k cell,
                nth_error arr k = Some cell ->
                nth_error calls (2 * k)
                = Some (Z.of_nat k * 1000,
                        SpamperceptionBlocks.SetLitIdx (Some cell))
                /\ nth_error calls (2 * k + 1)
                   = Some (Z.of_nat k * 1000 + 600,
                           SpamperceptionBlocks.SetLitIdx None))
         /\ nth_error calls (2 * n)
            = Some (Z.of_nat n * 1000, SpamperceptionBlocks.Done n)
         /\ increasing (map fst calls)
         /\ forall now st,
             SpamperceptionBlocks.timers
               (SpamperceptionBlocks.presentSequence arr now st)
             = SpamperceptionBlocks.timers st ++ arm true now calls
             /\ firing_order (2 * n + 1) (arm true now calls)
                = arm true now calls).
Proof.
  do 4 (split; [reflexivity|]). split.
  - intros arr n calls. unfold calls.
    rewrite CP_presentSeq_timeouts_slots.
    destruct (schedule_shape
                (fun cell => CentralPeripheralSpanTask.SetLit (Some cell))
                (CentralPeripheralSpanTask.SetLit None)
                CentralPeripheralSpanTask.SetPhaseRespond arr)
      as (H1 & H2 & H3 & H4 & H5).
    split; [exact H1|]. split; [exact H2|]. split; [exact H3|].
    split; [exact H4|]. intros now st. split; [|apply H5].
    rewrite CP_presentSeq_timers, CP_presentSeq_timeouts_slots.
    reflexivity.
  - intros arr n calls. unfold calls.
    rewrite SB_presentSequence_timeouts_slots.
    destruct (schedule_shape
                (fun cell => SpamperceptionBlocks.SetLitIdx (Some cell))
                (SpamperceptionBlocks.SetLitIdx None)
                (SpamperceptionBlocks.Done (length arr)) arr)
      as (H1 & H2 & H3 & H4 & H5).
    split; [exact H1|]. split; [exact H2|]. split; [exact H3|].
    split; [exact H4|]. intros now st. split; [|apply H5].
    rewrite SB_presentSequence_timers, SB_presentSequence_timeouts_slots.
    reflexivity.
Qed.
End Presentation.

(** ** The span task runs one trial at a time *)

Section CPInvariant.
Import Props SpanTaskProps Scheduler CentralPeripheralSpanTask.

Lemma pop_earliest_count {C : Type} (p : Scheduler.Timer C -> bool) :
  forall l t rest,
    pop_earliest l = Some (t, rest) ->
    length (filter p l)
    = ((if p t then 1 else 0) + length (filter p rest))%nat.
Proof.
  induction l as [|x l IH]; intros t rest; simpl; [discriminate|].
  destruct (pop_earliest l) as [[u rest']|] eqn:Hp.
  - destruct (due u <? due x); intros [= <- <-].
    + specialize (IH u rest' eq_refl). simpl.
      destruct (p x); simpl; rewrite IH; lia.
    + destruct (p x); reflexivity.
  - intros [= <- <-]. destruct l; [|simpl in Hp;
      destruct (pop_earliest l) as [[? ?]|]; [destruct (_ <? _)|];
      discriminate].
    simpl. destruct (p x); reflexivity.
Qed.

Lemma Phase_eqb_eq a b : Phase_eqb a b = true <-> a = b.
Proof. destruct a, b; simpl; split; congruence. Qed.

Lemma armed_slots now t0 arr :
  filter armed
    (arm true now
       (slots (fun cell => SetLit (Some cell)) (SetLit None) 600 400 t0 arr))
  = [].
Proof.
  revert t0. induction arr as [|c rest IH]; intros t0; [reflexivity|].
  cbn [slots arm map filter armed callback]. apply IH.
Qed.

Lemma pendingTrials_presentSeq arr now st :
  pendingTrials (presentSeq arr now st) = S (pendingTrials st).
Proof.
  unfold pendingTrials. rewrite CP_presentSeq_timers.
  rewrite CP_presentSeq_timeouts_slots.
  unfold arm. rewrite map_app, !filter_app. fold (arm (C:=Callback)).
  rewrite !length_app.
  change (map _ (slots ?a ?b ?c ?d ?e ?f)) with (arm true now (slots a b c d e f)).
  rewrite armed_slots. simpl. lia.
Qed.

Lemma presentSeq_phase arr now st : phase (presentSeq arr now st) = present.
Proof.
  unfold presentSeq.
  assert (H : forall l s, phase (fold_left
                (fun st '(delay, cb) => setTimeout true now cb delay st) l s)
              = phase s).
  { induction l as [|[d c] l IH]; intros s; simpl; [reflexivity|].
    now rewrite IH. }
  now rewrite H.
Qed.

Lemma presentSeq_running arr now st :
  running (presentSeq arr now st) = running st.
Proof.
  unfold presentSeq.
  assert (H : forall l s, running (fold_left
                (fun st '(delay, cb) => setTimeout true now cb delay st) l s)
              = running s).
  { induction l as [|[d c] l IH]; intros s; simpl; [reflexivity|].
    now rewrite IH. }
  now rewrite H.
Qed.

Lemma presentSeq_replayPos arr now st :
  replayPos (presentSeq arr now st) = replayPos st.
Proof.
  unfold presentSeq.
  assert (H : forall l s, replayPos (fold_left
                (fun st '(delay, cb) => setTimeout true now cb delay st) l s)
              = replayPos s).
  { induction l as [|[d c] l IH]; intros s; simpl; [reflexivity|].
    now rewrite IH. }
  now rewrite H.
Qed.

Lemma one_trial_initial : one_trial initial.
Proof. unfold one_trial, pendingTrials. simpl. repeat split; auto; lia. Qed.

Lemma one_trial_start now st :
  running st = false -> one_trial st -> one_trial (start now st).
Proof.
  intros Hrun (_ & _ & Hidle). destruct (Hidle Hrun) as [Hc _].
  unfold one_trial, pendingTrials in *. simpl.
  rewrite filter_app, length_app. simpl.
  assert (Hsub : length (filter armed
                           (filter (fun t => negb (tracked t)) (timers st)))
                 = 0%nat).
  { apply Nat.le_0_r. rewrite <- Hc.
    clear. induction (timers st) as [|t l IH]; simpl; [lia|].
    destruct (tracked t); simpl; destruct (armed t); simpl; lia. }
  rewrite Hsub. simpl. repeat split; try lia; discriminate.
Qed.

Lemma one_trial_finishTrial ok now st :
  phase st = respond -> one_trial st -> one_trial (finishTrial ok now st).
Proof.
  intros Hph (Hle & Hresp & Hidle). specialize (Hresp Hph).
  assert (Hrun : running st = true).
  { destruct (running st) eqn:Hr; [reflexivity|].
    destruct (Hidle eq_refl) as [_ Hi]. congruence. }
  unfold finishTrial.
  destruct (SEQS_PER_BLOCK <=? trialIdx st + 1)%nat;
    [destruct (length BLOCKS <=? blockIdx st + 1)%nat|];
    unfold one_trial, pendingTrials in *; simpl;
    rewrite ?filter_app, ?length_app; simpl; rewrite ?Hresp, ?Hrun;
    repeat split; try lia; try discriminate; auto.
Qed.

Lemma one_trial_onCellClick cell now st :
  one_trial st -> one_trial (onCellClick cell now st).
Proof.
  intros Hinv. unfold onCellClick.
  destruct (Phase_eqb (phase st) respond) eqn:Hph; simpl; [|assumption].
  apply Phase_eqb_eq in Hph.
  set (st1 := set_logs _ st).
  assert (Hinv1 : one_trial st1) by exact Hinv.
  assert (Hph1 : phase st1 = respond) by exact Hph.
  destruct (matches cell st).
  - case_if.
    + now apply one_trial_finishTrial.
    + exact Hinv1.
  - now apply one_trial_finishTrial.
Qed.

Lemma one_trial_fire draws st st' :
  fire draws st = Some st' -> one_trial st -> one_trial st'.
Proof.
  unfold fire. destruct (pop_earliest (timers st)) as [[t rest]|] eqn:Hp;
    [|discriminate].
  intros Hfire (Hle & Hresp & Hidle).
  pose proof (pop_earliest_count armed _ _ _ Hp) as Hc.
  assert (Hc' : pendingTrials st
                = ((match callback t with
                    | SetLit _ => 0
                    | _ => 1
                    end) + pendingTrials (set_timers rest st))%nat).
  { etransitivity; [exact Hc|]. unfold armed at 1.
    destruct (callback t); reflexivity. }
  clear Hc. rename Hc' into Hc.
  destruct (callback t) as [cell| |len] eqn:Hcb.
  - injection Hfire as <-.
    unfold one_trial.
    change (pendingTrials (set_lit cell (set_timers rest st)))
      with (pendingTrials (set_timers rest st)).
    change (phase (set_lit cell (set_timers rest st))) with (phase st).
    change (running (set_lit cell (set_timers rest st))) with (running st).
    simpl in Hc. rewrite <- Hc. auto.
  - injection Hfire as <-.
    assert (Hrun : running st = true).
    { destruct (running st) eqn:Hr; [reflexivity|].
      destruct (Hidle eq_refl) as [H0 _]. lia. }
    unfold one_trial.
    change (pendingTrials (set_phase respond (set_timers rest st)))
      with (pendingTrials (set_timers rest st)).
    change (running (set_phase respond (set_timers rest st)))
      with (running st).
    split; [lia|]. split; [intros _; lia|]. intros Hr. congruence.
  - unfold startTrial in Hfire.
    destruct (randSeq _ _ _) as [arr| |]; try discriminate.
    injection Hfire as <-.
    assert (Hrun : running st = true).
    { destruct (running st) eqn:Hr; [reflexivity|].
      destruct (Hidle eq_refl) as [H0 _]. lia. }
    unfold one_trial.
    rewrite pendingTrials_presentSeq, presentSeq_phase, presentSeq_running.
    change (pendingTrials (set_seq arr (set_timers rest st)))
      with (pendingTrials (set_timers rest st)).
    change (running (set_seq arr (set_timers rest st))) with (running st).
    split; [lia|]. split; [discriminate|]. intros Hr. congruence.
Qed.

Lemma one_trial_step inp st st' :
  step inp st = Some st' -> one_trial st -> one_trial st'.
Proof.
  destruct inp as [now|cell now|draws]; simpl.
  - destruct (running st) eqn:Hrun; [discriminate|].
    intros [= <-]. now apply one_trial_start.
  - intros [= <-]. apply one_trial_onCellClick.
  - apply one_trial_fire.
Qed.

Lemma one_trial_run inputs :
  forall st st', run inputs st = Some st' -> one_trial st -> one_trial st'.
Proof.
  induction inputs as [|inp rest IH]; intros st st'; simpl.
  - intros [= <-]. auto.
  - destruct (step inp st) as [st1|] eqn:Hs; [|discriminate].
    intros Hr Hinv. eapply IH; [exact Hr|].
    eapply one_trial_step; eassumption.
Qed.
End CPInvariant.

(** ** Span length update *)

Section Span.
Import Props.

Lemma SB_presentSequence_seqLen arr now st :
  SpamperceptionBlocks.seqLen (SpamperceptionBlocks.presentSequence arr now st)
  = SpamperceptionBlocks.seqLen st
  /\ SpamperceptionBlocks.seq (SpamperceptionBlocks.presentSequence arr now st)
     = SpamperceptionBlocks.seq st
  /\ SpamperceptionBlocks.replayPos
       (SpamperceptionBlocks.presentSequence arr now st) = 0%nat
  /\ SpamperceptionBlocks.phase
       (SpamperceptionBlocks.presentSequence arr now st)
     = SpamperceptionBlocks.present.
Proof.
  unfold SpamperceptionBlocks.presentSequence. cbv zeta.
  set (s0 := SpamperceptionBlocks.set_replayPos 0 _).
  assert (H : forall l s,
             let s' := fold_left
                         (fun st '(delay, cb) =>
                            SpamperceptionBlocks.setTimeout true now cb delay st)
                         l s in
             SpamperceptionBlocks.seqLen s' = SpamperceptionBlocks.seqLen s
             /\ SpamperceptionBlocks.seq s' = SpamperceptionBlocks.seq s
             /\ SpamperceptionBlocks.replayPos s'
                = SpamperceptionBlocks.replayPos s
             /\ SpamperceptionBlocks.phase s' = SpamperceptionBlocks.phase s).
  { induction l as [|[d c] l IH]; intros s; simpl; [auto|].
    destruct (IH (SpamperceptionBlocks.setTimeout true now c d s))
      as (H1 & H2 & H3 & H4).
    rewrite H1, H2, H3, H4. auto. }
  destruct (H (SpamperceptionBlocks.presentSequence_timeouts arr) s0)
    as (H1 & H2 & H3 & H4).
  rewrite H1, H2, H3, H4. auto.
Qed.

Lemma nextLen_spec (len : Z) (ok : bool) :
  CentralPeripheralSpanTask.nextLen len ok = Spec.nextLength len ok.
Proof.
  unfold CentralPeripheralSpanTask.nextLen, Spec.nextLength, Spec.clamp,
    CentralPeripheralSpanTask.MIN_LEN, CentralPeripheralSpanTask.MAX_LEN.
  destruct ok;
    repeat case_ltb; lia.
Qed.

Lemma clamp_spec (len : Z) (ok : bool) :
  SpamperceptionBlocks.clamp (len + (if ok then 1 else -1))
    SpamperceptionBlocks.MIN_LEN SpamperceptionBlocks.MAX_LEN
  = Spec.nextLength len ok.
Proof.
  unfold SpamperceptionBlocks.clamp, Spec.nextLength, Spec.clamp,
    SpamperceptionBlocks.MIN_LEN, SpamperceptionBlocks.MAX_LEN.
  destruct ok;
    repeat case_ltb; lia.
Qed.

(** C4.  Both span tasks compute the next length as
    clamp(currentLength + (correct ? +1 : -1), 2, 7); inside a block
    [finishTrial] stores that length and the next trial is started with
    it.  From 3, five correct trials give 3, 4, 5, 6, 7, 7; from 7, six
    incorrect trials give 7, 6, 5, 4, 3, 2, 2. *)
Theorem C4_span_length_update :
  (forall len ok,
      CentralPeripheralSpanTask.nextLen len ok = Spec.nextLength len ok)
  /\ (forall (len : Z) (ok : bool),
         SpamperceptionBlocks.clamp (len + (if ok then 1 else -1))
           SpamperceptionBlocks.MIN_LEN SpamperceptionBlocks.MAX_LEN
         = Spec.nextLength len ok)
  /\ (forall ok now st,
         (CentralPeripheralSpanTask.trialIdx st + 1
          < CentralPeripheralSpanTask.SEQS_PER_BLOCK)%nat ->
         let st' := CentralPeripheralSpanTask.finishTrial ok now st in
         let next :=
           Spec.nextLength (CentralPeripheralSpanTask.seqLen st) ok in
         CentralPeripheralSpanTask.seqLen st' = next
         /\ CentralPeripheralSpanTask.timers st'
            = CentralPeripheralSpanTask.timers st
              ++ Scheduler.arm false now
                   [(600, CentralPeripheralSpanTask.StartTrial next)])
  /\ (forall ok draws now st st',
         (SpamperceptionBlocks.trialIdx st + 1
          < SpamperceptionBlocks.SEQS_PER_BLOCK)%nat ->
         SpamperceptionBlocks.finishTrial ok draws now st = Some st' ->
         let next := Spec.nextLength (SpamperceptionBlocks.seqLen st) ok in
         SpamperceptionBlocks.seqLen st' = next
         /\ Z.of_nat (length (SpamperceptionBlocks.seq st')) = next)
  /\ lengths CentralPeripheralSpanTask.nextLen 3 (repeat true 5)
     = [3; 4; 5; 6; 7; 7]
  /\ lengths CentralPeripheralSpanTask.nextLen 7 (repeat false 6)
     = [7; 6; 5; 4; 3; 2; 2]
  /\ lengths (fun (len : Z) (ok : bool) =>
                SpamperceptionBlocks.clamp (len + (if ok then 1 else -1))
                  SpamperceptionBlocks.MIN_LEN SpamperceptionBlocks.MAX_LEN)
             3 (repeat true 5)
     = [3; 4; 5; 6; 7; 7]
  /\ lengths (fun (len : Z) (ok : bool) =>
                SpamperceptionBlocks.clamp (len + (if ok then 1 else -1))
                  SpamperceptionBlocks.MIN_LEN SpamperceptionBlocks.MAX_LEN)
             7 (repeat false 6)
     = [7; 6; 5; 4; 3; 2; 2].
Proof.
  split; [exact nextLen_spec|]. split; [exact clamp_spec|].
  split; [|split; [|repeat split; reflexivity]].
  - intros ok now st Hidx st' next. unfold st', next.
    rewrite <- nextLen_spec.
    unfold CentralPeripheralSpanTask.finishTrial.
    replace (CentralPeripheralSpanTask.SEQS_PER_BLOCK
             <=? CentralPeripheralSpanTask.trialIdx st + 1)%nat
      with false by (symmetry; apply Nat.leb_gt; exact Hidx).
    split; reflexivity.
  - intros ok draws now st st' Hidx Hfin next. unfold next.
    rewrite <- clamp_spec.
    unfold SpamperceptionBlocks.finishTrial in Hfin.
    destruct (SpamperceptionBlocks.lookup _ _) as [ms|]; [|discriminate].
    cbv zeta in Hfin.
    match type of Hfin with
    | context [(SpamperceptionBlocks.SEQS_PER_BLOCK <=? ?x)%nat] =>
        replace (SpamperceptionBlocks.SEQS_PER_BLOCK <=? x)%nat
          with false in Hfin by (symmetry; apply Nat.leb_gt; exact Hidx)
    end.
    unfold SpamperceptionBlocks.startTrial in Hfin.
    destruct (SpamperceptionBlocks.randUniqueSeq _ draws) as [arr| |] eqn:Hr;
      try discriminate.
    injection Hfin as <-.
    match goal with
    | |- context [SpamperceptionBlocks.presentSequence ?a ?n ?s] =>
        destruct (SB_presentSequence_seqLen a n s) as (H1 & H2 & _)
    end.
    split.
    + etransitivity; [exact H1|]. reflexivity.
    + etransitivity; [rewrite H2; reflexivity|].
      simpl SpamperceptionBlocks.seq.
      apply (randUniqueSeq_returned _ draws arr); [|exact Hr].
      rewrite clamp_spec. unfold Spec.nextLength, Spec.clamp.
      repeat case_ltb; lia.
Qed.
End Span.

(** ** SpamperceptionBlocks tallies every click *)

Section Tally.
Import SpamperceptionBlocks BlocksProps.

Lemma Mode_eqb_eq a b : Mode_eqb a b = true <-> a = b.
Proof. destruct a, b; simpl; split; congruence. Qed.

Lemma lookup_store m k v d :
  lookup m (store k v d) = if Mode_eqb k m then Some v else lookup m d.
Proof.
  induction d as [|[k' w] d IH]; simpl.
  - destruct (Mode_eqb k m); reflexivity.
  - destruct (Mode_eqb k' k) eqn:Hk; simpl.
    + apply Mode_eqb_eq in Hk. subst k'.
      destruct (Mode_eqb k m); reflexivity.
    + rewrite IH. destruct (Mode_eqb k' m) eqn:Hm; [|reflexivity].
      apply Mode_eqb_eq in Hm. subst k'.
      destruct (Mode_eqb k m) eqn:Hkm; [|reflexivity].
      apply Mode_eqb_eq in Hkm. subst k.
      destruct m; discriminate.
Qed.


Lemma presentSequence_stats arr now st :
  stats (presentSequence arr now st) = stats st.
Proof.
  unfold presentSequence. cbv zeta.
  assert (H : forall l s,
             stats (fold_left
                      (fun st '(delay, cb) => setTimeout true now cb delay st)
                      l s) = stats s).
  { induction l as [|[d c] l IH]; intros s; simpl; [reflexivity|].
    now rewrite IH. }
  now rewrite H.
Qed.

Lemma startTrial_stats len draws now st st' :
  startTrial len draws now st = Some st' -> stats st' = stats st.
Proof.
  unfold startTrial. destruct (randUniqueSeq len draws); try discriminate.
  intros [= <-]. now rewrite presentSequence_stats.
Qed.







End Tally.

(** ** Response matching and ignored clicks *)

Section Matching.

Lemma CP_replayPos_never_reset inp st st' :
  CentralPeripheralSpanTask.step inp st = Some st' ->
  (CentralPeripheralSpanTask.replayPos st
   <= CentralPeripheralSpanTask.replayPos st')%nat.
Proof.
  destruct inp as [now|cell now|draws]; simpl.
  - destruct (CentralPeripheralSpanTask.running st); [discriminate|].
    intros [= <-]. simpl. lia.
  - intros [= <-]. unfold CentralPeripheralSpanTask.onCellClick.
    destruct (negb _); [lia|]. cbv zeta.
    destruct (CentralPeripheralSpanTask.matches cell st).
    + case_if.
      * unfold CentralPeripheralSpanTask.finishTrial.
        repeat case_if; simpl; lia.
      * simpl. lia.
    + unfold CentralPeripheralSpanTask.finishTrial.
      repeat case_if; simpl; lia.
  - unfold CentralPeripheralSpanTask.fire.
    destruct (Scheduler.pop_earliest _) as [[t rest]|]; [|discriminate].
    destruct (Scheduler.callback t) as [c| |len].
    + intros [= <-]. simpl. lia.
    + intros [= <-]. simpl. lia.
    + unfold CentralPeripheralSpanTask.startTrial.
      destruct (CentralPeripheralSpanTask.randSeq _ _ _); try discriminate.
      intros [= <-]. rewrite presentSeq_replayPos. simpl. lia.
Qed.

(** C2, at the failing input.  In Central-PeripheralSpanTask the replay
    position is never reset.  After a first trial answered correctly the
    second trial, on [33; 34; 35; 36], opens at position 2: the click on
    33, the first cell of the sequence, is logged as incorrect at position
    2 and ends the trial. *)
Lemma C2_second_trial_replayed_from_stale_position :
  match CentralPeripheralSpanTask.run SpanTaskProps.secondTrialShown
          CentralPeripheralSpanTask.initial with
  | Some st =>
      CentralPeripheralSpanTask.phase st = CentralPeripheralSpanTask.respond
      /\ CentralPeripheralSpanTask.seq st = [33; 34; 35; 36]%nat
      /\ CentralPeripheralSpanTask.seqLen st = 4
      /\ CentralPeripheralSpanTask.replayPos st = 2%nat
      /\ let st' := CentralPeripheralSpanTask.onCellClick 33 9000 st in
         CentralPeripheralSpanTask.phase st'
         = CentralPeripheralSpanTask.between
         /\ CentralPeripheralSpanTask.seqLen st' = 3
         /\ last (CentralPeripheralSpanTask.logs st')
                 {| CentralPeripheralSpanTask.ts := 0;
                    CentralPeripheralSpanTask.i := 0%nat;
                    CentralPeripheralSpanTask.correct := true;
                    CentralPeripheralSpanTask.block := None;
                    CentralPeripheralSpanTask.pos := 0%nat |}
            = {| CentralPeripheralSpanTask.ts := 9000;
                 CentralPeripheralSpanTask.i := 33%nat;
                 CentralPeripheralSpanTask.correct := false;
                 CentralPeripheralSpanTask.block :=
                   Some CentralPeripheralSpanTask.central;
                 CentralPeripheralSpanTask.pos := 2%nat |}
  | None => False
  end.
Proof. vm_compute. repeat split. Qed.

Lemma SB_example_sequences :
  match SpamperceptionBlocks.run BlocksProps.firstTrialShown
          SpamperceptionBlocks.initial with
  | Some st =>
      SpamperceptionBlocks.phase st = SpamperceptionBlocks.respond
      /\ SpamperceptionBlocks.seq st = [4; 17; 82]%nat
      /\ SpamperceptionBlocks.replayPos st = 0%nat
      /\ match SpamperceptionBlocks.run
                 [SpamperceptionBlocks.Click 4 500 4000 [];
                  SpamperceptionBlocks.Click 17 900 4400 [];
                  SpamperceptionBlocks.Click 82 1300 4800 [1; 2; 3; 4]%nat]
                 st with
         | Some st' =>
             BlocksProps.trialsOf SpamperceptionBlocks.digits st' = [(3%nat, true)]
             /\ SpamperceptionBlocks.seqLen st' = 4
             /\ SpamperceptionBlocks.replayPos st' = 0%nat
         | None => False
         end
      /\ match SpamperceptionBlocks.run
                 [SpamperceptionBlocks.Click 4 500 4000 [];
                  SpamperceptionBlocks.Click 99 900 4400 [1; 2]%nat] st,
               SpamperceptionBlocks.run
                 [SpamperceptionBlocks.Click 4 500 4000 [];
                  SpamperceptionBlocks.Click 99 900 4400 [1; 2]%nat;
                  SpamperceptionBlocks.Click 82 1300 4800 []] st
         with
         | Some st', Some st'' =>
             BlocksProps.trialsOf SpamperceptionBlocks.digits st' = [(3%nat, false)]
             /\ map (fun e => (SpamperceptionBlocks.pos e,
                               SpamperceptionBlocks.correct e))
                    (SpamperceptionBlocks.trialLog st')
                = [(0%nat, true); (1%nat, false)]
             /\ SpamperceptionBlocks.seqLen st' = 2
             /\ st'' = st'
         | _, _ => False
         end
  | None => False
  end.
Proof. vm_compute. repeat split. Qed.

Lemma Phase_eqb_neq a b :
  a <> b -> CentralPeripheralSpanTask.Phase_eqb a b = false.
Proof. destruct a, b; simpl; congruence. Qed.

Lemma SB_Phase_eqb_neq a b :
  a <> b -> SpamperceptionBlocks.Phase_eqb a b = false.
Proof. destruct a, b; simpl; congruence. Qed.

(** C8.  A click while the game is not running (go/no-go and five-target
    games), or while the phase of a span task is not "respond", leaves the
    whole state as it is, emitted events included.  A span task that is
    not running ignores clicks too: Central-PeripheralSpanTask is then
    idle in every reachable state, and the cell buttons of
    SpamperceptionBlocks are disabled. *)
Theorem C8_clicks_while_stopped_or_not_responding_ignored :
  (forall cell now dist st,
      GoNoGo.running st = false ->
      ColorReactionGame.onCellClick cell now dist st = st)
  /\ (forall cell now st,
         GoNoGo.running st = false ->
         ColorReactionGameEdges.onCellClick cell now st = st)
  /\ (forall cell now perfNow dist st,
         FiveTargetReactionGame.running st = false ->
         FiveTargetReactionGame.onCellClick cell now perfNow dist st = st)
  /\ (forall cell now st,
         CentralPeripheralSpanTask.phase st
         <> CentralPeripheralSpanTask.respond ->
         CentralPeripheralSpanTask.onCellClick cell now st = st)
  /\ (forall inputs st cell now,
         CentralPeripheralSpanTask.run inputs
           CentralPeripheralSpanTask.initial = Some st ->
         CentralPeripheralSpanTask.running st = false ->
         CentralPeripheralSpanTask.onCellClick cell now st = st)
  /\ (forall cell nowPerf now draws st,
         SpamperceptionBlocks.phase st <> SpamperceptionBlocks.respond ->
         SpamperceptionBlocks.onCellClick cell nowPerf now draws st
         = Some st)
  /\ (forall cell nowPerf now draws st,
         SpamperceptionBlocks.running st = false ->
         SpamperceptionBlocks.step
           (SpamperceptionBlocks.Click cell nowPerf now draws) st
         = Some st).
Proof.
  repeat match goal with |- _ /\ _ => split end.
  - intros cell now dist st H. unfold ColorReactionGame.onCellClick.
    now rewrite H.
  - intros cell now st H. unfold ColorReactionGameEdges.onCellClick.
    now rewrite H.
  - intros cell now perfNow dist st H.
    unfold FiveTargetReactionGame.onCellClick. now rewrite H.
  - intros cell now st H. unfold CentralPeripheralSpanTask.onCellClick.
    now rewrite (Phase_eqb_neq _ _ H).
  - intros inputs st cell now Hrun Hstop.
    pose proof (one_trial_run inputs _ _ Hrun one_trial_initial)
      as (_ & _ & Hidle).
    destruct (Hidle Hstop) as [_ Hph].
    unfold CentralPeripheralSpanTask.onCellClick. now rewrite Hph.
  - intros cell nowPerf now draws st H.
    unfold SpamperceptionBlocks.onCellClick.
    now rewrite (SB_Phase_eqb_neq _ _ H).
  - intros cell nowPerf now draws st H. simpl.
    unfold SpamperceptionBlocks.cellDisabled. now rewrite H.
Qed.

(** C10.  In the five-target game a click on a cell whose target has
    already been clicked changes nothing: counters, lists, clicked count,
    set counter, stimuli, pending set and emitted events are as before. *)
Theorem C10_click_on_clicked_target_is_noop :
  forall cellIdx now perfNow distPx st stim,
    find (fun s => Nat.eqb (FiveTargetReactionGame.idx s) cellIdx)
         (FiveTargetReactionGame.stimuli st) = Some stim ->
    FiveTargetReactionGame.clicked stim = true ->
    FiveTargetReactionGame.onCellClick cellIdx now perfNow distPx st = st
    /\ FiveTargetReactionGame.step
         (FiveTargetReactionGame.Click cellIdx now perfNow distPx) st = st.
Proof.
  intros cellIdx now perfNow distPx st stim Hfind Hclicked.
  assert (H : FiveTargetReactionGame.onCellClick cellIdx now perfNow distPx st
              = st).
  { unfold FiveTargetReactionGame.onCellClick.
    destruct (negb (FiveTargetReactionGame.running st)); [reflexivity|].
    now rewrite Hfind, Hclicked. }
  split; [exact H|exact H].
Qed.
End Matching.

(** ** The span tasks, click by click *)

Section ClickByClick.

(** Central-PeripheralSpanTask, one click in the respond phase: the click
    is logged as correct exactly when it is the cell at the replay
    position; a correct click before the last position moves the position
    by one and nothing else; any other click ends the trial through
    [finishTrial], after which the phase is no longer "respond". *)
Lemma CP_click_in_respond cell now st :
  CentralPeripheralSpanTask.phase st = CentralPeripheralSpanTask.respond ->
  let p := CentralPeripheralSpanTask.replayPos st in
  let ok := CentralPeripheralSpanTask.matches cell st in
  let st' := CentralPeripheralSpanTask.onCellClick cell now st in
  let logged :=
    CentralPeripheralSpanTask.set_logs
      (CentralPeripheralSpanTask.logs st
       ++ [{| CentralPeripheralSpanTask.ts := now;
              CentralPeripheralSpanTask.i := cell;
              CentralPeripheralSpanTask.correct := ok;
              CentralPeripheralSpanTask.block :=
                nth_error CentralPeripheralSpanTask.BLOCKS
                          (CentralPeripheralSpanTask.blockIdx st);
              CentralPeripheralSpanTask.pos := p |}]) st in
  (ok = true <-> nth_error (CentralPeripheralSpanTask.seq st) p = Some cell)
  /\ if ok && (p + 1 <? length (CentralPeripheralSpanTask.seq st))%nat
     then st' = CentralPeripheralSpanTask.set_replayPos (p + 1) logged
     else st' = CentralPeripheralSpanTask.finishTrial ok now logged
          /\ CentralPeripheralSpanTask.phase st'
             <> CentralPeripheralSpanTask.respond.
Proof.
  intros Hph p ok st' logged. split.
  - unfold ok, CentralPeripheralSpanTask.matches. fold p.
    destruct (nth_error (CentralPeripheralSpanTask.seq st) p) as [e|].
    + rewrite Nat.eqb_eq. split; [now intros ->|now intros [= ->]].
    + split; discriminate.
  - assert (Hst' : st' = if ok
                         then if (length (CentralPeripheralSpanTask.seq st)
                                  <=? p + 1)%nat
                              then CentralPeripheralSpanTask.finishTrial
                                     true now logged
                              else CentralPeripheralSpanTask.set_replayPos
                                     (p + 1) logged
                         else CentralPeripheralSpanTask.finishTrial
                                false now logged).
    { unfold st', CentralPeripheralSpanTask.onCellClick.
      rewrite Hph. reflexivity. }
    assert (Hfin : forall b,
               CentralPeripheralSpanTask.phase
                 (CentralPeripheralSpanTask.finishTrial b now logged)
               <> CentralPeripheralSpanTask.respond).
    { intros b. unfold CentralPeripheralSpanTask.finishTrial.
      repeat case_if; simpl; discriminate. }
    rewrite Hst'. destruct ok; simpl.
    + rewrite Nat.ltb_antisym.
      destruct (length (CentralPeripheralSpanTask.seq st) <=? p + 1)%nat;
        simpl; [split; [reflexivity|apply Hfin]|reflexivity].
    + split; [reflexivity|apply Hfin].
Qed.


Lemma Mode_eqb_refl m : SpamperceptionBlocks.Mode_eqb m m = true.
Proof. now destruct m. Qed.

Lemma SB_finishTrial_effect ok draws now st ms st' :
  SpamperceptionBlocks.lookup (SpamperceptionBlocks.mode st)
    (SpamperceptionBlocks.stats st) = Some ms ->
  SpamperceptionBlocks.finishTrial ok draws now st = Some st' ->
  BlocksProps.trialsOf (SpamperceptionBlocks.mode st) st'
  = SpamperceptionBlocks.trials ms
    ++ [(length (SpamperceptionBlocks.seq st), ok)]
  /\ SpamperceptionBlocks.phase st' <> SpamperceptionBlocks.respond
  /\ (SpamperceptionBlocks.phase st' = SpamperceptionBlocks.present ->
      SpamperceptionBlocks.replayPos st' = 0%nat).
Proof.
  intros Hms. unfold SpamperceptionBlocks.finishTrial. rewrite Hms.
  cbv zeta.
  match goal with
  | |- context [(SpamperceptionBlocks.SEQS_PER_BLOCK <=? ?x)%nat] =>
      destruct (SpamperceptionBlocks.SEQS_PER_BLOCK <=? x)%nat
  end.
  - match goal with
    | |- context [(length SpamperceptionBlocks.MODES <=? ?x)%nat] =>
        destruct (length SpamperceptionBlocks.MODES <=? x)%nat
    end.
    + destruct (SpamperceptionBlocks.buildReport _ _); [|discriminate].
      intros [= <-]. unfold BlocksProps.trialsOf.
      cbn [SpamperceptionBlocks.stats SpamperceptionBlocks.emitScore
           SpamperceptionBlocks.set_blockIdx SpamperceptionBlocks.set_running
           SpamperceptionBlocks.set_phase SpamperceptionBlocks.emitEvent
           SpamperceptionBlocks.set_seqLen SpamperceptionBlocks.set_stats
           SpamperceptionBlocks.phase].
      rewrite lookup_store, Mode_eqb_refl.
      split; [reflexivity|]. split; discriminate.
    + intros [= <-]. unfold BlocksProps.trialsOf.
      cbn [SpamperceptionBlocks.stats SpamperceptionBlocks.setTimeout
           SpamperceptionBlocks.set_timers
           SpamperceptionBlocks.set_phase SpamperceptionBlocks.emitEvent
           SpamperceptionBlocks.set_seqLen SpamperceptionBlocks.set_stats
           SpamperceptionBlocks.phase].
      rewrite lookup_store, Mode_eqb_refl.
      split; [reflexivity|]. split; discriminate.
  - intros Hstart. pose proof (startTrial_stats _ _ _ _ _ Hstart) as Hstats.
    unfold SpamperceptionBlocks.startTrial in Hstart.
    destruct (SpamperceptionBlocks.randUniqueSeq _ draws) as [arr| |];
      try discriminate.
    injection Hstart as <-.
    match goal with
    | |- context [SpamperceptionBlocks.presentSequence ?a ?n ?s] =>
        destruct (SB_presentSequence_seqLen a n s) as (_ & _ & Hpos & Hph)
    end.
    unfold BlocksProps.trialsOf. rewrite Hstats, Hpos, Hph.
    cbn [SpamperceptionBlocks.stats SpamperceptionBlocks.set_trialIdx
         SpamperceptionBlocks.set_phase
         SpamperceptionBlocks.set_seqLen SpamperceptionBlocks.set_stats].
    rewrite lookup_store, Mode_eqb_refl.
    split; [reflexivity|]. split; [discriminate|reflexivity].
Qed.

(** SpamperceptionBlocks, one click in the respond phase: the click is
    correct exactly when it is the cell at the replay position; a correct
    click before the last position moves the position by one and records
    no outcome; any other click records the outcome of the trial (correct
    only for the last position answered correctly) and leaves the respond
    phase, and the next presentation starts again at position 0. *)
Lemma SB_click_in_respond cell nowPerf now draws st ms :
  SpamperceptionBlocks.phase st = SpamperceptionBlocks.respond ->
  SpamperceptionBlocks.lookup (SpamperceptionBlocks.mode st)
    (SpamperceptionBlocks.stats st) = Some ms ->
  let p := SpamperceptionBlocks.replayPos st in
  let ok := match nth_error (SpamperceptionBlocks.seq st) p with
            | Some e => Nat.eqb cell e
            | None => false
            end in
  (ok = true <-> nth_error (SpamperceptionBlocks.seq st) p = Some cell)
  /\ if ok && (p + 1 <? length (SpamperceptionBlocks.seq st))%nat
     then exists st',
         SpamperceptionBlocks.onCellClick cell nowPerf now draws st
         = Some st'
         /\ SpamperceptionBlocks.phase st' = SpamperceptionBlocks.respond
         /\ SpamperceptionBlocks.replayPos st' = (p + 1)%nat
         /\ SpamperceptionBlocks.seq st' = SpamperceptionBlocks.seq st
         /\ BlocksProps.trialsOf (SpamperceptionBlocks.mode st) st'
            = SpamperceptionBlocks.trials ms
     else forall st',
         SpamperceptionBlocks.onCellClick cell nowPerf now draws st
         = Some st' ->
         BlocksProps.trialsOf (SpamperceptionBlocks.mode st) st'
         = SpamperceptionBlocks.trials ms
           ++ [(length (SpamperceptionBlocks.seq st), ok)]
         /\ SpamperceptionBlocks.phase st' <> SpamperceptionBlocks.respond
         /\ (SpamperceptionBlocks.phase st' = SpamperceptionBlocks.present ->
             SpamperceptionBlocks.replayPos st' = 0%nat).
Proof.
  intros Hph Hms p ok. split.
  - unfold ok.
    destruct (nth_error (SpamperceptionBlocks.seq st) p) as [e|].
    + rewrite Nat.eqb_eq. split; [now intros ->|now intros [= ->]].
    + split; discriminate.
  - unfold SpamperceptionBlocks.onCellClick. rewrite Hph, Hms.
    cbn [SpamperceptionBlocks.Phase_eqb negb]. cbv zeta.
    fold p. fold ok. destruct ok.
    + cbn [andb]. rewrite Nat.ltb_antisym.
      cbn [SpamperceptionBlocks.seq SpamperceptionBlocks.set_replayPos
           SpamperceptionBlocks.set_trialLog SpamperceptionBlocks.set_stats
           SpamperceptionBlocks.set_lastClickPerf].
      destruct (length (SpamperceptionBlocks.seq st) <=? p + 1)%nat;
        cbn [negb].
      * intros st' Hfin.
        eapply SB_finishTrial_effect in Hfin; cycle 1.
        { cbn [SpamperceptionBlocks.stats SpamperceptionBlocks.emitEvent
               SpamperceptionBlocks.set_replayPos
               SpamperceptionBlocks.set_trialLog
               SpamperceptionBlocks.set_stats].
          change (SpamperceptionBlocks.mode
                    (SpamperceptionBlocks.emitEvent _ _))
            with (SpamperceptionBlocks.mode st).
          rewrite lookup_store, Mode_eqb_refl. reflexivity. }
        exact Hfin.
      * eexists. split; [reflexivity|].
        unfold BlocksProps.trialsOf.
        cbn [SpamperceptionBlocks.stats SpamperceptionBlocks.phase
             SpamperceptionBlocks.replayPos SpamperceptionBlocks.seq
             SpamperceptionBlocks.set_replayPos
             SpamperceptionBlocks.set_trialLog
             SpamperceptionBlocks.set_stats
             SpamperceptionBlocks.set_lastClickPerf].
        rewrite lookup_store, Mode_eqb_refl.
        repeat split; assumption.
    + cbn [andb]. intros st' Hfin.
      eapply SB_finishTrial_effect in Hfin; cycle 1.
      { cbn [SpamperceptionBlocks.stats SpamperceptionBlocks.emitEvent
             SpamperceptionBlocks.set_trialLog
             SpamperceptionBlocks.set_stats].
        change (SpamperceptionBlocks.mode
                  (SpamperceptionBlocks.emitEvent _ _))
          with (SpamperceptionBlocks.mode st).
        rewrite lookup_store, Mode_eqb_refl. reflexivity. }
      exact Hfin.
Qed.
End ClickByClick.

(** ** Session reports *)

Section Reports.

Lemma forModes_map {A : Type} (f : SpamperceptionBlocks.ModStats -> A) :
  forall modes d,
    SpamperceptionBlocks.forModes f modes d
    = option_map (map (fun '(m, ms) => (m, f ms)))
        (SpamperceptionBlocks.forModes (fun ms => ms) modes d).
Proof.
  induction modes as [|k modes IH]; intros d; simpl; [reflexivity|].
  destruct (SpamperceptionBlocks.lookup k d) as [v|]; [|reflexivity].
  rewrite IH.
  destruct (SpamperceptionBlocks.forModes (fun ms => ms) modes d);
    reflexivity.
Qed.


End Reports.

(** ** The theorems at work on concrete sessions *)

Section Witnesses.
Import Sessions.


(** C3 on the state with a tenth go stimulus on display: a click on it,
    a click elsewhere, and its expiry. *)
Lemma C3_go_nogo_matching_witness :
  GoNoGoProps.click_scored
    (ColorReactionGame.shown 5 GoNoGoProps.beforeTenthHit) 10300
    GoNoGoProps.beforeTenthHit
    (ColorReactionGame.onCellClick 5 10300 2 GoNoGoProps.beforeTenthHit)
  /\ GoNoGoProps.click_scored
       (ColorReactionGameEdges.shown 7 GoNoGoProps.beforeTenthHit) 10300
       GoNoGoProps.beforeTenthHit
       (ColorReactionGameEdges.onCellClick 7 10300
          GoNoGoProps.beforeTenthHit)
  /\ GoNoGo.misses (GoNoGo.onExpire 10 11000 GoNoGoProps.beforeTenthHit)
     = 1%nat.
Proof.
  destruct C3_go_nogo_matching as (Hcrg & Hedges & Hmiss).
  split; [|split].
  - apply Hcrg. vm_compute. reflexivity.
  - apply Hedges. vm_compute. reflexivity.
  - apply (Hmiss 10%nat 11000 GoNoGoProps.beforeTenthHit
                 {| GoNoGo.id := 10; GoNoGo.idx := 5;
                    GoNoGo.color := GoNoGo.green; GoNoGo.shownAt := 10000;
                    GoNoGo.expiresAt := 11000 |}).
    + vm_compute. left. reflexivity.
    + vm_compute. reflexivity.
    + reflexivity.
Defined.

(** C4 on the second trial of the span task, failed, and on the first
    trial of the blocks task, answered correctly. *)
Lemma C4_span_length_update_witness :
  CentralPeripheralSpanTask.seqLen
    (CentralPeripheralSpanTask.finishTrial false 9000 spanSecondTrial)
  = Spec.nextLength 4 false
  /\ SpamperceptionBlocks.seqLen blocksAfterFinish = Spec.nextLength 3 true
  /\ Z.of_nat (length (SpamperceptionBlocks.seq blocksAfterFinish))
     = Spec.nextLength 3 true.
Proof.
  destruct C4_span_length_update as (_ & _ & Hcp & Hsb & _).
  split.
  - apply (Hcp false 9000 spanSecondTrial). vm_compute. lia.
  - apply (Hsb true [1; 2; 3; 4]%nat 4800 blocksLastClick blocksAfterFinish).
    + vm_compute. lia.
    + vm_compute. reflexivity.
Defined.


(** C7 on the central region and on the grid of the blocks task. *)
Lemma C7_generation_witness :
  (exists partial,
      CentralPeripheralSpanTask.randSeq 17
        (Some CentralPeripheralSpanTask.central) [0; 1]%nat
      = Call.Spinning partial)
  /\ (Z.of_nat (length [33; 34; 35]%nat) = 3 /\ NoDup [33; 34; 35]%nat
      /\ incl [33; 34; 35]%nat
              (CentralPeripheralSpanTask.regionFilter
                 (Some CentralPeripheralSpanTask.central)))
  /\ (exists s,
         CentralPeripheralSpanTask.randSeq 3
           (Some CentralPeripheralSpanTask.central) [0; 0; 1; 2; 5]%nat
         = Call.Returned s)
  /\ (exists s,
         CentralPeripheralSpanTask.randSeq 7
           (Some CentralPeripheralSpanTask.peripheral)
           (List.seq 0 (Z.to_nat 7))
         = Call.Returned s)
  /\ (exists partial,
         SpamperceptionBlocks.randUniqueSeq 101 [7; 7; 8]%nat
         = Call.Spinning partial)
  /\ (Z.of_nat (length [4; 17; 82]%nat) = 3 /\ NoDup [4; 17; 82]%nat
      /\ forall c, In c [4; 17; 82]%nat
                   -> (c < SpamperceptionBlocks.CELLS)%nat)
  /\ (exists s,
         SpamperceptionBlocks.randUniqueSeq 2 [104; 4; 17]%nat
         = Call.Returned s).
Proof.
  destruct C7_generation_returns_distinct_cells_or_spins
    as (H1 & H2 & H3 & H4 & H5 & H6 & H7).
  repeat match goal with |- _ /\ _ => split end.
  - apply H1. vm_compute. reflexivity.
  - apply (H2 (Some CentralPeripheralSpanTask.central) 3 [0; 0; 1; 2]%nat).
    + lia.
    + vm_compute. reflexivity.
  - apply (H2 (Some CentralPeripheralSpanTask.central) 3 [0; 0; 1; 2]%nat).
    + lia.
    + vm_compute. reflexivity.
  - apply (H2 (Some CentralPeripheralSpanTask.central) 3 [0; 0; 1; 2]%nat).
    + lia.
    + vm_compute. reflexivity.
  - apply (H3 _ _ _ [33; 34; 35]%nat).
    + repeat constructor; simpl; intuition lia.
    + vm_compute. intros a Ha. intuition auto.
    + vm_compute. discriminate.
  - apply H4. vm_compute. discriminate.
  - apply H5. vm_compute. reflexivity.
  - apply (H6 3 [4; 17; 82]%nat); [lia|vm_compute; reflexivity].
  - apply (H6 3 [4; 17; 82]%nat); [lia|vm_compute; reflexivity].
  - apply (H6 3 [4; 17; 82]%nat); [lia|vm_compute; reflexivity].
  - apply (H7 _ _ [4; 17]%nat).
    + repeat constructor; simpl; intuition lia.
    + vm_compute. intros a Ha. intuition auto.
    + vm_compute. discriminate.
Defined.

(** C8 on the components as first rendered. *)
Lemma C8_ignored_clicks_witness :
  ColorReactionGame.onCellClick 5 100 0 GoNoGo.initial = GoNoGo.initial
  /\ ColorReactionGameEdges.onCellClick 5 100 GoNoGo.initial
     = GoNoGo.initial
  /\ FiveTargetReactionGame.onCellClick 5 100 100 0
       FiveTargetReactionGame.initial
     = FiveTargetReactionGame.initial
  /\ CentralPeripheralSpanTask.onCellClick 33 100
       CentralPeripheralSpanTask.initial
     = CentralPeripheralSpanTask.initial
  /\ CentralPeripheralSpanTask.onCellClick 33 100
       CentralPeripheralSpanTask.initial
     = CentralPeripheralSpanTask.initial
  /\ SpamperceptionBlocks.onCellClick 4 100 100 []
       SpamperceptionBlocks.initial
     = Some SpamperceptionBlocks.initial
  /\ SpamperceptionBlocks.step (SpamperceptionBlocks.Click 4 100 100 [])
       SpamperceptionBlocks.initial
     = Some SpamperceptionBlocks.initial.
Proof.
  destruct C8_clicks_while_stopped_or_not_responding_ignored
    as (H1 & H2 & H3 & H4 & H5 & H6 & H7).
  repeat match goal with |- _ /\ _ => split end.
  - apply H1. reflexivity.
  - apply H2. reflexivity.
  - apply H3. reflexivity.
  - apply H4. discriminate.
  - apply (H5 [CentralPeripheralSpanTask.Click 1 0]); reflexivity.
  - apply H6. discriminate.
  - apply H7. reflexivity.
Defined.

(** C9 on the sequence [4; 17; 82]. *)
Lemma C9_presentation_schedule_witness :
  nth_error (CentralPeripheralSpanTask.presentSeq_timeouts [4; 17; 82]%nat)
            (2 * 1)
  = Some (Z.of_nat 1 * 1000, CentralPeripheralSpanTask.SetLit (Some 17%nat))
  /\ nth_error
       (CentralPeripheralSpanTask.presentSeq_timeouts [4; 17; 82]%nat)
       (2 * 1 + 1)
     = Some (Z.of_nat 1 * 1000 + 600, CentralPeripheralSpanTask.SetLit None)
  /\ nth_error
       (SpamperceptionBlocks.presentSequence_timeouts [4; 17; 82]%nat)
       (2 * 2)
     = Some (Z.of_nat 2 * 1000,
             SpamperceptionBlocks.SetLitIdx (Some 82%nat)).
Proof.
  destruct C9_presentation_schedule as (_ & _ & _ & _ & Hcp & Hsb).
  destruct (Hcp [4; 17; 82]%nat) as (_ & Hk & _).
  destruct (Hsb [4; 17; 82]%nat) as (_ & Hk' & _).
  split; [|split].
  - apply (Hk 1%nat 17%nat). reflexivity.
  - apply (Hk 1%nat 17%nat). reflexivity.
  - apply (Hk' 2%nat 82%nat). reflexivity.
Defined.

(** C10 on the five-target session, where cell 3 has been clicked. *)
Lemma C10_click_on_clicked_target_witness :
  FiveTargetReactionGame.onCellClick 3 300 300 4 fiveTargets = fiveTargets
  /\ FiveTargetReactionGame.step
       (FiveTargetReactionGame.Click 3 300 300 4) fiveTargets
     = fiveTargets.
Proof.
  apply (C10_click_on_clicked_target_is_noop 3%nat 300 300 4 fiveTargets
           {| FiveTargetReactionGame.id := (0, 3%nat);
              FiveTargetReactionGame.idx := 3;
              FiveTargetReactionGame.color := FiveTargetReactionGame.c4ADE80;
              FiveTargetReactionGame.clicked := true;
              FiveTargetReactionGame.perfShownAt := 0 |}).
  - vm_compute. reflexivity.
  - reflexivity.
Defined.
End Witnesses.

(** * Further properties of the components *)

(** ** Where the go/no-go games place a stimulus *)

Section PlacementFacts.
Import GoNoGo Placement.

Lemma Qfloor_ge (q : Q) (z : Z) : (inject_Z z <= q)%Q -> z <= Qfloor q.
Proof.
  intros H. rewrite <- (Qfloor_Z z). now apply Qfloor_resp_le.
Qed.

Lemma Qfloor_lt (q : Q) (z : Z) : (q < inject_Z z)%Q -> Qfloor q < z.
Proof.
  intros H. rewrite Zlt_Qlt.
  eapply Qle_lt_trans; [apply Qfloor_le | exact H].
Qed.

Lemma inject_Z_pos (n : Z) : 0 < n -> (0 < inject_Z n)%Q.
Proof. intros H. change 0%Q with (inject_Z 0). now rewrite <- Zlt_Qlt. Qed.

Lemma randInt_range (a b : Z) (u : Q) :
  a <= b -> (0 <= u)%Q -> (u < 1)%Q -> a <= randInt a b u <= b.
Proof.
  intros Hab H0 H1. unfold randInt.
  set (n := b - a + 1).
  assert (Hn : (0 < inject_Z n)%Q) by (apply inject_Z_pos; lia).
  split.
  - apply Qfloor_ge. nra.
  - apply Z.lt_succ_r. apply Qfloor_lt.
    replace (Z.succ b) with (a + n) by lia.
    rewrite inject_Z_plus. nra.
Qed.

Lemma idx_round_trip (idx : nat) :
  let '(r, c) := idxToRowCol idx in
  rowColToIdx r c = idx /\ (c < GRID_SIZE)%nat.
Proof.
  unfold idxToRowCol, rowColToIdx, GRID_SIZE. split.
  - pose proof (Nat.div_mod_eq idx 10). lia.
  - apply Nat.mod_upper_bound. discriminate.
Qed.

Lemma rowCol_round_trip (r c : nat) :
  (c < GRID_SIZE)%nat -> idxToRowCol (rowColToIdx r c) = (r, c).
Proof.
  unfold idxToRowCol, rowColToIdx, GRID_SIZE. intros Hc. f_equal.
  - rewrite Nat.div_add_l by discriminate.
    rewrite (Nat.div_small c 10) by assumption. lia.
  - rewrite Nat.add_comm, Nat.Div0.mod_add. now apply Nat.mod_small.
Qed.

End PlacementFacts.

Section PickIndex.
Import GoNoGo Placement.

Lemma Qltb_iff (a b : Q) : JS.Qltb a b = true <-> (a < b)%Q.
Proof.
  unfold JS.Qltb. rewrite negb_true_iff. split.
  - intros H. apply Qnot_le_lt. intros Hle.
    apply Qle_bool_iff in Hle. congruence.
  - intros H. destruct (Qle_bool b a) eqn:E; [|reflexivity].
    apply Qle_bool_iff in E. exfalso. now apply (Qlt_not_le a b).
Qed.

Lemma onGrid_lt (v : Z) : (onGrid v < GRID_SIZE)%nat.
Proof. unfold onGrid, GRID_SIZE. lia. Qed.

Lemma onGrid_near (base : nat) (d : Z) :
  (base < GRID_SIZE)%nat -> -2 <= d <= 2 ->
  Z.abs (Z.of_nat (onGrid (Z.of_nat base + d)) - Z.of_nat base) <= 2.
Proof. unfold onGrid, GRID_SIZE. lia. Qed.

Lemma rowColToIdx_lt (r c : nat) :
  (r < GRID_SIZE)%nat -> (c < GRID_SIZE)%nat ->
  (rowColToIdx r c < GRID_SIZE * GRID_SIZE)%nat.
Proof. unfold rowColToIdx, GRID_SIZE. lia. Qed.

Lemma randInt_cell (n : nat) (u : Q) :
  (0 < n)%nat -> (0 <= u)%Q -> (u < 1)%Q ->
  (Z.to_nat (randInt 0 (Z.of_nat n - 1) u) < n)%nat.
Proof.
  intros Hn H0 H1.
  pose proof (randInt_range 0 (Z.of_nat n - 1) u ltac:(lia) H0 H1). lia.
Qed.

Lemma pickIndex_lt last uNear u1 u2 :
  (0 <= u1)%Q -> (u1 < 1)%Q ->
  (pickIndex last uNear u1 u2 < GRID_SIZE * GRID_SIZE)%nat.
Proof.
  intros H0 H1. unfold pickIndex.
  destruct last as [lastIdx|]; [destruct (JS.Qltb uNear (1 # 2))|].
  - unfold idxToRowCol. apply rowColToIdx_lt; apply onGrid_lt.
  - apply randInt_cell; [unfold GRID_SIZE; lia | assumption..].
  - apply randInt_cell; [unfold GRID_SIZE; lia | assumption..].
Qed.

Lemma pickIndex_near lastIdx uNear u1 u2 :
  (lastIdx < GRID_SIZE * GRID_SIZE)%nat ->
  (uNear < 1 # 2)%Q ->
  (0 <= u1)%Q -> (u1 < 1)%Q -> (0 <= u2)%Q -> (u2 < 1)%Q ->
  let '(row, col) := idxToRowCol lastIdx in
  let '(nr, nc) := idxToRowCol (pickIndex (Some lastIdx) uNear u1 u2) in
  Z.abs (Z.of_nat nr - Z.of_nat row) <= 2
  /\ Z.abs (Z.of_nat nc - Z.of_nat col) <= 2.
Proof.
  intros Hl Hn H10 H11 H20 H21.
  unfold pickIndex. apply Qltb_iff in Hn. rewrite Hn.
  destruct (idxToRowCol lastIdx) as [row col] eqn:Hrc.
  rewrite rowCol_round_trip by apply onGrid_lt.
  unfold idxToRowCol in Hrc. injection Hrc as <- <-.
  assert (Hrow : (lastIdx / GRID_SIZE < GRID_SIZE)%nat).
  { apply Nat.Div0.div_lt_upper_bound. exact Hl. }
  assert (Hcol : (lastIdx mod GRID_SIZE < GRID_SIZE)%nat).
  { apply Nat.mod_upper_bound. discriminate. }
  split; apply onGrid_near; try assumption;
    apply randInt_range; (lia || assumption).
Qed.

Lemma pickEdgeIndex_edge uSide uRow :
  (0 <= uRow)%Q -> (uRow < 1)%Q ->
  let cell := pickEdgeIndex uSide uRow in
  (cell < GRID_SIZE * GRID_SIZE)%nat
  /\ snd (idxToRowCol cell)
     = (if JS.Qltb uSide (1 # 2) then 0 else GRID_SIZE - 1)%nat.
Proof.
  intros H0 H1. cbv zeta. unfold pickEdgeIndex.
  set (row := Z.to_nat (randInt 0 (Z.of_nat GRID_SIZE - 1) uRow)).
  assert (Hrow : (row < GRID_SIZE)%nat).
  { apply randInt_cell; [unfold GRID_SIZE; lia | assumption..]. }
  set (edgeCol := if JS.Qltb uSide (1 # 2) then 0%nat else (GRID_SIZE - 1)%nat).
  assert (Hc : (edgeCol < GRID_SIZE)%nat).
  { unfold edgeCol, GRID_SIZE. destruct (JS.Qltb uSide (1 # 2)); lia. }
  split.
  - now apply rowColToIdx_lt.
  - now rewrite rowCol_round_trip.
Qed.
End PickIndex.

Section PlacementTheorems.
Import Placement.

(** X1.  On the 10 by 10 grid of the go/no-go games, row and column
    determine the cell and back: [rowColToIdx] undoes [idxToRowCol] for
    every index, the column computed is below 10, and [idxToRowCol]
    undoes [rowColToIdx] for every row and every column below 10. *)
Theorem grid_index_round_trip :
  (forall idx,
      rowColToIdx (fst (idxToRowCol idx)) (snd (idxToRowCol idx)) = idx
      /\ (snd (idxToRowCol idx) < GRID_SIZE)%nat)
  /\ (forall r c,
         (c < GRID_SIZE)%nat -> idxToRowCol (rowColToIdx r c) = (r, c)).
Proof.
  split.
  - intros idx. exact (idx_round_trip idx).
  - exact rowCol_round_trip.
Qed.

(** X3.  [pickIndex] of ColorReactionGame returns a cell of the grid.
    When a stimulus has been placed before and the first draw is below
    0.5, the cell is at most two rows and at most two columns away from
    the last one. *)
Theorem pickIndex_on_the_grid_and_near :
  forall last uNear u1 u2,
    (0 <= u1)%Q -> (u1 < 1)%Q -> (0 <= u2)%Q -> (u2 < 1)%Q ->
    (pickIndex last uNear u1 u2 < GRID_SIZE * GRID_SIZE)%nat
    /\ forall lastIdx,
        last = Some lastIdx ->
        (lastIdx < GRID_SIZE * GRID_SIZE)%nat ->
        (uNear < 1 # 2)%Q ->
        let '(row, col) := idxToRowCol lastIdx in
        let '(nr, nc) := idxToRowCol (pickIndex last uNear u1 u2) in
        Z.abs (Z.of_nat nr - Z.of_nat row) <= 2
        /\ Z.abs (Z.of_nat nc - Z.of_nat col) <= 2.
Proof.
  intros last uNear u1 u2 H1 H2 H3 H4. split.
  - now apply pickIndex_lt.
  - intros lastIdx -> Hl Hn. now apply pickIndex_near.
Qed.

(** X4.  [pickEdgeIndex] of ColorReactionGameEdges returns a cell of the
    grid in column 0 or column 9: column 0 when the first draw is below
    0.5, column 9 otherwise. *)
Theorem pickEdgeIndex_on_an_edge :
  forall uSide uRow,
    (0 <= uRow)%Q -> (uRow < 1)%Q ->
    let cell := pickEdgeIndex uSide uRow in
    (cell < GRID_SIZE * GRID_SIZE)%nat
    /\ snd (idxToRowCol cell)
       = (if JS.Qltb uSide (1 # 2) then 0 else 9)%nat.
Proof.
  intros uSide uRow H0 H1. exact (pickEdgeIndex_edge uSide uRow H0 H1).
Qed.

End PlacementTheorems.

(** ** Sessions of the go/no-go games *)

Section SessionFacts.
Import GoNoGo GoNoGoProps GoNoGoSession.
Local Arguments Nat.modulo : simpl never.
Local Arguments adaptedWindow : simpl never.
Local Arguments retire : simpl never.
Local Arguments stop : simpl never.
Local Arguments buildReport : simpl never.

Lemma CRG_click cell now dist st :
  ColorReactionGame.onCellClick cell now dist st
  = click cell (ColorReactionGame.shown cell st) (Some dist) now st.
Proof.
  unfold ColorReactionGame.onCellClick, ColorReactionGame.shown, click.
  destruct (negb (running st)); [reflexivity|].
  destruct (filter (fun s => Nat.eqb (idx s) cell) (stimuli st))
    as [|first rest]; [reflexivity|].
  cbv zeta.
  destruct (find (fun s => Color_eqb (color s) green) (first :: rest));
    reflexivity.
Qed.

Lemma Edges_click cell now st :
  ColorReactionGameEdges.onCellClick cell now st
  = click cell (ColorReactionGameEdges.shown cell st) None now st.
Proof.
  unfold ColorReactionGameEdges.onCellClick, ColorReactionGameEdges.shown,
    click.
  destruct (negb (running st)); [reflexivity|].
  destruct (find (fun s => Nat.eqb (idx s) cell) (stimuli st));
    reflexivity.
Qed.

Lemma CRG_shown_In cell st s :
  ColorReactionGame.shown cell st = Some s -> In s (stimuli st).
Proof.
  unfold ColorReactionGame.shown.
  set (here := filter (fun s => Nat.eqb (idx s) cell) (stimuli st)).
  intros H.
  assert (Hin : In s here).
  { destruct (find _ here) as [g|] eqn:Hf.
    - injection H as <-. now apply find_some in Hf.
    - destruct here; [discriminate|]. injection H as <-. now left. }
  unfold here in Hin. now apply filter_In in Hin.
Qed.

Lemma Edges_shown_In cell st s :
  ColorReactionGameEdges.shown cell st = Some s -> In s (stimuli st).
Proof.
  unfold ColorReactionGameEdges.shown. intros H.
  now apply find_some in H.
Qed.

Lemma single_stimulus st s :
  (length (stimuli st) <= MAX_ACTIVE)%nat -> In s (stimuli st) ->
  stimuli st = [s].
Proof.
  unfold MAX_ACTIVE. intros Hl Hin.
  destruct (stimuli st) as [|a [|b rest]]; simpl in *;
    [contradiction | destruct Hin as [->|[]]; reflexivity | lia].
Qed.

Lemma retire_single sid now st s :
  stimuli st = [s] -> id s = sid ->
  retire sid now st
  = if running st && (totalShown st <? TOTAL_STIMULI)%nat
    then set_stimuli [] (queueSpawn st)
    else if (TOTAL_STIMULI <=? totalShown st)%nat
         then stop now (set_stimuli [] st)
         else set_stimuli [] st.
Proof.
  intros Hs <-. unfold retire. rewrite Hs. simpl filter.
  rewrite Nat.eqb_refl. simpl negb. cbv iota zeta.
  destruct (running st && (totalShown st <? TOTAL_STIMULI)%nat) eqn:Hq.
  - apply andb_prop in Hq. destruct Hq as [_ Hq].
    apply Nat.ltb_lt in Hq.
    cbn [totalShown set_stimuli queueSpawn set_spawnTimers].
    destruct (TOTAL_STIMULI <=? totalShown st)%nat eqn:Ht;
      [apply Nat.leb_le in Ht; lia|].
    reflexivity.
  - cbn [totalShown set_stimuli length Nat.eqb].
    rewrite andb_true_r. reflexivity.
Qed.

Lemma clearAllTimeouts_In st i :
  In i (timeouts (clearAllTimeouts st)) ->
  In i (timeouts st) /\ forall s, In s (stimuli st) -> id s <> i.
Proof.
  unfold clearAllTimeouts. cbn [timeouts set_stimuli set_timeouts].
  generalize (timeouts st). induction (stimuli st) as [|a l IH];
    intros ts; simpl.
  - intros H. split; [assumption|]. intros s [].
  - intros H. apply IH in H. destruct H as [H Hl].
    unfold remove_id in H. apply filter_In in H. destruct H as [H Hne].
    split; [assumption|].
    intros s [<-|Hs]; [|now apply Hl].
    apply negb_true_iff, Nat.eqb_neq in Hne. congruence.
Qed.

Lemma stop_fields now st :
  running (stop now st) = false
  /\ stimuli (stop now st) = []
  /\ timeouts (stop now st) = timeouts (clearAllTimeouts st)
  /\ spawnTimers (stop now st) = spawnTimers st
  /\ hits (stop now st) = hits st
  /\ misses (stop now st) = misses st
  /\ totalShown (stop now st) = totalShown st
  /\ reactionList (stop now st) = reactionList st
  /\ adaptHistory (stop now st) = adaptHistory st
  /\ reactionWindowMs (stop now st) = reactionWindowMs st
  /\ distanceList (stop now st) = distanceList st
  /\ scores (stop now st) = scores st ++ [buildReport now st].
Proof. repeat split. Qed.

Lemma GoNoGo_report_ok_buildReport (measured : bool) now st :
  length (reactionList st) = hits st ->
  (totalShown st <= TOTAL_STIMULI)%nat ->
  (hits st + misses st <= totalShown st)%nat ->
  (exists rest, adaptHistory st = 800 :: rest) ->
  (if measured then length (distanceList st) = hits st
   else distanceList st = []) ->
  report_ok measured (buildReport now st).
Proof.
  intros Hrl Hts Hhm Hh0 Hd. unfold report_ok, buildReport.
  cbn [reactionsCount r_hits reactionTimeListMs r_misses totalStimuli
       distanceErrorPxList reactionWindowHistoryMs].
  repeat split; assumption.
Qed.

Lemma session_ok_initial measured : session_ok measured initial.
Proof.
  constructor; simpl; try lia; try discriminate; try reflexivity.
  - now exists [].
  - now destruct measured.
  - constructor.
Qed.

Lemma cleared_untracked measured st i :
  session_ok measured st -> ~ In i (timeouts (clearAllTimeouts st)).
Proof.
  intros Hok Hin. apply clearAllTimeouts_In in Hin.
  destruct Hin as [Hin Hne].
  destruct (expiry_tracked measured st Hok i Hin) as (s & Hs & Hid).
  exact (Hne s Hs Hid).
Qed.

Lemma session_ok_start measured now st :
  session_ok measured st -> session_ok measured (start now st).
Proof.
  intros Hok.
  constructor; simpl; try lia; try discriminate; try reflexivity.
  - intros i Hi. exfalso. exact (cleared_untracked measured st i Hok Hi).
  - intros _. left. unfold TOTAL_STIMULI. lia.
  - now exists [].
  - now destruct measured.
  - apply Hok.
Qed.

Lemma session_ok_stop measured now st :
  session_ok measured st -> session_ok measured (stop now st).
Proof.
  intros Hok.
  destruct (stop_fields now st)
    as (Hr & Hs & Ht & Hq & Hh & Hm & Hn & Hl & Ha & Hw & Hd & Hsc).
  pose proof (responses_bounded measured st Hok) as Hb.
  constructor;
    rewrite ?Hr, ?Hs, ?Ht, ?Hq, ?Hh, ?Hm, ?Hn, ?Hl, ?Ha, ?Hw, ?Hd, ?Hsc;
    try discriminate; try reflexivity; try apply Hok.
  - simpl. unfold MAX_ACTIVE. lia.
  - intros i Hi. exfalso. exact (cleared_untracked measured st i Hok Hi).
  - simpl. lia.
  - apply Forall_app. split; [apply Hok|]. constructor; [|constructor].
    apply GoNoGo_report_ok_buildReport; try apply Hok. lia.
Qed.

Lemma session_ok_timer_spent measured n st :
  session_ok measured st -> session_ok measured (set_spawnTimers n st).
Proof. intros Hok. destruct Hok. constructor; simpl; assumption. Qed.

Lemma session_ok_spawnStimulus measured placed c cell now dur sid n st :
  session_ok measured st -> running st = true -> stimuli st = [] ->
  (totalShown st < TOTAL_STIMULI)%nat ->
  session_ok measured
    (spawnStimulus placed c cell now dur sid (set_spawnTimers n st)).
Proof.
  intros Hok Hr Hs Ht. unfold spawnStimulus.
  change (totalShown (set_spawnTimers n st)) with (totalShown st).
  destruct (TOTAL_STIMULI <=? totalShown st)%nat eqn:Ht';
    [apply Nat.leb_le in Ht'; lia|]. clear Ht'.
  destruct Hok.
  constructor; destruct placed; simpl; rewrite ?Hs in *; simpl in *;
    try lia; try assumption; try congruence.
  all: try (intros _; left; discriminate).
  all: try (intros _; right; discriminate).
  all: try (unfold MAX_ACTIVE; lia).
  all: intros i Hi; apply in_app_or in Hi; destruct Hi as [Hi|[<-|[]]];
    [destruct (expiry_tracked0 i Hi) as (s & [] & _)|];
    eexists; split; [left; reflexivity|reflexivity].
Qed.

Lemma session_ok_onSpawnTimer measured placed c cell now dur sid st :
  session_ok measured st ->
  session_ok measured (onSpawnTimer placed c cell now dur sid st).
Proof.
  intros Hok. unfold onSpawnTimer.
  destruct (spawnTimers st) as [|n] eqn:Hn; [exact Hok|]. cbv zeta.
  change (running (set_spawnTimers n st)) with (running st).
  change (stimuli (set_spawnTimers n st)) with (stimuli st).
  change (totalShown (set_spawnTimers n st)) with (totalShown st).
  destruct (running st) eqn:Hr; simpl negb; cbv iota;
    [|now apply session_ok_timer_spent].
  destruct (MAX_ACTIVE <=? length (stimuli st))%nat eqn:Hm.
  - now apply session_ok_timer_spent.
  - assert (Hs : stimuli st = []).
    { apply Nat.leb_gt in Hm. unfold MAX_ACTIVE in Hm.
      destruct (stimuli st); [reflexivity | simpl in Hm; lia]. }
    assert (Ht : (totalShown st < TOTAL_STIMULI)%nat).
    { destruct (more_to_come measured st Hok Hr) as [H|H]; [exact H|].
      now rewrite Hs in H. }
    destruct (TOTAL_STIMULI <=? totalShown st)%nat eqn:Ht';
      [apply Nat.leb_le in Ht'; lia|].
    now apply session_ok_spawnStimulus.
Qed.

Lemma session_ok_retire (measured : bool) now st s :
  running st = true ->
  stimuli st = [s] ->
  (forall i, ~ In i (timeouts st)) ->
  length (reactionList st) = hits st ->
  (totalShown st <= TOTAL_STIMULI)%nat ->
  (hits st + misses st <= totalShown st)%nat ->
  (exists rest, adaptHistory st = 800 :: rest) ->
  last (adaptHistory st) 800 = reactionWindowMs st ->
  (if measured then length (distanceList st) = hits st
   else distanceList st = []) ->
  Forall (report_ok measured) (scores st) ->
  session_ok measured (retire (id s) now st).
Proof.
  intros Hr Hs Hto Hrl Hts Hhm Hh0 Hh1 Hd Hsc.
  rewrite (retire_single (id s) now st s Hs eq_refl). rewrite Hr.
  simpl andb.
  destruct (totalShown st <? TOTAL_STIMULI)%nat eqn:Hlt.
  - apply Nat.ltb_lt in Hlt.
    constructor; simpl; try assumption; try lia; try congruence.
    intros i Hi. now apply Hto in Hi.
  - apply Nat.ltb_ge in Hlt.
    destruct (TOTAL_STIMULI <=? totalShown st)%nat eqn:Hge;
      [|apply Nat.leb_gt in Hge; lia].
    destruct (stop_fields now (set_stimuli [] st))
      as (Er & Es & Et & Eq & Eh & Em & En & El & Ea & Ew & Ed & Esc).
    constructor;
      rewrite ?Er, ?Es, ?Et, ?Eq, ?Eh, ?Em, ?En, ?El, ?Ea, ?Ew, ?Ed, ?Esc;
      simpl; try assumption; try lia; try congruence; try discriminate.
    + intros i Hi. now apply Hto in Hi.
    + apply Forall_app. split; [assumption|]. constructor; [|constructor].
      now apply GoNoGo_report_ok_buildReport.
Qed.

Lemma session_ok_click measured cell target (dist : option Z) now st :
  session_ok measured st ->
  (forall s, target = Some s -> In s (stimuli st)) ->
  measured = match dist with Some _ => true | None => false end ->
  session_ok measured (click cell target dist now st).
Proof.
  intros Hok Hin Hmd. unfold click.
  destruct (running st) eqn:Hr; simpl negb; cbv iota; [|exact Hok].
  destruct target as [s|].
  - pose proof (single_stimulus st s (one_displayed measured st Hok)
                                (Hin s eq_refl)) as Hs.
    assert (Hto : forall i, ~ In i (remove_id (id s) (timeouts st))).
    { intros i Hi. unfold remove_id in Hi. apply filter_In in Hi.
      destruct Hi as [Hi Hne].
      destruct (expiry_tracked measured st Hok i Hi) as (s' & Hs' & Hid).
      rewrite Hs in Hs'. destruct Hs' as [<-|[]].
      rewrite Hid, Nat.eqb_refl in Hne. discriminate. }
    pose proof (responses_bounded measured st Hok) as Hb. rewrite Hs in Hb.
    simpl in Hb.
    pose proof (reactions_are_hits measured st Hok) as Hrl.
    pose proof (shown_bounded measured st Hok) as Hsb.
    destruct (history_starts measured st Hok) as (rest & Hh0).
    pose proof (history_ends measured st Hok) as Hh1.
    pose proof (distances_recorded measured st Hok) as Hd.
    pose proof (reports_agree measured st Hok) as Hsc.
    cbv zeta.
    destruct (Color_eqb (color s) green
              && (now - shownAt s <=? reactionWindowMs st)).
    + destruct dist as [d|]; subst measured;
        cbn [hits errors misses emitEvent
        set_distanceList set_reactionList set_hits];
        (destruct ((S (hits st) + errors st + misses st) mod 10 =? 0)%nat;
        apply session_ok_retire; simpl; rewrite ?length_app; simpl;
        rewrite ?Hh0; simpl; try assumption; try lia;
        try (eexists; reflexivity));
        try (rewrite Hh0 in Hh1; exact Hh1);
        (destruct rest as [|z r]; [reflexivity|];
         apply (last_last (z :: r) _ 800)).
    + apply session_ok_retire; simpl; try assumption; try lia.
      now exists rest.
  - destruct Hok. constructor; simpl; assumption.
Qed.

Lemma session_ok_onExpire measured sid now st :
  session_ok measured st -> session_ok measured (onExpire sid now st).
Proof.
  intros Hok. unfold onExpire.
  destruct (existsb (Nat.eqb sid) (timeouts st)) eqn:He; simpl negb;
    cbv iota; [|exact Hok].
  apply existsb_exists in He. destruct He as (i & Hi & Heq).
  apply Nat.eqb_eq in Heq. subst i.
  destruct (expiry_tracked measured st Hok sid Hi) as (s & Hin & Hid).
  pose proof (single_stimulus st s (one_displayed measured st Hok) Hin)
    as Hs.
  assert (Hr : running st = true).
  { destruct (running st) eqn:Hr; [reflexivity|].
    rewrite (stopped_empty measured st Hok Hr) in Hs. discriminate. }
  assert (Hto : forall i, ~ In i (remove_id sid (timeouts st))).
  { intros i Hi'. unfold remove_id in Hi'. apply filter_In in Hi'.
    destruct Hi' as [Hi' Hne].
    destruct (expiry_tracked measured st Hok i Hi') as (s' & Hs' & Hid').
    rewrite Hs in Hs'. destruct Hs' as [Hs'|[]].
    assert (Hi0 : i = sid) by congruence.
    apply negb_true_iff, Nat.eqb_neq in Hne. contradiction. }
  pose proof (responses_bounded measured st Hok) as Hb. rewrite Hs in Hb.
  simpl in Hb.
  cbv zeta. cbn [stimuli set_timeouts]. rewrite Hs. cbn [find].
  rewrite Hid, Nat.eqb_refl. subst sid.
  destruct (color s); apply session_ok_retire; simpl;
    try assumption; try lia; try apply Hok.
Qed.

Lemma session_ok_CRG_step i st :
  session_ok true st -> session_ok true (ColorReactionGame.step i st).
Proof.
  intros Hok.
  destruct i as [now|now|cell now dist|c cell now dur sid|sid now]; simpl.
  - destruct (running st); [exact Hok | now apply session_ok_start].
  - destruct (running st); [now apply session_ok_stop | exact Hok].
  - rewrite CRG_click. apply session_ok_click; [exact Hok| |reflexivity].
    intros s. apply CRG_shown_In.
  - now apply session_ok_onSpawnTimer.
  - now apply session_ok_onExpire.
Qed.

Lemma session_ok_Edges_step i st :
  session_ok false st ->
  session_ok false (ColorReactionGameEdges.step i st).
Proof.
  intros Hok.
  destruct i as [now|now|cell now dist|c cell now dur sid|sid now]; simpl.
  - destruct (running st); [exact Hok | now apply session_ok_start].
  - destruct (running st); [now apply session_ok_stop | exact Hok].
  - rewrite Edges_click. apply session_ok_click; [exact Hok| |reflexivity].
    intros s. apply Edges_shown_In.
  - now apply session_ok_onSpawnTimer.
  - now apply session_ok_onExpire.
Qed.

Lemma session_ok_CRG_run inputs st :
  session_ok true st -> session_ok true (ColorReactionGame.run inputs st).
Proof.
  apply (fold_left_invariant (session_ok true)
           (fun s i => ColorReactionGame.step i s)).
  intros a b. apply session_ok_CRG_step.
Qed.

Lemma session_ok_Edges_run inputs st :
  session_ok false st ->
  session_ok false (ColorReactionGameEdges.run inputs st).
Proof.
  apply (fold_left_invariant (session_ok false)
           (fun s i => ColorReactionGameEdges.step i s)).
  intros a b. apply session_ok_Edges_step.
Qed.

End SessionFacts.

Section SessionTheorems.
Import GoNoGo GoNoGoProps GoNoGoSession.
Local Arguments stop : simpl never.

Lemma silent_step measured (step : Input -> State -> State) :
  (forall i st, session_ok measured st -> session_ok measured (step i st)) ->
  (forall now st, running st = false -> step (PressStop now) st = st) ->
  (forall cell now d st, running st = false ->
                         step (Click cell now d) st = st) ->
  (forall c cell now dur sid st,
      step (SpawnTimer c cell now dur sid) st
      = onSpawnTimer measured c cell now dur sid st) ->
  (forall sid now st, step (ExpiryTimer sid now) st = onExpire sid now st) ->
  forall post st,
    session_ok measured st -> running st = false ->
    forallb notStart post = true ->
    let st' := fold_left (fun s i => step i s) post st in
    running st' = false /\ stimuli st' = []
    /\ produced st' = produced st.
Proof.
  intros Hinv Hstop Hclick Hspawn Hexp post.
  induction post as [|i post IH]; intros st Hok Hr Hpost; cbn [fold_left].
  - repeat split; [assumption|]. now apply (stopped_empty measured).
  - cbn [forallb] in Hpost. apply andb_prop in Hpost.
    destruct Hpost as [Hi Hpost].
    assert (Hstep : running (step i st) = false
                    /\ produced (step i st) = produced st).
    { destruct i as [now|now|cell now d|c cell now dur sid|sid now].
      - discriminate.
      - now rewrite Hstop.
      - now rewrite Hclick.
      - rewrite Hspawn. unfold onSpawnTimer.
        destruct (spawnTimers st); [now split|]. cbv zeta.
        change (running (set_spawnTimers n st)) with (running st).
        rewrite Hr. now split.
      - rewrite Hexp. unfold onExpire.
        destruct (existsb (Nat.eqb sid) (timeouts st)) eqn:He;
          [|now split].
        apply existsb_exists in He. destruct He as (j & Hj & _).
        destruct (expiry_tracked measured st Hok j Hj) as (s & Hs & _).
        rewrite (stopped_empty measured st Hok Hr) in Hs. contradiction. }
    destruct Hstep as [Hr' Hp'].
    destruct (IH (step i st) (Hinv i st Hok) Hr' Hpost) as (H1 & H2 & H3).
    repeat split; [assumption..|]. now rewrite H3.
Qed.

(** X8.  Once a go/no-go game has stopped, it stays silent until Start is
    pressed again: whatever clicks, presses on Stop, spawn timers and
    expiry timers follow, the game stays stopped with an empty display,
    and the emitted events, the reports and the counters are as the stop
    left them. *)
Theorem stopped_game_is_silent :
  forall pre post,
    (let st := ColorReactionGame.run pre initial in
     running st = false -> forallb notStart post = true ->
     let st' := ColorReactionGame.run post st in
     running st' = false /\ stimuli st' = []
     /\ produced st' = produced st)
    /\ (let st := ColorReactionGameEdges.run pre initial in
        running st = false -> forallb notStart post = true ->
        let st' := ColorReactionGameEdges.run post st in
        running st' = false /\ stimuli st' = []
        /\ produced st' = produced st).
Proof.
  intros pre post. split; intros st Hr Hpost.
  - apply (silent_step true ColorReactionGame.step); try assumption.
    + intros i s. apply session_ok_CRG_step.
    + intros now s Hs. simpl. now rewrite Hs.
    + intros cell now d s Hs. simpl.
      unfold ColorReactionGame.onCellClick. now rewrite Hs.
    + reflexivity.
    + reflexivity.
    + apply session_ok_CRG_run. apply session_ok_initial.
  - apply (silent_step false ColorReactionGameEdges.step); try assumption.
    + intros i s. apply session_ok_Edges_step.
    + intros now s Hs. simpl. now rewrite Hs.
    + intros cell now d s Hs. simpl.
      unfold ColorReactionGameEdges.onCellClick. now rewrite Hs.
    + reflexivity.
    + reflexivity.
    + apply session_ok_Edges_run. apply session_ok_initial.
Qed.

(** X5.  In every state a go/no-go game can reach, the recorded reaction
    times are one per hit (and so are the recorded distances in
    ColorReactionGame, while ColorReactionGameEdges records none), at most
    50 stimuli have been shown, and hits, misses and displayed stimuli
    together do not exceed the stimuli shown; every report emitted so far
    agrees with the counters in the same way. *)
Theorem go_nogo_counters_consistent :
  forall inputs,
    (let st := ColorReactionGame.run inputs initial in
     length (reactionList st) = hits st
     /\ length (distanceList st) = hits st
     /\ (hits st + misses st + length (stimuli st) <= totalShown st)%nat
     /\ (totalShown st <= 50)%nat
     /\ Forall (report_ok true) (scores st))
    /\ (let st := ColorReactionGameEdges.run inputs initial in
        length (reactionList st) = hits st
        /\ distanceList st = []
        /\ (hits st + misses st + length (stimuli st) <= totalShown st)%nat
        /\ (totalShown st <= 50)%nat
        /\ Forall (report_ok false) (scores st)).
Proof.
  intros inputs. split; cbv zeta.
  - destruct (session_ok_CRG_run inputs initial (session_ok_initial true)).
    repeat split; assumption.
  - destruct (session_ok_Edges_run inputs initial (session_ok_initial false)).
    repeat split; assumption.
Qed.

(** X6.  In every state a go/no-go game can reach: at most one stimulus is
    displayed; every live expiry timer belongs to a displayed stimulus; a
    stopped game displays nothing and has no expiry timer; and a running
    game has shown fewer than 50 stimuli or still displays one, so that
    the game stops as soon as the 50th stimulus has left the display. *)
Theorem go_nogo_display_discipline :
  forall inputs,
    (let st := ColorReactionGame.run inputs initial in
     (length (stimuli st) <= 1)%nat
     /\ (forall i, In i (timeouts st) ->
                   exists s, In s (stimuli st) /\ id s = i)
     /\ (running st = false -> stimuli st = [] /\ timeouts st = [])
     /\ (running st = true ->
         (totalShown st < 50)%nat \/ stimuli st <> []))
    /\ (let st := ColorReactionGameEdges.run inputs initial in
        (length (stimuli st) <= 1)%nat
        /\ (forall i, In i (timeouts st) ->
                      exists s, In s (stimuli st) /\ id s = i)
        /\ (running st = false -> stimuli st = [] /\ timeouts st = [])
        /\ (running st = true ->
            (totalShown st < 50)%nat \/ stimuli st <> [])).
Proof.
  assert (H : forall measured st,
             session_ok measured st ->
             (length (stimuli st) <= 1)%nat
             /\ (forall i, In i (timeouts st) ->
                           exists s, In s (stimuli st) /\ id s = i)
             /\ (running st = false -> stimuli st = [] /\ timeouts st = [])
             /\ (running st = true ->
                 (totalShown st < 50)%nat \/ stimuli st <> [])).
  { intros measured st Hok. destruct Hok.
    split; [assumption|]. split; [assumption|]. split.
    - intros Hr. split; [auto|].
      destruct (timeouts st) as [|i l]; [reflexivity|].
      destruct (expiry_tracked0 i (or_introl eq_refl)) as (s & Hs & _).
      rewrite (stopped_empty0 Hr) in Hs. contradiction.
    - assumption. }
  intros inputs. split; cbv zeta.
  - apply (H true). apply session_ok_CRG_run, session_ok_initial.
  - apply (H false). apply session_ok_Edges_run, session_ok_initial.
Qed.

(** X7.  In every state a go/no-go game can reach, the history of the
    reaction window starts with the initial 800 ms and ends with the
    window in force; the window in force is the one the last adaptation
    chose. *)
Theorem go_nogo_window_history :
  forall inputs,
    (let st := ColorReactionGame.run inputs initial in
     hd 0 (adaptHistory st) = 800
     /\ last (adaptHistory st) 800 = reactionWindowMs st)
    /\ (let st := ColorReactionGameEdges.run inputs initial in
        hd 0 (adaptHistory st) = 800
        /\ last (adaptHistory st) 800 = reactionWindowMs st).
Proof.
  intros inputs. split; cbv zeta.
  - destruct (session_ok_CRG_run inputs initial (session_ok_initial true)).
    destruct history_starts0 as (rest & Hh).
    split; [now rewrite Hh | assumption].
  - destruct (session_ok_Edges_run inputs initial (session_ok_initial false)).
    destruct history_starts0 as (rest & Hh).
    split; [now rewrite Hh | assumption].
Qed.

End SessionTheorems.

(** ** The figures of a report *)

Section Figures.

Lemma fold_min_le (l : list Z) :
  forall x, fold_left Z.min l x <= x
            /\ (forall y, In y l -> fold_left Z.min l x <= y)
            /\ (fold_left Z.min l x = x \/ In (fold_left Z.min l x) l).
Proof.
  induction l as [|a l IH]; intros x; simpl.
  - split; [lia|]. split; [intros y []|now left].
  - destruct (IH (Z.min x a)) as (H1 & H2 & H3).
    split; [lia|]. split.
    + intros y [<-|Hy]; [lia|now apply H2].
    + destruct H3 as [H3|H3]; [|right; now right].
      rewrite H3. destruct (Z.min_spec x a) as [[_ ->]|[_ ->]];
        [now left | right; now left].
Qed.

Lemma minimum_spec (l : list Z) :
  l <> [] ->
  In (JS.minimum l) l /\ forall y, In y l -> JS.minimum l <= y.
Proof.
  destruct l as [|x l]; [congruence|]. intros _. unfold JS.minimum.
  destruct (fold_min_le l x) as (H1 & H2 & H3). split.
  - destruct H3 as [->|H3]; [now left | now right].
  - intros y [<-|Hy]; [exact H1 | now apply H2].
Qed.

Lemma fold_add_shift (l : list Z) :
  forall a, fold_left Z.add l a = a + fold_left Z.add l 0.
Proof.
  induction l as [|x l IH]; intros a; simpl; [lia|].
  rewrite (IH (a + x)), (IH x). lia.
Qed.

Lemma sum_cons (x : Z) (l : list Z) : JS.sum (x :: l) = x + JS.sum l.
Proof. unfold JS.sum. simpl. apply fold_add_shift. Qed.

Lemma sum_bounds (l : list Z) (lo hi : Z) :
  (forall y, In y l -> lo <= y <= hi) ->
  lo * Z.of_nat (length l) <= JS.sum l <= hi * Z.of_nat (length l).
Proof.
  induction l as [|x l IH]; intros H.
  - unfold JS.sum. simpl. lia.
  - rewrite sum_cons. cbn [length].
    assert (Hx : lo <= x <= hi) by (apply H; now left).
    assert (Hl : forall y, In y l -> lo <= y <= hi)
      by (intros y Hy; apply H; now right).
    specialize (IH Hl). lia.
Qed.

Lemma ratio_bounds (s n lo hi : Z) :
  0 < n -> lo * n <= s <= hi * n ->
  (inject_Z lo <= inject_Z s / inject_Z n)%Q
  /\ (inject_Z s / inject_Z n <= inject_Z hi)%Q.
Proof.
  intros Hn [H1 H2].
  assert (Hq : (0 < inject_Z n)%Q).
  { change 0%Q with (inject_Z 0). now rewrite <- Zlt_Qlt. }
  split.
  - apply Qle_shift_div_l; [exact Hq|].
    rewrite <- inject_Z_mult, <- Zle_Qle. exact H1.
  - apply Qle_shift_div_r; [exact Hq|].
    rewrite <- inject_Z_mult, <- Zle_Qle. exact H2.
Qed.

Lemma rounded_mean_bounds (l : list Z) (lo hi : Z) :
  l <> [] ->
  (forall y, In y l -> lo <= y <= hi) ->
  lo <= JS.rounded_mean l <= hi.
Proof.
  intros Hne H. destruct l as [|x l]; [congruence|].
  unfold JS.rounded_mean.
  pose proof (sum_bounds (x :: l) lo hi H) as Hs.
  assert (Hn : 0 < Z.of_nat (length (x :: l))) by (simpl; lia).
  destruct (ratio_bounds _ _ lo hi Hn Hs) as [H1 H2].
  unfold JS.Math_round. split.
  - apply Qfloor_ge_Z. lra.
  - apply Z.lt_succ_r. rewrite Zlt_Qlt.
    eapply Qle_lt_trans; [apply Qfloor_le|].
    unfold Z.succ. rewrite inject_Z_plus. change (inject_Z 1) with 1%Q.
    lra.
Qed.

Lemma best_le_mean (l : list Z) : JS.best l <= JS.rounded_mean l.
Proof.
  destruct l as [|x l]; [reflexivity|].
  unfold JS.best.
  destruct (minimum_spec (x :: l) ltac:(discriminate)) as [_ Hmin].
  set (m := JS.minimum (x :: l)) in *.
  assert (Hb : forall y, In y (x :: l) -> m <= y <= Z.max m y).
  { intros y Hy. specialize (Hmin y Hy). lia. }
  assert (Hlo : forall lo, (forall y, In y (x :: l) -> lo <= y) ->
                           lo <= JS.rounded_mean (x :: l)).
  { intros lo Hl. unfold JS.rounded_mean.
    assert (Hs : lo * Z.of_nat (length (x :: l)) <= JS.sum (x :: l)).
    { clear -Hl. induction (x :: l) as [|a r IH].
      - unfold JS.sum. simpl. lia.
      - rewrite sum_cons. cbn [length].
        assert (lo <= a) by (apply Hl; now left).
        assert (lo * Z.of_nat (length r) <= JS.sum r)
          by (apply IH; intros y Hy; apply Hl; now right).
        lia. }
    assert (Hn : 0 < Z.of_nat (length (x :: l))) by (simpl; lia).
    assert (Hq : (0 < inject_Z (Z.of_nat (length (x :: l))))%Q).
    { change 0%Q with (inject_Z 0). now rewrite <- Zlt_Qlt. }
    unfold JS.Math_round. apply Qfloor_ge_Z.
    assert (H1 : (inject_Z lo
                  <= inject_Z (JS.sum (x :: l))
                     / inject_Z (Z.of_nat (length (x :: l))))%Q).
    { apply Qle_shift_div_l; [exact Hq|].
      rewrite <- inject_Z_mult, <- Zle_Qle. exact Hs. }
    lra. }
  apply Hlo. exact Hmin.
Qed.

Lemma best_positive (l : list Z) :
  Forall (fun r => 0 < r) l -> 0 <= JS.best l /\ (l <> [] -> 1 <= JS.best l).
Proof.
  intros H. destruct l as [|x l]; [split; [reflexivity|congruence]|].
  unfold JS.best.
  destruct (minimum_spec (x :: l) ltac:(discriminate)) as [Hin _].
  rewrite Forall_forall in H. specialize (H _ Hin). lia.
Qed.

End Figures.

Section ReportFigures.

(** The completion time of a report, against the duration. *)
Lemma seconds_2dp_close (d : Z) :
  0 <= d < 2 ^ 40 ->
  (inject_Z d / 1000 - (5001 # 1000000) <= JS.seconds_2dp d)%Q
  /\ (JS.seconds_2dp d <= inject_Z d / 1000 + (5001 # 1000000))%Q.
Proof.
  intros Hd. unfold JS.seconds_2dp, JS.percent, B64.div, B64.mul.
  destruct (Z.eq_dec d 0) as [-> | Hnz].
  { vm_compute. split; discriminate. }
  set (a := (inject_Z d / 1000)%Q).
  assert (Ha : (2 ^ (-10) <= a)%Q /\ (a < 2 ^ 31)%Q).
  { assert (H1 : (1 <= inject_Z d)%Q)
      by (change 1%Q with (inject_Z 1); rewrite <- Zle_Qle; lia).
    assert (H2 : (inject_Z d < inject_Z (2 ^ 40))%Q)
      by (rewrite <- Zlt_Qlt; lia).
    change (inject_Z (2 ^ 40)) with (1099511627776 # 1)%Q in H2.
    assert (E1 : (2 ^ (-10) == 1 # 1024)%Q) by reflexivity.
    assert (E2 : (2 ^ 31 == 2147483648 # 1)%Q) by reflexivity.
    rewrite E1, E2. unfold a. split.
    - apply Qle_shift_div_l; lra.
    - apply Qlt_shift_div_r; lra. }
  destruct Ha as [Ha1 Ha2].
  destruct (nearest_close a (-10) 31 ltac:(lia) Ha1 Ha2) as (X1 & X2 & X3).
  set (x := B64.nearest a) in *.
  assert (E1 : (2 ^ (-10) == 1 # 1024)%Q) by reflexivity.
  assert (E2 : (2 ^ 31 == 2147483648 # 1)%Q) by reflexivity.
  assert (E3 : (2 ^ (31 - 54) == 1 # 8388608)%Q) by reflexivity.
  assert (Hb : (2 ^ (-4) <= x * 100)%Q /\ (x * 100 < 2 ^ 38)%Q).
  { assert (E4 : (2 ^ (-4) == 1 # 16)%Q) by reflexivity.
    assert (E5 : (2 ^ 38 == 274877906944 # 1)%Q) by reflexivity.
    rewrite E4, E5. split; lra. }
  destruct Hb as [Hb1 Hb2].
  destruct (nearest_close (x * 100) (-4) 38 ltac:(lia) Hb1 Hb2)
    as (Y1 & Y2 & Y3).
  set (y := B64.nearest (x * 100)) in *.
  assert (E6 : (2 ^ (38 - 54) == 1 # 65536)%Q) by reflexivity.
  assert (E4 : (2 ^ (-4) == 1 # 16)%Q) by reflexivity.
  pose proof (Qfloor_le (y + (1 # 2))) as K1.
  pose proof (Qlt_floor (y + (1 # 2))) as K2.
  rewrite inject_Z_plus in K2. change (inject_Z 1) with 1%Q in K2.
  fold (JS.Math_round y) in K1, K2 |- *.
  assert (K0 : 0 <= JS.Math_round y).
  { apply Qfloor_ge_Z. change (inject_Z 0) with 0%Q. lra. }
  set (k := JS.Math_round y) in *.
  destruct (Z.eq_dec k 0) as [Hk | Hk].
  { rewrite Hk in *. change (inject_Z 0) with 0%Q in *.
    assert (Z0 : (B64.nearest (0 / 100) == 0)%Q) by reflexivity.
    rewrite Z0. split; lra. }
  set (c := (inject_Z k / 100)%Q).
  assert (Hk1 : (1 <= inject_Z k)%Q)
    by (change 1%Q with (inject_Z 1); rewrite <- Zle_Qle; lia).
  assert (Hc : (2 ^ (-7) <= c)%Q /\ (c < 2 ^ 32)%Q).
  { assert (E7 : (2 ^ (-7) == 1 # 128)%Q) by reflexivity.
    assert (E8 : (2 ^ 32 == 4294967296 # 1)%Q) by reflexivity.
    rewrite E7, E8. unfold c. split.
    - apply Qle_shift_div_l; lra.
    - apply Qlt_shift_div_r; lra. }
  destruct Hc as [Hc1 Hc2].
  destruct (nearest_close c (-7) 32 ltac:(lia) Hc1 Hc2) as (Z1 & Z2 & Z3).
  assert (E9 : (2 ^ (32 - 54) == 1 # 4194304)%Q) by reflexivity.
  assert (Ec : (c == inject_Z k * (1 # 100))%Q) by (unfold c; field).
  clearbody c x y a. clear K0 Hk.
  revert Hk1 K1 K2 Ec. generalize (inject_Z k). intros kk Hk1 K1 K2 Ec.
  split; lra.
Qed.

Lemma figures (l : list Z) :
  JS.best l <= JS.rounded_mean l
  /\ (l = [] -> JS.best l = 0 /\ JS.rounded_mean l = 0)
  /\ (l <> [] ->
      In (JS.best l) l
      /\ (forall x, In x l -> JS.best l <= x)
      /\ forall hi, (forall x, In x l -> x <= hi) ->
                    JS.rounded_mean l <= hi).
Proof.
  split; [apply best_le_mean|]. split.
  - intros ->. split; reflexivity.
  - intros Hne. destruct (minimum_spec l Hne) as [Hin Hmin].
    assert (Hb : JS.best l = JS.minimum l)
      by (destruct l; [congruence | reflexivity]).
    rewrite Hb. split; [exact Hin|]. split; [exact Hmin|].
    intros hi Hhi.
    apply (rounded_mean_bounds l (JS.minimum l) hi Hne).
    intros y Hy. split; [now apply Hmin | now apply Hhi].
Qed.

(** X9.  In every report of the go/no-go games and of the five-target
    game, the best reaction time is at most the average; both are 0 when
    no reaction time was recorded; otherwise the best is the least
    recorded time and the average is at most the greatest.  The completion
    time in seconds, computed in binary64 from a duration of at least 0
    and less than 2^40 ms, differs from that duration by at most
    0.005001 s. *)
Theorem reports_reaction_figures :
  (forall now st,
      let r := GoNoGo.buildReport now st in
      let l := GoNoGo.reactionList st in
      GoNoGo.reactionTimeBestMs r <= GoNoGo.reactionTimeAvgMs r
      /\ (l = [] -> GoNoGo.reactionTimeBestMs r = 0
                    /\ GoNoGo.reactionTimeAvgMs r = 0)
      /\ (l <> [] ->
          In (GoNoGo.reactionTimeBestMs r) l
          /\ (forall x, In x l -> GoNoGo.reactionTimeBestMs r <= x)
          /\ forall hi, (forall x, In x l -> x <= hi) ->
                        GoNoGo.reactionTimeAvgMs r <= hi)
      /\ (0 <= GoNoGo.durationMs r < 2 ^ 40 ->
          (inject_Z (GoNoGo.durationMs r) / 1000 - (5001 # 1000000)
           <= GoNoGo.completionTimeSec r)%Q
          /\ (GoNoGo.completionTimeSec r
              <= inject_Z (GoNoGo.durationMs r) / 1000
                 + (5001 # 1000000))%Q))
  /\ (forall now st,
         let r := FiveTargetReactionGame.buildReport now st in
         let l := FiveTargetReactionGame.reactionList st in
         FiveTargetReactionGame.reactionTimeBestMs r
         <= FiveTargetReactionGame.reactionTimeAvgMs r
         /\ (l = [] -> FiveTargetReactionGame.reactionTimeBestMs r = 0
                       /\ FiveTargetReactionGame.reactionTimeAvgMs r = 0)
         /\ (l <> [] ->
             In (FiveTargetReactionGame.reactionTimeBestMs r) l
             /\ (forall x, In x l ->
                           FiveTargetReactionGame.reactionTimeBestMs r <= x)
             /\ forall hi, (forall x, In x l -> x <= hi) ->
                           FiveTargetReactionGame.reactionTimeAvgMs r <= hi)
         /\ (0 <= FiveTargetReactionGame.durationMs r < 2 ^ 40 ->
             (inject_Z (FiveTargetReactionGame.durationMs r) / 1000
              - (5001 # 1000000)
              <= FiveTargetReactionGame.completionTimeSec r)%Q
             /\ (FiveTargetReactionGame.completionTimeSec r
                 <= inject_Z (FiveTargetReactionGame.durationMs r) / 1000
                    + (5001 # 1000000))%Q)).
Proof.
  split; intros now st r l.
  - destruct (figures (GoNoGo.reactionList st)) as (H1 & H2 & H3).
    split; [exact H1|]. split; [exact H2|]. split; [exact H3|].
    apply seconds_2dp_close.
  - destruct (figures (FiveTargetReactionGame.reactionList st))
      as (H1 & H2 & H3).
    split; [exact H1|]. split; [exact H2|]. split; [exact H3|].
    apply seconds_2dp_close.
Qed.

End ReportFigures.

(** ** The five-target game *)

Section FiveTargetFacts.
Import Call FiveTargetReactionGame FiveTargetSets.
Local Arguments Nat.modulo : simpl never.
Local Arguments Nat.div : simpl never.
Local Arguments buildReport : simpl never.

Lemma div_step (c : nat) :
  (S c / 5 = if (S c mod 5 =? 0) then S (c / 5) else c / 5)%nat.
Proof.
  pose proof (Nat.div_mod_eq (S c) 5) as H1.
  pose proof (Nat.div_mod_eq c 5) as H2.
  pose proof (Nat.mod_upper_bound (S c) 5 ltac:(discriminate)) as H3.
  pose proof (Nat.mod_upper_bound c 5 ltac:(discriminate)) as H4.
  destruct (S c mod 5 =? 0)%nat eqn:E.
  - apply Nat.eqb_eq in E. lia.
  - apply Nat.eqb_neq in E. lia.
Qed.

Lemma tally_ok_initial : tally_ok initial.
Proof. constructor; simpl; try reflexivity. constructor. Qed.

Lemma FiveTarget_report_ok_buildReport now st :
  tally_ok st -> report_ok (buildReport now st).
Proof.
  intros Hok. destruct Hok. unfold report_ok, buildReport.
  cbn [totalSets r_hits reactionTimeListMs distanceErrorPxList].
  repeat split; congruence.
Qed.

Lemma tally_ok_stop now st : tally_ok st -> tally_ok (stop now st).
Proof.
  intros Hok. pose proof (FiveTarget_report_ok_buildReport now st Hok) as Hr.
  destruct Hok. unfold stop.
  constructor; simpl; try assumption.
  apply Forall_app. split; [assumption|]. now constructor.
Qed.

Lemma tally_ok_spawnSet indices now perfNow st :
  tally_ok st -> tally_ok (spawnSet indices now perfNow st).
Proof.
  intros Hok. unfold spawnSet.
  destruct (negb (running st)); [exact Hok|].
  destruct (TOTAL_SETS <=? currentSet st)%nat;
    [now apply tally_ok_stop|].
  destruct Hok. constructor; simpl; try assumption.
  unfold TARGETS_PER_SET in *.
  rewrite <- Nat.Div0.add_mod_idemp_l, shown_by_fives0. reflexivity.
Qed.

Lemma tally_ok_start indices now perfNow st :
  tally_ok st -> tally_ok (start indices now perfNow st).
Proof.
  intros Hok. unfold start. apply tally_ok_spawnSet.
  destruct Hok. constructor; simpl; try reflexivity. assumption.
Qed.

Lemma tally_ok_onCellClick cellIdx now perfNow distPx st :
  tally_ok st -> tally_ok (onCellClick cellIdx now perfNow distPx st).
Proof.
  intros Hok. unfold onCellClick.
  destruct (negb (running st)); [exact Hok|].
  destruct (find _ (stimuli st)) as [stim|].
  - destruct (clicked stim); [exact Hok|]. cbv zeta.
    destruct Hok. unfold TARGETS_PER_SET in *.
    pose proof (div_step (clickedCount st)) as Hd.
    constructor; simpl; rewrite ?length_app; simpl; try lia;
      try assumption.
    + unfold TARGETS_PER_SET. rewrite Hd.
      destruct (S (clickedCount st) mod 5 =? 0)%nat; lia.
    + destruct (S (clickedCount st) mod 5 =? 0)%nat; lia.
  - destruct Hok. constructor; simpl; assumption.
Qed.

Lemma tally_ok_onSpawnTimer indices now perfNow st :
  tally_ok st -> tally_ok (onSpawnTimer indices now perfNow st).
Proof.
  intros Hok. unfold onSpawnTimer.
  destruct (spawnTimers st); [exact Hok|].
  apply tally_ok_spawnSet. destruct Hok. constructor; simpl; assumption.
Qed.

Lemma tally_ok_step i st : tally_ok st -> tally_ok (step i st).
Proof.
  intros Hok. destruct i; simpl.
  - destruct (running st); [exact Hok | now apply tally_ok_start].
  - destruct (running st); [now apply tally_ok_stop | exact Hok].
  - now apply tally_ok_onCellClick.
  - now apply tally_ok_onSpawnTimer.
Qed.

Lemma tally_ok_run inputs st : tally_ok st -> tally_ok (run inputs st).
Proof.
  apply (fold_left_invariant tally_ok (fun s i => step i s)).
  intros a b. apply tally_ok_step.
Qed.


Lemma drawCell_lt (u : Q) :
  (0 <= u)%Q -> (u < 1)%Q -> (drawCell u < GRID_SIZE * GRID_SIZE)%nat.
Proof.
  intros H0 H1. unfold drawCell.
  apply randInt_cell; [unfold GRID_SIZE; lia | assumption..].
Qed.

Lemma pickUniqueIndices_loop_returned :
  forall draws indices s,
    NoDup indices ->
    (length indices <= TARGETS_PER_SET)%nat ->
    pickUniqueIndices_loop draws indices = Returned s ->
    length s = TARGETS_PER_SET /\ NoDup s
    /\ incl s (indices ++ map drawCell draws).
Proof.
  induction draws as [|u rest IH]; intros indices s Hnd Hlen; simpl;
    destruct (length indices <? TARGETS_PER_SET)%nat eqn:Hlt;
    try discriminate.
  - intros [= <-]. apply Nat.ltb_ge in Hlt.
    split; [lia|]. split; [assumption|]. apply incl_appl, incl_refl.
  - apply Nat.ltb_lt in Hlt.
    destruct (existsb (Nat.eqb (drawCell u)) indices) eqn:Hex; intros H.
    + destruct (IH indices s Hnd Hlen H) as (H1 & H2 & H3).
      split; [assumption|]. split; [assumption|].
      intros x Hx. apply H3 in Hx. apply in_app_or in Hx.
      apply in_or_app. destruct Hx; [now left | right; now right].
    + assert (Hnew : ~ In (drawCell u) indices).
      { intros Hin. apply existsb_eqb_In in Hin. congruence. }
      destruct (IH (indices ++ [drawCell u]) s) as (H1 & H2 & H3).
      * apply NoDup_app; [assumption | repeat constructor; intros [] |].
        intros x Hx [<-|[]]. contradiction.
      * rewrite length_app. simpl. lia.
      * exact H.
      * split; [assumption|]. split; [assumption|].
        intros x Hx. apply H3 in Hx. rewrite <- app_assoc in Hx.
        exact Hx.
  - intros [= <-]. apply Nat.ltb_ge in Hlt.
    split; [lia|]. split; [assumption|]. apply incl_appl, incl_refl.
Qed.

Lemma pickUniqueIndices_loop_returns :
  forall draws indices ds,
    NoDup ds ->
    incl ds (map drawCell draws) ->
    (forall x, In x ds -> ~ In x indices) ->
    (TARGETS_PER_SET <= length indices + length ds)%nat ->
    exists s, pickUniqueIndices_loop draws indices = Returned s.
Proof.
  induction draws as [|u rest IH]; intros indices ds Hnd Hincl Hdisj Hlen;
    simpl.
  - assert (ds = []) as ->.
    { destruct ds as [|d ds]; [reflexivity|].
      exfalso. apply (Hincl d). now left. }
    simpl in Hlen. rewrite Nat.add_0_r in Hlen.
    destruct (length indices <? TARGETS_PER_SET)%nat eqn:Hlt.
    + apply Nat.ltb_lt in Hlt. lia.
    + eexists. reflexivity.
  - destruct (length indices <? TARGETS_PER_SET)%nat eqn:Hlt;
      [|eexists; reflexivity].
    set (cell := drawCell u).
    destruct (existsb (Nat.eqb cell) indices) eqn:Hex.
    + apply (IH indices ds); try assumption.
      intros x Hx. specialize (Hincl x Hx). simpl in Hincl.
      destruct Hincl as [Heq|Hin]; [|assumption].
      exfalso. apply (Hdisj x Hx). apply existsb_eqb_In.
      fold cell in Heq. now subst x.
    + apply (IH (indices ++ [cell])
                (filter (fun x => negb (Nat.eqb x cell)) ds)).
      * now apply NoDup_filter.
      * intros x Hx. apply filter_In in Hx as [Hx Hneq].
        specialize (Hincl x Hx). simpl in Hincl.
        destruct Hincl as [Heq|Hin]; [|assumption].
        fold cell in Heq. subst x. rewrite Nat.eqb_refl in Hneq.
        discriminate.
      * intros x Hx. apply filter_In in Hx as [Hx Hneq].
        intros Hin. apply in_app_or in Hin. destruct Hin as [Hin|[Heq|[]]].
        -- now apply (Hdisj x).
        -- subst x. rewrite Nat.eqb_refl in Hneq. discriminate.
      * rewrite length_app. simpl.
        pose proof (filter_neq_length cell ds Hnd). lia.
Qed.

Lemma pickUniqueIndices_loop_spins :
  forall draws indices,
    (length indices + length draws < TARGETS_PER_SET)%nat ->
    exists partial, pickUniqueIndices_loop draws indices = Spinning partial.
Proof.
  induction draws as [|u rest IH]; intros indices Hlen; simpl in *.
  - destruct (length indices <? TARGETS_PER_SET)%nat eqn:Hlt.
    + eexists. reflexivity.
    + apply Nat.ltb_ge in Hlt. lia.
  - destruct (length indices <? TARGETS_PER_SET)%nat eqn:Hlt.
    + destruct (existsb _ indices).
      * apply IH. lia.
      * apply IH. rewrite length_app. simpl. lia.
    + apply Nat.ltb_ge in Hlt. lia.
Qed.

End FiveTargetFacts.

Section FiveTargetTheorems.
Import Call FiveTargetReactionGame FiveTargetSets.
Local Arguments Nat.modulo : simpl never.
Local Arguments Nat.div : simpl never.
Local Arguments buildReport : simpl never.

(** X10.  With [Math.random()] in [0, 1), [pickUniqueIndices] returns
    exactly five distinct cells of the grid, each of them drawn; it
    returns whenever the draws contain five distinct cells, and with
    fewer than five draws it is still in its loop. *)
Theorem pickUniqueIndices_five_distinct_cells :
  (forall draws s,
      Forall (fun u => (0 <= u)%Q /\ (u < 1)%Q) draws ->
      pickUniqueIndices draws = Returned s ->
      length s = 5%nat /\ NoDup s
      /\ (forall c, In c s -> (c < 100)%nat)
      /\ incl s (map drawCell draws))
  /\ (forall draws ds,
         NoDup ds -> incl ds (map drawCell draws) ->
         (5 <= length ds)%nat ->
         exists s, pickUniqueIndices draws = Returned s)
  /\ (forall draws,
         (length draws < 5)%nat ->
         exists partial, pickUniqueIndices draws = Spinning partial).
Proof.
  split; [|split].
  - intros draws s Hu Hret.
    destruct (pickUniqueIndices_loop_returned draws [] s) as (H1 & H2 & H3);
      [constructor | simpl; unfold TARGETS_PER_SET; lia | exact Hret |].
    simpl in H3.
    split; [exact H1|]. split; [exact H2|]. split; [|exact H3].
    intros c Hc. apply H3 in Hc. apply in_map_iff in Hc.
    destruct Hc as (u & <- & Hin).
    rewrite Forall_forall in Hu. destruct (Hu u Hin) as [H0 Hlt].
    now apply drawCell_lt.
  - intros draws ds Hnd Hincl Hlen.
    apply (pickUniqueIndices_loop_returns draws [] ds); try assumption.
    intros x _ [].
  - intros draws Hlen. now apply pickUniqueIndices_loop_spins.
Qed.

(** X11.  In every state the five-target game can reach, hits and clicked
    targets are the same number, one reaction time and one distance are
    recorded per hit, the set counter is the number of complete groups of
    five hits, and the colour index follows the set counter; every report
    emitted so far gives [totalSets] as the hits divided by five, rounded
    down, and lists one reaction time and one distance per hit. *)
Theorem five_target_tallies :
  forall inputs,
    let st := run inputs initial in
    hits st = clickedCount st
    /\ length (reactionList st) = hits st
    /\ length (distanceList st) = hits st
    /\ currentSet st = (hits st / 5)%nat
    /\ currentColorIdx st = currentSet st
    /\ Forall report_ok (scores st).
Proof.
  intros inputs st.
  destruct (tally_ok_run inputs initial tally_ok_initial).
  fold st in hits_are_clicks0, reactions_are_hits0, distances_are_hits0,
    sets_of_five0, colour_follows_set0, reports_agree0.
  repeat split; try assumption.
  rewrite hits_are_clicks0. exact sets_of_five0.
Qed.

Lemma find_map_clicked (cellIdx : nat) (l : list Stim) :
  find (fun s => Nat.eqb (idx s) cellIdx)
       (map (fun s =>
               if Nat.eqb (idx s) cellIdx
               then {| id := id s; idx := idx s; color := color s;
                       clicked := true; perfShownAt := perfShownAt s |}
               else s) l)
  = option_map
      (fun s => {| id := id s; idx := idx s; color := color s;
                   clicked := true; perfShownAt := perfShownAt s |})
      (find (fun s => Nat.eqb (idx s) cellIdx) l).
Proof.
  induction l as [|a l IH]; [reflexivity|]. simpl.
  destruct (Nat.eqb (idx a) cellIdx) eqn:E; simpl; rewrite E;
    [reflexivity | exact IH].
Qed.

Lemma unclicked_map_clicked (cellIdx : nat) (l : list Stim) stim :
  find (fun s => Nat.eqb (idx s) cellIdx) l = Some stim ->
  clicked stim = false ->
  (length (filter (fun s => negb (clicked s))
             (map (fun s =>
                     if Nat.eqb (idx s) cellIdx
                     then {| id := id s; idx := idx s; color := color s;
                             clicked := true;
                             perfShownAt := perfShownAt s |}
                     else s) l))
   < length (filter (fun s => negb (clicked s)) l))%nat.
Proof.
  assert (Hle : forall l,
             (length (filter (fun s => negb (clicked s))
                        (map (fun s =>
                                if Nat.eqb (idx s) cellIdx
                                then {| id := id s; idx := idx s;
                                        color := color s; clicked := true;
                                        perfShownAt := perfShownAt s |}
                                else s) l))
              <= length (filter (fun s => negb (clicked s)) l))%nat).
  { clear. induction l as [|a l IH]; simpl; [lia|].
    destruct (Nat.eqb (idx a) cellIdx); simpl;
      destruct (clicked a); simpl; lia. }
  induction l as [|a l IH]; simpl; [discriminate|].
  destruct (Nat.eqb (idx a) cellIdx) eqn:E.
  - intros [= ->] Hc. simpl. rewrite Hc. simpl.
    specialize (Hle l). lia.
  - intros Hf Hc. specialize (IH Hf Hc).
    destruct (clicked a); simpl; lia.
Qed.

(** X12.  A click on a target that has not been clicked yet is a hit: the
    hit counter goes up by one, the error counter stays, the targets on
    other cells are untouched, and one target fewer is left to click.  A
    second click on the same cell in the state reached changes nothing. *)
Theorem target_is_hit_once :
  forall cellIdx now perfNow distPx now' perfNow' distPx' st stim,
    running st = true ->
    find (fun s => Nat.eqb (idx s) cellIdx) (stimuli st) = Some stim ->
    clicked stim = false ->
    let st1 := onCellClick cellIdx now perfNow distPx st in
    hits st1 = S (hits st)
    /\ errors st1 = errors st
    /\ (length (unclicked st1) < length (unclicked st))%nat
    /\ (forall s, idx s <> cellIdx ->
                  (In s (stimuli st1) <-> In s (stimuli st)))
    /\ onCellClick cellIdx now' perfNow' distPx' st1 = st1.
Proof.
  intros cellIdx now perfNow distPx now' perfNow' distPx' st stim
         Hr Hf Hc st1.
  assert (E1 : st1 = onCellClick cellIdx now perfNow distPx st)
    by reflexivity.
  unfold onCellClick in E1. rewrite Hr, Hf, Hc in E1.
  simpl negb in E1. cbv iota zeta in E1.
  split; [rewrite E1; reflexivity|].
  split; [rewrite E1; reflexivity|].
  split.
  { rewrite E1. unfold unclicked. cbn [stimuli emitEvent].
    now apply (unclicked_map_clicked cellIdx (stimuli st) stim). }
  split.
  { intros s Hne. rewrite E1. cbn [stimuli emitEvent].
    rewrite in_map_iff. split.
    - intros (x & Hx & Hin).
      destruct (Nat.eqb (idx x) cellIdx) eqn:E.
      + apply Nat.eqb_eq in E. subst s. simpl in Hne. contradiction.
      + now subst x.
    - intros Hin. exists s. split; [|assumption].
      apply Nat.eqb_neq in Hne. now rewrite Hne. }
  unfold onCellClick at 1.
  assert (Hr1 : running st1 = true) by (rewrite E1; reflexivity).
  rewrite Hr1. simpl negb. cbv iota.
  assert (Hf1 : find (fun s => Nat.eqb (idx s) cellIdx) (stimuli st1)
                = Some {| id := id stim; idx := idx stim;
                          color := color stim; clicked := true;
                          perfShownAt := perfShownAt stim |}).
  { rewrite E1. cbn [stimuli emitEvent].
    rewrite find_map_clicked, Hf. reflexivity. }
  rewrite Hf1. reflexivity.
Qed.

(** X13.  The hit that brings the number of clicked targets to a multiple
    of five completes the set: the set counter and the colour index go up
    by one and one timer for the next set is armed; any other hit leaves
    the set counter, the colour index and the timers as they are.  When
    that timer fires before the tenth set is complete, the display is
    replaced by one unclicked target per picked cell, all of one colour of
    the palette, and five more targets are counted as shown. *)
Theorem completed_set_is_replaced :
  forall cellIdx now perfNow distPx st stim,
    running st = true ->
    find (fun s => Nat.eqb (idx s) cellIdx) (stimuli st) = Some stim ->
    clicked stim = false ->
    let st1 := onCellClick cellIdx now perfNow distPx st in
    ((S (clickedCount st) mod 5 <> 0)%nat ->
     currentSet st1 = currentSet st
     /\ spawnTimers st1 = spawnTimers st
     /\ currentColorIdx st1 = currentColorIdx st)
    /\ ((S (clickedCount st) mod 5 = 0)%nat ->
        currentSet st1 = S (currentSet st)
        /\ spawnTimers st1 = S (spawnTimers st)
        /\ currentColorIdx st1 = S (currentColorIdx st)
        /\ forall indices now' perfNow',
            (currentSet st1 < TOTAL_SETS)%nat ->
            let st2 := onSpawnTimer indices now' perfNow' st1 in
            map idx (stimuli st2) = indices
            /\ (exists c, In c COLORS
                          /\ forall s, In s (stimuli st2) ->
                                       color s = c /\ clicked s = false)
            /\ totalShown st2 = (totalShown st + 5)%nat
            /\ spawnTimers st2 = spawnTimers st).
Proof.
  intros cellIdx now perfNow distPx st stim Hr Hf Hc st1.
  assert (E1 : st1 = onCellClick cellIdx now perfNow distPx st)
    by reflexivity.
  unfold onCellClick in E1. rewrite Hr, Hf, Hc in E1.
  simpl negb in E1. cbv iota zeta in E1.
  unfold TARGETS_PER_SET in E1.
  split; intros Hm.
  - apply Nat.eqb_neq in Hm. rewrite Hm in E1.
    rewrite E1. repeat split.
  - apply Nat.eqb_eq in Hm. rewrite Hm in E1.
    split; [rewrite E1; reflexivity|].
    split; [rewrite E1; reflexivity|].
    split; [rewrite E1; reflexivity|].
    intros indices now' perfNow' Hlt st2.
    assert (E2 : st2 = onSpawnTimer indices now' perfNow' st1)
      by reflexivity.
    unfold onSpawnTimer in E2.
    assert (Hq : spawnTimers st1 = S (spawnTimers st))
      by (rewrite E1; reflexivity).
    rewrite Hq in E2. unfold spawnSet in E2.
    assert (Hcs : currentSet st1 = S (currentSet st))
      by (rewrite E1; reflexivity).
    cbn [running currentSet negb] in E2.
    assert (Hr1 : running st1 = true) by (rewrite E1; reflexivity).
    rewrite Hr1 in E2. simpl negb in E2. cbv iota in E2.
    apply Nat.leb_gt in Hlt. rewrite Hlt in E2.
    rewrite E2. cbn [stimuli emitEvent totalShown spawnTimers].
    split; [|split; [|split]].
    + rewrite map_map. simpl. apply map_id.
    + eexists. split.
      * apply nth_In. apply Nat.mod_upper_bound. discriminate.
      * intros s Hs. apply in_map_iff in Hs. destruct Hs as (i & <- & _).
        split; reflexivity.
    + rewrite E1. reflexivity.
    + reflexivity.
Qed.

End FiveTargetTheorems.

(** ** The central-peripheral span task *)

Section Regions.
Import CentralPeripheralSpanTask SpanSessionProps.

Lemma regionFilter_spec_bool :
  forallb (fun idx =>
             Bool.eqb (existsb (Nat.eqb idx) (regionFilter (Some central)))
                      (inCenter idx)
             && Bool.eqb (existsb (Nat.eqb idx)
                                  (regionFilter (Some peripheral)))
                         (negb (inCenter idx)))
          (List.seq 0 CELLS) = true
  /\ forallb (fun idx => (idx <? CELLS)%nat)
             (regionFilter (Some central)
              ++ regionFilter (Some peripheral)) = true.
Proof. split; vm_compute; reflexivity. Qed.

Lemma regionFilter_In (idx : nat) :
  (In idx (regionFilter (Some central))
   <-> (idx < CELLS)%nat /\ inCenter idx = true)
  /\ (In idx (regionFilter (Some peripheral))
      <-> (idx < CELLS)%nat /\ inCenter idx = false).
Proof.
  destruct regionFilter_spec_bool as [Hin Hlt].
  rewrite forallb_forall in Hin, Hlt.
  assert (Hb : forall l, In idx l -> incl l (regionFilter (Some central)
                 ++ regionFilter (Some peripheral)) -> (idx < CELLS)%nat).
  { intros l Hl Hi. apply Nat.ltb_lt. apply Hlt. now apply Hi. }
  split; split.
  - intros H. assert (Hc : (idx < CELLS)%nat).
    { apply (Hb _ H). apply incl_appl, incl_refl. }
    split; [exact Hc|].
    specialize (Hin idx). rewrite in_seq in Hin.
    specialize (Hin ltac:(lia)). apply andb_prop in Hin.
    destruct Hin as [Hin _]. apply Bool.eqb_prop in Hin.
    rewrite <- Hin. now apply existsb_eqb_In.
  - intros [Hc Hi]. specialize (Hin idx). rewrite in_seq in Hin.
    specialize (Hin ltac:(lia)). apply andb_prop in Hin.
    destruct Hin as [Hin _]. apply Bool.eqb_prop in Hin.
    apply existsb_eqb_In. congruence.
  - intros H. assert (Hc : (idx < CELLS)%nat).
    { apply (Hb _ H). apply incl_appr, incl_refl. }
    split; [exact Hc|].
    specialize (Hin idx). rewrite in_seq in Hin.
    specialize (Hin ltac:(lia)). apply andb_prop in Hin.
    destruct Hin as [_ Hin]. apply Bool.eqb_prop in Hin.
    apply existsb_eqb_In in H. rewrite H in Hin.
    now destruct (inCenter idx).
  - intros [Hc Hi]. specialize (Hin idx). rewrite in_seq in Hin.
    specialize (Hin ltac:(lia)). apply andb_prop in Hin.
    destruct Hin as [_ Hin]. apply Bool.eqb_prop in Hin.
    apply existsb_eqb_In. rewrite Hin, Hi. reflexivity.
Qed.

(** X14.  [regionFilter] splits the 10 x 10 grid in two: the central region
    is the 16 cells of rows 3 to 6 and columns 3 to 6, the peripheral
    region the 84 other cells; every cell of the grid is in exactly one
    of them, no cell is listed twice, and both lists are in ascending
    order. *)
Theorem regions_partition_the_grid :
  (forall idx,
      In idx (regionFilter (Some central))
      <-> (idx < 100)%nat
          /\ (3 <= idx / 10 <= 6)%nat /\ (3 <= idx mod 10 <= 6)%nat)
  /\ (forall idx,
         In idx (regionFilter (Some peripheral))
         <-> (idx < 100)%nat /\ ~ In idx (regionFilter (Some central)))
  /\ length (regionFilter (Some central)) = 16%nat
  /\ length (regionFilter (Some peripheral)) = 84%nat
  /\ StronglySorted lt (regionFilter (Some central))
  /\ StronglySorted lt (regionFilter (Some peripheral)).
Proof.
  split; [|split; [|split; [|split; [|split]]]].
  - intros idx. destruct (regionFilter_In idx) as [Hc _].
    rewrite Hc. unfold inCenter, GRID, CELLS. cbv zeta.
    rewrite !andb_true_iff, !Nat.leb_le. simpl Nat.mul. lia.
  - intros idx. destruct (regionFilter_In idx) as [Hc Hp].
    rewrite Hp, Hc. change CELLS with 100%nat.
    destruct (inCenter idx); split; intros [H1 H2]; split; auto;
      try discriminate.
    + exfalso. apply H2. split; [exact H1 | reflexivity].
    + intros [_ H]. discriminate.
  - reflexivity.
  - reflexivity.
  - apply Sorted_StronglySorted; [intros x y z; lia|].
    let l := eval vm_compute in (regionFilter (Some central)) in
    change (regionFilter (Some central)) with l.
    repeat (constructor; try lia).
  - apply Sorted_StronglySorted; [intros x y z; lia|].
    let l := eval vm_compute in (regionFilter (Some peripheral)) in
    change (regionFilter (Some peripheral)) with l.
    repeat (constructor; try lia).
Qed.

End Regions.

Section TrialInvariant.
Import Props SpanTaskProps Scheduler CentralPeripheralSpanTask
       SpanSessionProps.

Lemma pop_earliest_incl {C : Type} :
  forall (l : list (Scheduler.Timer C)) t rest,
    pop_earliest l = Some (t, rest) -> incl rest l.
Proof.
  induction l as [|x l IH]; intros t rest; simpl; [discriminate|].
  destruct (pop_earliest l) as [[u rest']|] eqn:Hp.
  - destruct (due u <? due x); intros [= <- <-].
    + specialize (IH u rest' eq_refl).
      intros y [<-|Hy]; [now left | right; now apply IH].
    + apply incl_tl, incl_refl.
  - intros [= <- <-]. intros y [].
Qed.

Lemma no_armed st t :
  pendingTrials st = 0%nat -> In t (timers st) -> armed t = false.
Proof.
  unfold pendingTrials. intros H Hin.
  destruct (armed t) eqn:Ha; [|reflexivity].
  assert (Hf : In t (filter armed (timers st)))
    by (apply filter_In; now split).
  destruct (filter armed (timers st)); [contradiction | discriminate].
Qed.

Lemma presentSeq_same arr now st :
  let st' := presentSeq arr now st in
  running st' = running st /\ blockIdx st' = blockIdx st
  /\ seq st' = seq st /\ trialIdx st' = trialIdx st
  /\ seqLen st' = seqLen st /\ logs st' = logs st
  /\ spanMax_central st' = spanMax_central st
  /\ spanMax_peripheral st' = spanMax_peripheral st
  /\ scores st' = scores st.
Proof.
  cbv zeta. unfold presentSeq.
  assert (H : forall l s,
             let s' := fold_left
                         (fun st '(delay, cb) =>
                            setTimeout true now cb delay st) l s in
             running s' = running s /\ blockIdx s' = blockIdx s
             /\ seq s' = seq s /\ trialIdx s' = trialIdx s
             /\ seqLen s' = seqLen s /\ logs s' = logs s
             /\ spanMax_central s' = spanMax_central s
             /\ spanMax_peripheral s' = spanMax_peripheral s
             /\ scores s' = scores s).
  { induction l as [|[d c] l IH]; intros s; cbn [fold_left].
    - repeat split.
    - apply (IH (setTimeout true now c d s)). }
  apply (H _ (set_phase present st)).
Qed.

Lemma presentation_callbacks arr now t :
  In t (arm true now (presentSeq_timeouts arr)) ->
  (exists c, callback t = SetLit c) \/ callback t = SetPhaseRespond.
Proof.
  rewrite CP_presentSeq_timeouts_slots. unfold arm. rewrite map_app.
  intros H. apply in_app_or in H. destruct H as [H|[<-|[]]].
  - left. revert H. generalize 0.
    induction arr as [|c rest IH]; intros t0; cbn [slots map].
    + intros [].
    + intros [<-|[<-|H]]; [eexists; reflexivity..|]. now apply (IH _ H).
  - right. reflexivity.
Qed.

Ltac span_arith :=
  cbv [SEQS_PER_BLOCK MIN_LEN MAX_LEN START_LEN spans_bounded BLOCKS] in *;
  simpl in *; lia.

Lemma trial_ok_initial : trial_ok initial.
Proof.
  constructor; simpl; try span_arith; try contradiction.
  - intros [H|H]; discriminate.
  - constructor.
Qed.

Lemma respond_running st :
  one_trial st -> phase st = respond -> running st = true.
Proof.
  intros (_ & _ & Hidle) Hph.
  destruct (running st) eqn:Hr; [reflexivity|].
  destruct (Hidle eq_refl) as [_ Hi]. congruence.
Qed.

Lemma trial_ok_start now st :
  running st = false -> one_trial st -> trial_ok st ->
  trial_ok (start now st).
Proof.
  intros Hrun Hone Hok.
  destruct Hone as (_ & _ & Hidle). destruct (Hidle Hrun) as [Hc Hph].
  assert (Hold : forall t, In t (timers (clearTimers st)) ->
                           armed t = false).
  { intros t Ht. apply (no_armed st t Hc).
    unfold clearTimers in Ht. cbn [timers set_timers] in Ht.
    now apply filter_In in Ht. }
  destruct Hok.
  constructor; simpl; try span_arith; try assumption.
  - intros t len Ht Hcb. apply in_app_or in Ht.
    destruct Ht as [Ht|[<-|[]]].
    + apply Hold in Ht. unfold armed in Ht. rewrite Hcb in Ht.
      discriminate.
    + simpl in Hcb. injection Hcb as <-. auto.
  - intros t Ht Hcb. apply in_app_or in Ht.
    destruct Ht as [Ht|[<-|[]]].
    + apply Hold in Ht. unfold armed in Ht. rewrite Hcb in Ht.
      discriminate.
    + discriminate.
  - intros [H|H]; discriminate.
Qed.


Lemma nextLen_range len ok : MIN_LEN <= nextLen len ok <= MAX_LEN.
Proof. unfold nextLen, MIN_LEN, MAX_LEN. lia. Qed.

Lemma trial_ok_finishTrial ok now st :
  phase st = respond -> one_trial st -> trial_ok st ->
  trial_ok (finishTrial ok now st).
Proof.
  intros Hph Hone Hok.
  pose proof (respond_running st Hone Hph) as Hrun.
  destruct Hone as (_ & Hresp & _). specialize (Hresp Hph).
  assert (Hold : forall t, In t (timers st) -> armed t = false)
    by (intros t; apply no_armed; assumption).
  pose proof (nextLen_range (seqLen st) ok) as Hnext.
  destruct Hok.
  destruct (sequence_fits0 (or_intror Hph)) as (Hlen & _ & _).
  assert (Hsp : spans_bounded
                  (match ok, nth_error BLOCKS (blockIdx st) with
                   | true, Some central =>
                       Nat.max (spanMax_central st) (length (seq st))
                   | _, _ => spanMax_central st
                   end)
                  (match ok, nth_error BLOCKS (blockIdx st) with
                   | true, Some peripheral =>
                       Nat.max (spanMax_peripheral st) (length (seq st))
                   | _, _ => spanMax_peripheral st
                   end)).
  { destruct ok; [|assumption].
    destruct (nth_error BLOCKS (blockIdx st)) as [[]|];
      unfold spans_bounded in *; lia. }
  unfold finishTrial. cbv zeta.
  destruct (SEQS_PER_BLOCK <=? trialIdx st + 1)%nat eqn:Ht;
    [destruct (length BLOCKS <=? blockIdx st + 1)%nat eqn:Hb|].
  - constructor; simpl; try assumption.
    + intros t len Ht' Hcb. apply Hold in Ht'. unfold armed in Ht'.
      rewrite Hcb in Ht'. discriminate.
    + intros t Ht' Hcb. apply Hold in Ht'. unfold armed in Ht'.
      rewrite Hcb in Ht'. discriminate.
    + intros [H|H]; discriminate.
    + apply Forall_app. split; [assumption|].
      constructor; [exact Hsp | constructor].
  - apply Nat.leb_gt in Hb.
    constructor; simpl; try assumption; try span_arith.
    + intros t len Ht' Hcb. apply in_app_or in Ht'.
      destruct Ht' as [Ht'|[<-|[]]].
      * apply Hold in Ht'. unfold armed in Ht'. rewrite Hcb in Ht'.
        discriminate.
      * simpl in Hcb. injection Hcb as <-. auto.
    + intros t Ht' Hcb. apply in_app_or in Ht'.
      destruct Ht' as [Ht'|[<-|[]]]; [|discriminate].
      apply Hold in Ht'. unfold armed in Ht'. rewrite Hcb in Ht'.
      discriminate.
    + intros [H|H]; discriminate.
  - apply Nat.leb_gt in Ht.
    constructor; simpl; try assumption; try span_arith.
    + intros t len Ht' Hcb. apply in_app_or in Ht'.
      destruct Ht' as [Ht'|[<-|[]]].
      * apply Hold in Ht'. unfold armed in Ht'. rewrite Hcb in Ht'.
        discriminate.
      * simpl in Hcb. injection Hcb as <-. auto.
    + intros t Ht' Hcb. apply in_app_or in Ht'.
      destruct Ht' as [Ht'|[<-|[]]]; [|discriminate].
      apply Hold in Ht'. unfold armed in Ht'. rewrite Hcb in Ht'.
      discriminate.
    + intros [H|H]; discriminate.
Qed.

Lemma trial_ok_onCellClick cell now st :
  one_trial st -> trial_ok st -> trial_ok (onCellClick cell now st).
Proof.
  intros Hone Hok. unfold onCellClick.
  destruct (Phase_eqb (phase st) respond) eqn:Hph; simpl; [|assumption].
  apply Phase_eqb_eq in Hph.
  set (st1 := set_logs _ st).
  assert (Hone1 : one_trial st1) by exact Hone.
  assert (Hph1 : phase st1 = respond) by exact Hph.
  assert (Hok1 : trial_ok st1).
  { destruct Hok. constructor; assumption. }
  destruct (matches cell st).
  - case_if.
    + now apply trial_ok_finishTrial.
    + destruct Hok1. constructor; assumption.
  - now apply trial_ok_finishTrial.
Qed.

Lemma trial_ok_fire draws st st' :
  fire draws st = Some st' -> one_trial st -> trial_ok st -> trial_ok st'.
Proof.
  unfold fire. destruct (pop_earliest (timers st)) as [[t rest]|] eqn:Hp;
    [|discriminate].
  intros Hfire (Hle & Hresp & Hidle) Hok.
  pose proof (pop_earliest_count armed _ _ _ Hp) as Hc.
  pose proof (pop_earliest_In _ _ _ Hp) as Hin.
  pose proof (pop_earliest_incl _ _ _ Hp) as Hrest.
  change (length (filter armed (timers st))
          = ((if armed t then 1 else 0) + length (filter armed rest))%nat)
    in Hc.
  change (length (filter armed (timers st)) <= 1)%nat in Hle.
  assert (Hquiet : armed t = true ->
                   forall u, In u rest -> armed u = false).
  { intros Ha u Hu. rewrite Ha in Hc.
    assert (Hn : length (filter armed rest) = 0%nat) by lia.
    apply length_zero_iff_nil in Hn.
    destruct (armed u) eqn:Hau; [|reflexivity].
    assert (Hf : In u (filter armed rest)) by (apply filter_In; now split).
    rewrite Hn in Hf. contradiction. }
  destruct Hok.
  destruct (callback t) as [cell| |len] eqn:Hcb.
  - injection Hfire as <-.
    constructor; simpl; try assumption.
    + intros u len Hu. apply next_trial_pending0. now apply Hrest.
    + intros u Hu. apply respond_pending0. now apply Hrest.
  - injection Hfire as <-.
    assert (Ha : armed t = true) by (unfold armed; now rewrite Hcb).
    pose proof (respond_pending0 t Hin Hcb) as Hpres.
    constructor; simpl; try assumption.
    + intros u len Hu Hcu. apply (Hquiet Ha) in Hu. unfold armed in Hu.
      rewrite Hcu in Hu. discriminate.
    + intros u Hu Hcu. apply (Hquiet Ha) in Hu. unfold armed in Hu.
      rewrite Hcu in Hu. discriminate.
    + intros _. apply sequence_fits0. now left.
  - assert (Ha : armed t = true) by (unfold armed; now rewrite Hcb).
    destruct (next_trial_pending0 t len Hin Hcb) as (Hlen & Hbet & Hrun).
    unfold startTrial in Hfire.
    cbn [blockIdx set_timers] in Hfire.
    destruct (randSeq len (nth_error BLOCKS (blockIdx st)) draws)
      as [arr| |] eqn:Hseq; try discriminate.
    injection Hfire as <-.
    destruct (presentSeq_same arr (due t) (set_seq arr (set_timers rest st)))
      as (E1 & E2 & E3 & E4 & E5 & E6 & E7 & E8 & E9).
    cbn [running blockIdx seq trialIdx seqLen logs spanMax_central
         spanMax_peripheral scores set_seq set_timers] in *.
    assert (Hret : Z.of_nat (length arr) = len /\ NoDup arr
                   /\ incl arr (regionFilter
                                  (nth_error BLOCKS (blockIdx st)))).
    { unfold randSeq in Hseq.
      eapply (randSeq_loop_returned _ len (regionFilter_nonempty _));
        [apply loop_inv_nil | | exact Hseq].
      simpl. unfold MIN_LEN in *. lia. }
    constructor; rewrite ?E1, ?E2, ?E3, ?E4, ?E5, ?E6, ?E7, ?E8, ?E9,
                   ?presentSeq_phase; try assumption.
    + intros u len' Hu Hcu. rewrite CP_presentSeq_timers in Hu.
      cbn [timers set_seq set_timers] in Hu.
      apply in_app_or in Hu. destruct Hu as [Hu|Hu].
      * apply (Hquiet Ha) in Hu. unfold armed in Hu. rewrite Hcu in Hu.
        discriminate.
      * apply presentation_callbacks in Hu.
        destruct Hu as [(c & Hc')|Hc']; congruence.
    + intros _ _ _. reflexivity.
    + intros _. unfold region. rewrite E2. rewrite <- Hlen. exact Hret.
Qed.

Lemma trial_ok_step inp st st' :
  step inp st = Some st' -> one_trial st -> trial_ok st -> trial_ok st'.
Proof.
  destruct inp as [now|cell now|draws]; simpl.
  - destruct (running st) eqn:Hrun; [discriminate|].
    intros [= <-]. now apply trial_ok_start.
  - intros [= <-]. apply trial_ok_onCellClick.
  - apply trial_ok_fire.
Qed.

Lemma trial_ok_run inputs :
  forall st st',
    run inputs st = Some st' -> one_trial st -> trial_ok st ->
    one_trial st' /\ trial_ok st'.
Proof.
  induction inputs as [|inp rest IH]; intros st st'; simpl.
  - intros [= <-]. auto.
  - destruct (step inp st) as [st1|] eqn:Hs; [|discriminate].
    intros Hr Hone Hok. apply (IH st1 st' Hr).
    + eapply one_trial_step; eassumption.
    + eapply trial_ok_step; eassumption.
Qed.

End TrialInvariant.

Section SpanTheorems.
Import Props SpanTaskProps Scheduler CentralPeripheralSpanTask
       SpanSessionProps.

(** X15.  In every state the central-peripheral task can reach, the block
    index is 0 or 1, the trial index is below 10 and the current length
    lies between 2 and 7.  While a sequence is presented or replayed it
    consists of exactly the current length of distinct cells, all of them
    in the central region or all of them in the peripheral region; a
    trial waiting to start will be started with the current length.  The
    span maxima, and the spans of every report emitted, are at most 7. *)
Theorem span_task_trials_well_formed :
  forall inputs st,
    run inputs initial = Some st ->
    (blockIdx st < 2)%nat
    /\ (trialIdx st < 10)%nat
    /\ 2 <= seqLen st <= 7
    /\ (phase st = present \/ phase st = respond ->
        Z.of_nat (length (seq st)) = seqLen st
        /\ NoDup (seq st)
        /\ (incl (seq st) (regionFilter (Some central))
            \/ incl (seq st) (regionFilter (Some peripheral))))
    /\ (forall t len,
           In t (timers st) -> callback t = StartTrial len ->
           len = seqLen st /\ phase st = between)
    /\ (spanMax_central st <= 7)%nat
    /\ (spanMax_peripheral st <= 7)%nat
    /\ Forall (fun r => (span_central r <= 7)%nat
                        /\ (span_peripheral r <= 7)%nat) (scores st).
Proof.
  intros inputs st Hrun.
  destruct (trial_ok_run inputs initial st Hrun one_trial_initial
                         trial_ok_initial) as [_ Hok].
  destruct Hok.
  split; [exact block_in_range0|]. split; [exact trial_in_range0|].
  split; [exact length_in_range0|]. split.
  { intros Hp. destruct (sequence_fits0 Hp) as (H1 & H2 & H3).
    split; [exact H1|]. split; [exact H2|].
    unfold region in H3.
    destruct (blockIdx st) as [|[|n]];
      [left; exact H3 | right; exact H3 |].
    simpl in block_in_range0. lia. }
  split.
  { intros t len Ht Hcb.
    destruct (next_trial_pending0 t len Ht Hcb) as (H1 & H2 & _). auto. }
  unfold spans_bounded, MAX_LEN in *.
  split; [lia|]. split; [lia|].
  eapply Forall_impl; [|exact reports_in_range0].
  intros r Hr. simpl in Hr. lia.
Qed.

Lemma extends_refl {A : Type} (l : list A) : extends l l.
Proof. exists []. now rewrite app_nil_r. Qed.

Lemma extends_trans {A : Type} (a b c : list A) :
  extends a b -> extends b c -> extends a c.
Proof.
  intros (m1 & ->) (m2 & ->). exists (m1 ++ m2). now rewrite app_assoc.
Qed.

Lemma keeps_refl st : keeps st st.
Proof. repeat split; try apply extends_refl; lia. Qed.

Lemma keeps_trans a b c : keeps a b -> keeps b c -> keeps a c.
Proof.
  intros (H1 & H2 & H3 & H4) (G1 & G2 & G3 & G4).
  repeat split; try lia; eapply extends_trans; eassumption.
Qed.

Lemma keeps_finishTrial ok now st : keeps st (finishTrial ok now st).
Proof.
  unfold finishTrial, keeps. cbv zeta.
  destruct (SEQS_PER_BLOCK <=? trialIdx st + 1)%nat;
    [destruct (length BLOCKS <=? blockIdx st + 1)%nat|];
    simpl; (split; [apply extends_refl|]);
    (split; [destruct ok; [destruct (nth_error BLOCKS (blockIdx st))
                             as [[]|]|]; lia|]);
    (split; [destruct ok; [destruct (nth_error BLOCKS (blockIdx st))
                             as [[]|]|]; lia|]);
    try apply extends_refl.
  eexists. reflexivity.
Qed.

Lemma keeps_step inp st st' : step inp st = Some st' -> keeps st st'.
Proof.
  destruct inp as [now|cell now|draws]; simpl.
  - destruct (running st); [discriminate|]. intros [= <-].
    unfold keeps. simpl. repeat split; try apply extends_refl; lia.
  - intros [= <-]. unfold onCellClick.
    destruct (negb (Phase_eqb (phase st) respond)); [apply keeps_refl|].
    cbv zeta.
    set (st1 := set_logs _ st).
    assert (H1 : keeps st st1).
    { unfold keeps, st1. simpl. repeat split; try apply extends_refl;
        try lia. eexists. reflexivity. }
    destruct (matches cell st).
    + case_if.
      * eapply keeps_trans; [exact H1 | apply keeps_finishTrial].
      * exact H1.
    + eapply keeps_trans; [exact H1 | apply keeps_finishTrial].
  - unfold fire.
    destruct (pop_earliest (timers st)) as [[t rest]|]; [|discriminate].
    destruct (callback t) as [cell| |len].
    + intros [= <-]. exact (keeps_refl st).
    + intros [= <-]. exact (keeps_refl st).
    + unfold startTrial.
      destruct (randSeq _ _ _) as [arr| |]; try discriminate.
      intros [= <-].
      destruct (presentSeq_same arr (due t)
                  (set_seq arr (set_timers rest st)))
        as (_ & _ & _ & _ & _ & E6 & E7 & E8 & E9).
      unfold keeps. rewrite E6, E7, E8, E9. exact (keeps_refl st).
Qed.

(** X16.  Nothing the task does, pressing Start again included, removes an
    entry from the click log, lowers a span maximum or removes a report:
    along every run the log and the list of reports only grow at their
    end and the span maxima never decrease.  In particular [start] leaves
    the log, the span maxima and the replay position of an earlier
    session as they are. *)
Theorem span_task_never_forgets :
  (forall inputs st st', run inputs st = Some st' -> keeps st st')
  /\ (forall now st,
         logs (start now st) = logs st
         /\ spanMax_central (start now st) = spanMax_central st
         /\ spanMax_peripheral (start now st) = spanMax_peripheral st
         /\ replayPos (start now st) = replayPos st
         /\ seq (start now st) = seq st).
Proof.
  split.
  - induction inputs as [|inp rest IH]; intros st st'; simpl.
    + intros [= <-]. apply keeps_refl.
    + destruct (step inp st) as [st1|] eqn:Hs; [|discriminate].
      intros Hr. eapply keeps_trans; [eapply keeps_step; exact Hs|].
      now apply IH.
  - intros now st. repeat split.
Qed.

End SpanTheorems.

Section SpanPresentation.
Import Props SpanTaskProps Scheduler CentralPeripheralSpanTask
       SpanSessionProps.

Lemma set_timers_same st : set_timers (timers st) st = st.
Proof. now destruct st. Qed.

Lemma played_set_timers l :
  forall ts st, played l (set_timers ts st) = set_timers ts (played l st).
Proof.
  unfold played. induction l as [|t l IH]; intros ts st; cbn [fold_left];
    [reflexivity|].
  destruct (callback t); [rewrite <- IH; reflexivity..|apply IH].
Qed.

Lemma fires_sorted :
  forall k l st,
    timers st = l ->
    increasing (map due l) ->
    (forall t len, In t l -> callback t <> StartTrial len) ->
    (k <= length l)%nat ->
    fires k st = Some (set_timers (skipn k l) (played (firstn k l) st)).
Proof.
  unfold fires.
  induction k as [|k IH]; intros l st Hl Hs Hcb Hk.
  - cbn [repeat run firstn skipn played fold_left]. subst l.
    now rewrite set_timers_same.
  - destruct l as [|t rest]; [simpl in Hk; lia|].
    assert (Hpop : pop_earliest (timers st) = Some (t, rest))
      by (rewrite Hl; exact (pop_earliest_sorted t rest Hs)).
    cbn [repeat run step]. unfold fire. rewrite Hpop. cbv zeta.
    assert (Hrest : increasing (map due rest)) by now inversion Hs.
    assert (Hcb' : forall u len, In u rest -> callback u <> StartTrial len).
    { intros u len Hu. apply Hcb. now right. }
    assert (Hk' : (k <= length rest)%nat) by (simpl in Hk; lia).
    cbn [firstn skipn]. unfold played at 1. cbn [fold_left].
    fold (played (firstn k rest)).
    destruct (callback t) as [cell| |len] eqn:Ht.
    + rewrite (IH rest (set_lit cell (set_timers rest st)) eq_refl
                  Hrest Hcb' Hk').
      f_equal.
      change (set_lit cell (set_timers rest st))
        with (set_timers rest (set_lit cell st)).
      now rewrite played_set_timers.
    + rewrite (IH rest (set_phase respond (set_timers rest st)) eq_refl
                  Hrest Hcb' Hk').
      f_equal.
      change (set_phase respond (set_timers rest st))
        with (set_timers rest (set_phase respond st)).
      now rewrite played_set_timers.
    + exfalso. apply (Hcb t len); [now left | exact Ht].
Qed.

Lemma played_slots now arr :
  forall t0 st k cell,
    nth_error arr k = Some cell ->
    forall tail,
      let l := arm true now
                 (slots (fun c => SetLit (Some c)) (SetLit None)
                        600 400 t0 arr) ++ tail in
      lit (played (firstn (2 * k + 1) l) st) = Some cell
      /\ phase (played (firstn (2 * k + 1) l) st) = phase st
      /\ lit (played (firstn (2 * k + 2) l) st) = None
      /\ phase (played (firstn (2 * k + 2) l) st) = phase st.
Proof.
  induction arr as [|c rest IH]; intros t0 st k cell Hk tail l.
  - destruct k; discriminate.
  - unfold l. cbn [slots arm map app].
    destruct k as [|k].
    + injection Hk as <-. cbn. repeat split.
    + replace (2 * S k + 1)%nat with (S (S (2 * k + 1))) by lia.
      replace (2 * S k + 2)%nat with (S (S (2 * k + 2))) by lia.
      cbn [firstn]. unfold played. cbn [fold_left callback].
      fold (played (firstn (2 * k + 1)
              (map (fun '(delay, cb) =>
                      {| due := now + delay; tracked := true;
                         callback := cb |})
                   (slots (fun c => SetLit (Some c)) (SetLit None)
                          600 400 (t0 + 600 + 400) rest) ++ tail))).
      fold (played (firstn (2 * k + 2)
              (map (fun '(delay, cb) =>
                      {| due := now + delay; tracked := true;
                         callback := cb |})
                   (slots (fun c => SetLit (Some c)) (SetLit None)
                          600 400 (t0 + 600 + 400) rest) ++ tail))).
      apply (IH (t0 + 600 + 400)
                (set_lit None (set_lit (Some c) st)) k cell Hk tail).
Qed.

Lemma played_all_slots now arr :
  forall t0 st,
    let l := arm true now
               (slots (fun c => SetLit (Some c)) (SetLit None)
                      600 400 t0 arr) in
    lit (played l st) = match arr with [] => lit st | _ => None end
    /\ phase (played l st) = phase st
    /\ seq (played l st) = seq st
    /\ replayPos (played l st) = replayPos st
    /\ running (played l st) = running st.
Proof.
  induction arr as [|c rest IH]; intros t0 st l.
  - repeat split.
  - unfold l. cbn [slots arm map]. unfold played. cbn [fold_left callback].
    destruct (IH (t0 + 600 + 400) (set_lit None (set_lit (Some c) st)))
      as (H1 & H2 & H3 & H4 & H5).
    unfold played, arm in H1, H2, H3, H4, H5.
    rewrite H1, H2, H3, H4, H5. destruct rest; repeat split.
Qed.


Lemma arm_increasing {C : Type} (isTracked : bool) (now : Z)
      (calls : list (Z * C)) :
  increasing (map fst calls) ->
  increasing (map due (arm isTracked now calls)).
Proof.
  unfold arm. rewrite map_map.
  induction calls as [|[d c] l IH]; simpl; intros Hs; [constructor|].
  inversion Hs as [|? ? Hs' Hall]; subst.
  constructor; [apply IH, Hs'|].
  rewrite Forall_map in *. eapply Forall_impl; [|exact Hall].
  intros [d' c']. simpl. lia.
Qed.

(** X17.  Presenting a sequence and letting its timers fire lights the
    cells in the order of the sequence: after [2k + 1] timers the cell of
    position [k] (from 0) is lit, after [2k + 2] timers no cell is lit,
    and the phase is still "present"; after all [2n + 1] timers the phase
    is "respond", no cell is lit, no timer is left, and the sequence and
    the replay position are as [presentSeq] found them. *)
Theorem presentation_lights_the_sequence_in_order :
  forall arr now st,
    timers st = [] ->
    let st1 := presentSeq arr now st in
    (forall k cell,
        nth_error arr k = Some cell ->
        exists sa sb,
          fires (2 * k + 1) st1 = Some sa
          /\ lit sa = Some cell /\ phase sa = present
          /\ fires (2 * k + 2) st1 = Some sb
          /\ lit sb = None /\ phase sb = present)
    /\ exists sz,
        fires (2 * length arr + 1) st1 = Some sz
        /\ phase sz = respond /\ timers sz = []
        /\ lit sz = match arr with [] => lit st | _ => None end
        /\ seq sz = seq st /\ replayPos sz = replayPos st.
Proof.
  intros arr now st Hempty st1.
  set (on := fun c : nat => SetLit (Some c)).
  set (body := arm true now (slots on (SetLit None) 600 400 0 arr)).
  set (final := {| due := now + 1000 * Z.of_nat (length arr);
                   tracked := true; callback := SetPhaseRespond |}).
  assert (Ht : timers st1 = body ++ [final]).
  { unfold st1. rewrite CP_presentSeq_timers, Hempty.
    rewrite CP_presentSeq_timeouts_slots. unfold arm.
    now rewrite map_app. }
  assert (Hlen : length (body ++ [final]) = (2 * length arr + 1)%nat).
  { rewrite length_app. unfold body, arm.
    rewrite length_map, slots_length. reflexivity. }
  destruct (schedule_shape on (SetLit None) SetPhaseRespond arr)
    as (_ & _ & _ & Hinc & _).
  assert (Hs : increasing (map due (body ++ [final]))).
  { pose proof (arm_increasing true now _ Hinc) as H.
    unfold arm in H. rewrite map_app in H. exact H. }
  assert (Hcb : forall t len,
             In t (body ++ [final]) -> callback t <> StartTrial len).
  { intros t len Hin. rewrite <- Ht in Hin. unfold st1 in Hin.
    rewrite CP_presentSeq_timers, Hempty in Hin.
    apply presentation_callbacks in Hin.
    destruct Hin as [(c & ->)| ->]; discriminate. }
  assert (Hph : phase st1 = present) by apply presentSeq_phase.
  split.
  - intros k cell Hk.
    assert (Hkn : (k < length arr)%nat)
      by (apply nth_error_Some; congruence).
    destruct (played_slots now arr 0 st1 k cell Hk [final])
      as (H1 & H2 & H3 & H4).
    fold on in H1, H2, H3, H4. fold body in H1, H2, H3, H4.
    eexists. eexists.
    assert (Hle1 : (2 * k + 1 <= length (body ++ [final]))%nat)
      by (rewrite Hlen; lia).
    assert (Hle2 : (2 * k + 2 <= length (body ++ [final]))%nat)
      by (rewrite Hlen; lia).
    rewrite (fires_sorted (2 * k + 1) _ st1 Ht Hs Hcb Hle1).
    rewrite (fires_sorted (2 * k + 2) _ st1 Ht Hs Hcb Hle2).
    split; [reflexivity|]. split; [exact H1|].
    split; [exact (eq_trans H2 Hph)|].
    split; [reflexivity|]. split; [exact H3|].
    exact (eq_trans H4 Hph).
  - eexists.
    assert (Hle : (2 * length arr + 1 <= length (body ++ [final]))%nat)
      by (rewrite Hlen; lia).
    rewrite (fires_sorted (2 * length arr + 1) _ st1 Ht Hs Hcb Hle).
    split; [reflexivity|].
    rewrite <- Hlen, firstn_all, skipn_all.
    destruct (played_all_slots now arr 0 st1) as (H1 & H2 & H3 & H4 & _).
    fold on in H1, H2, H3, H4. fold body in H1, H2, H3, H4.
    unfold played. rewrite fold_left_app. cbn [fold_left callback final].
    fold (played body st1).
    cbn [phase timers lit seq replayPos set_phase set_timers].
    split; [reflexivity|]. split; [reflexivity|].
    rewrite H1, H3, H4.
    destruct (presentSeq_same arr now st) as (_ & _ & E3 & _).
    fold st1 in E3.
    split; [|split; [exact E3 | apply presentSeq_replayPos]].
    destruct arr; [|reflexivity].
    reflexivity.
Qed.

End SpanPresentation.

(** ** SpamperceptionBlocks *)

Section BlocksInvariant.
Import Call Scheduler SpamperceptionBlocks BlocksSessionProps.

Lemma bump_app_lt (p : nat) (l1 l2 : list Slot) :
  (p < length l1)%nat -> bump p (l1 ++ l2) = bump p l1 ++ l2.
Proof.
  revert p. induction l1 as [|x l1 IH]; intros [|p] H; simpl in *;
    try lia; try reflexivity.
  rewrite IH by lia. reflexivity.
Qed.

Lemma bump_app_ge (q : nat) (l1 l2 : list Slot) :
  l2 <> [] -> bump (length l1 + q) (l1 ++ l2) = l1 ++ bump q l2.
Proof.
  intros Hne. induction l1 as [|x l1 IH]; simpl.
  - reflexivity.
  - rewrite IH. destruct (l1 ++ l2) eqn:E; [|reflexivity].
    apply app_eq_nil in E. destruct E as [_ E]. contradiction.
Qed.

Lemma bump_counts (cs : list nat) :
  forall p, (p < length cs)%nat ->
            exists cs', length cs' = length cs
                        /\ bump p (map Count cs) = map Count cs'.
Proof.
  induction cs as [|c cs IH]; intros [|p] H; simpl in *; try lia.
  - exists (S c :: cs). split; reflexivity.
  - destruct (IH p ltac:(lia)) as (cs' & Hl & He).
    exists (c :: cs'). simpl. rewrite Hl, He. split; reflexivity.
Qed.

Lemma bump_past_the_counts (cs : list nat) :
  bump (length cs) (map Count cs) = map Count cs ++ [NotANumber].
Proof. induction cs as [|c cs IH]; simpl; [reflexivity | now rewrite IH]. Qed.

Lemma seven_counts_bump p arr :
  (p < Z.to_nat MAX_LEN)%nat -> seven_counts arr -> seven_counts (bump p arr).
Proof.
  intros Hp (cs & Hl & ->).
  destruct (bump_counts cs p ltac:(lia)) as (cs' & Hl' & He).
  exists cs'. split; [lia | exact He].
Qed.

(** The array of totals under [arr[p] += 1] for a position up to
    [MAX_LEN]. *)
Lemma totals_bump p arr :
  (p <= Z.to_nat MAX_LEN)%nat ->
  seven_counts arr \/ seven_counts_and_NaN arr ->
  seven_counts (bump p arr) \/ seven_counts_and_NaN (bump p arr).
Proof.
  intros Hp H.
  destruct (Nat.eq_dec p (Z.to_nat MAX_LEN)) as [->|Hne].
  - right. destruct H as [(cs & Hl & ->) | (cs & Hl & ->)];
      exists cs; (split; [exact Hl|]); rewrite <- Hl.
    + apply bump_past_the_counts.
    + rewrite <- (length_map Count cs) at 1.
      rewrite <- (Nat.add_0_r (length (map Count cs))).
      rewrite bump_app_ge by discriminate. reflexivity.
  - destruct H as [H | (cs & Hl & ->)].
    + left. apply seven_counts_bump; [lia | exact H].
    + right. destruct (bump_counts cs p ltac:(lia)) as (cs' & Hl' & He).
      exists cs'. split; [lia|].
      rewrite bump_app_lt by (rewrite length_map; lia).
      now rewrite He.
Qed.

Lemma longest_snoc (l : list (nat * bool)) (n : nat) (ok : bool) :
  list_max (map fst (filter snd (l ++ [(n, ok)])))
  = if ok then Nat.max (list_max (map fst (filter snd l))) n
    else list_max (map fst (filter snd l)).
Proof.
  rewrite filter_app, map_app, list_max_app. destruct ok; simpl; lia.
Qed.

Lemma failures_snoc (l : list (nat * bool)) (n : nat) (ok : bool) :
  length (filter (fun t => negb (snd t)) (l ++ [(n, ok)]))
  = (length (filter (fun t => negb (snd t)) l)
     + if ok then 0 else 1)%nat.
Proof. rewrite filter_app, length_app. destruct ok; reflexivity. Qed.

Lemma stats_ok_fresh : stats_ok freshStats.
Proof.
  assert (H : seven_counts (repeat (Count 0) (Z.to_nat MAX_LEN)))
    by (exists (repeat 0%nat (Z.to_nat MAX_LEN)); split; reflexivity).
  constructor; simpl; try reflexivity; try constructor; try lia.
  - exact H.
  - left. exact H.
Qed.

Lemma stats_ok_clicked_right p r ms :
  (p < Z.to_nat MAX_LEN)%nat ->
  stats_ok ms -> stats_ok (clicked_right p r ms).
Proof.
  intros Hp [H1 H2 H3 H4 H5 H6 [H7 H8]].
  constructor; simpl; try assumption; try lia.
  - destruct (0 <? r) eqn:Hr; [|exact H5].
    apply Forall_app. split; [exact H5|].
    constructor; [lia | constructor].
  - destruct (0 <? r); [rewrite length_app; simpl|]; lia.
  - split; [now apply seven_counts_bump | apply totals_bump; [lia|exact H8]].
Qed.

Lemma stats_ok_closed_right n ms :
  Z.of_nat n <= MAX_LEN ->
  stats_ok ms -> stats_ok (trial_closed true n ms).
Proof.
  intros Hn [H1 H2 H3 H4 H5 H6 H7].
  constructor; simpl; try assumption.
  - unfold failures in *. simpl. rewrite failures_snoc. lia.
  - unfold longest in *. simpl. rewrite longest_snoc. lia.
  - apply Forall_app. split; [exact H4|].
    constructor; [exact Hn | constructor].
Qed.

Lemma stats_ok_closed_wrong p n ms :
  (p <= Z.to_nat MAX_LEN)%nat ->
  Z.of_nat n <= MAX_LEN ->
  stats_ok ms -> stats_ok (trial_closed false n (clicked_wrong p ms)).
Proof.
  intros Hp Hn [H1 H2 H3 H4 H5 H6 [H7 H8]].
  constructor; simpl; try assumption; try lia.
  - unfold failures in *. simpl. rewrite failures_snoc. lia.
  - unfold longest in *. simpl. now rewrite longest_snoc.
  - apply Forall_app. split; [exact H4|].
    constructor; [exact Hn | constructor].
  - split; [exact H7 | now apply totals_bump].
Qed.

Lemma longest_bounded ms :
  stats_ok ms -> Z.of_nat (spanMax ms) <= MAX_LEN.
Proof.
  intros [_ _ H3 H4 _ _ _]. rewrite H3. unfold longest.
  induction (trials ms) as [|[n ok] l IH]; simpl; [unfold MAX_LEN; lia|].
  inversion H4 as [|? ? Hn Hl]; subst. simpl in Hn.
  specialize (IH Hl). destruct ok; simpl; [|exact IH]. lia.
Qed.

(** [resetStatsIfNeeded] fills in what is missing and nothing else. *)
Lemma reset_lookup (modes : list Mode) :
  forall d k,
    lookup k (fold_left
                (fun d m => match lookup m d with
                            | None => store m freshStats d
                            | Some _ => d
                            end) modes d)
    = match lookup k d with
      | Some v => Some v
      | None => if existsb (Mode_eqb k) modes then Some freshStats else None
      end.
Proof.
  induction modes as [|m modes IH]; intros d k; simpl.
  - now destruct (lookup k d).
  - rewrite IH. destruct (lookup m d) as [v|] eqn:Hm.
    + destruct (lookup k d) eqn:Hk; [reflexivity|].
      destruct (Mode_eqb k m) eqn:E; [|reflexivity].
      apply Mode_eqb_eq in E. congruence.
    + rewrite lookup_store.
      destruct (Mode_eqb m k) eqn:E.
      * apply Mode_eqb_eq in E. subst k. rewrite Hm.
        now rewrite Mode_eqb_refl.
      * destruct (lookup k d); [reflexivity|].
        destruct (Mode_eqb k m) eqn:E'; [|reflexivity].
        apply Mode_eqb_eq in E'. subst k. now rewrite Mode_eqb_refl in E.
Qed.

Lemma start_lookup now st k :
  lookup k (stats (start now st))
  = Some match lookup k (stats st) with
         | Some v => v
         | None => freshStats
         end.
Proof.
  change (stats (start now st)) with (stats (resetStatsIfNeeded st)).
  unfold resetStatsIfNeeded. cbn [stats set_stats].
  rewrite reset_lookup. destruct (lookup k (stats st)); [reflexivity|].
  now destruct k.
Qed.

(** A presentation arms its timers and touches nothing but the phase,
    the response clock and the replay position. *)
Lemma presentSequence_eq arr now st :
  presentSequence arr now st
  = set_timers (timers st ++ arm true now (presentSequence_timeouts arr))
      (set_replayPos 0 (set_responseStart None (set_phase present st))).
Proof.
  unfold presentSequence. cbv zeta.
  set (s0 := set_replayPos 0 (set_responseStart None (set_phase present st))).
  change (timers st) with (timers s0). generalize s0.
  induction (presentSequence_timeouts arr) as [|[d c] l IH]; intros s.
  - simpl. rewrite app_nil_r. now destruct s.
  - cbn [fold_left]. rewrite IH. destruct s. unfold setTimeout, set_timers.
    simpl. now rewrite <- app_assoc.
Qed.

Lemma presentation_never_opens_a_block arr now t nb :
  In t (arm true now (presentSequence_timeouts arr)) ->
  callback t <> NextBlock nb.
Proof.
  rewrite SB_presentSequence_timeouts_slots. unfold arm.
  rewrite map_app, in_app_iff. intros [H|[<-|[]]]; [|discriminate].
  revert H. generalize 0.
  induction arr as [|c arr IH]; intros t0; simpl; [intros []|].
  intros [<-|[<-|H]]; [discriminate | discriminate | now apply IH in H].
Qed.

End BlocksInvariant.

Section BlocksReports.
Import Call Scheduler SpamperceptionBlocks BlocksSessionProps.

Lemma Qdiv_unit (s n : Q) :
  (0 < n)%Q -> (0 <= s)%Q -> (s <= n)%Q -> (0 <= s / n <= 1)%Q.
Proof.
  intros Hn H0 H1. split.
  - apply Qle_shift_div_l; [exact Hn|]. lra.
  - apply Qle_shift_div_r; [exact Hn|]. lra.
Qed.

Lemma ratio_unit (ms : ModStats) :
  stats_ok ms ->
  (0 <= (if (0 <? total ms)%nat
         then inject_Z (Z.of_nat (hits ms)) / inject_Z (Z.of_nat (total ms))
         else 0) <= 1)%Q.
Proof.
  intros [H1 _ _ _ _ _ _].
  destruct (0 <? total ms)%nat eqn:Ht; [|lra].
  apply Nat.ltb_lt in Ht.
  destruct (ratio_bounds (Z.of_nat (hits ms)) (Z.of_nat (total ms)) 0 1
              ltac:(lia) ltac:(lia)) as [Ha Hb].
  change (inject_Z 0) with 0%Q in Ha. change (inject_Z 1) with 1%Q in Hb.
  split; assumption.
Qed.

Lemma span_unit (ms : ModStats) :
  stats_ok ms -> (0 <= inject_Z (Z.of_nat (spanMax ms)) <= 7)%Q.
Proof.
  intros H. apply longest_bounded in H. unfold MAX_LEN in H. split.
  - change 0%Q with (inject_Z 0). rewrite <- Zle_Qle. lia.
  - change 7%Q with (inject_Z 7). rewrite <- Zle_Qle. lia.
Qed.

Lemma acc_bounds (ms : ModStats) : stats_ok ms -> 0 <= acc ms <= 100.
Proof.
  intros [H1 _ _ _ _ _ _]. unfold acc.
  destruct (0 <? total ms)%nat eqn:Ht; [|lia].
  apply Nat.ltb_lt in Ht.
  pose proof (counter_positive (total ms) Ht).
  apply percent_bounds.
  - apply counter_nonneg.
  - apply counter_le. lia.
  - lra.
Qed.

Lemma metrics_ok (ms : ModStats) :
  stats_ok ms ->
  0 <= m_accuracyPct (modalityMetrics ms) <= 100
  /\ Z.of_nat (m_spanMax (modalityMetrics ms)) <= MAX_LEN
  /\ 0 <= m_reactionTimeBestMs (modalityMetrics ms)
       <= m_reactionTimeAvgMs (modalityMetrics ms).
Proof.
  intros H. simpl. split; [now apply acc_bounds|].
  split; [now apply longest_bounded|]. split.
  - apply best_positive. now destruct H.
  - apply best_le_mean.
Qed.

Lemma buildReport_ok now st r :
  (forall m ms, lookup m (stats st) = Some ms -> stats_ok ms) ->
  buildReport now st = Some r -> report_ok r.
Proof.
  intros Hok. unfold buildReport. rewrite forModes_map.
  unfold MODES. cbn [forModes].
  destruct (lookup digits (stats st)) as [a|] eqn:Ha; [|discriminate].
  destruct (lookup letters (stats st)) as [b|] eqn:Hb; [|discriminate].
  destruct (lookup colors (stats st)) as [c|] eqn:Hc; [|discriminate].
  destruct (lookup shapes (stats st)) as [d|] eqn:Hd; [|discriminate].
  apply Hok in Ha, Hb, Hc, Hd.
  cbn [option_map map]. intros [= <-]. unfold report_ok.
  cbn [STM_Index metrics perModality map fst length].
  split; [|split; [reflexivity|split; [reflexivity|]]].
  - pose proof (ratio_unit a Ha). pose proof (ratio_unit b Hb).
    pose proof (ratio_unit c Hc). pose proof (ratio_unit d Hd).
    pose proof (span_unit a Ha). pose proof (span_unit b Hb).
    pose proof (span_unit c Hc). pose proof (span_unit d Hd).
    unfold Qsum. cbn [fold_left].
    change (inject_Z (Z.of_nat 4)) with 4%Q.
    change (inject_Z MAX_LEN) with 7%Q.
    change (inject_Z 4) with 4%Q.
    repeat match goal with
           | Hq : (0 <= ?q <= _)%Q |- _ =>
               let x := fresh "x" in
               set (x := q) in *; clearbody x; revert Hq
           end.
    intros.
    assert (Hq1 : (0 <= (0 + x2 + x1 + x0 + x) / (4 * 7) <= 1)%Q)
      by (apply Qdiv_unit; lra).
    assert (Hq2 : (0 <= (0 + x6 + x5 + x4 + x3) / 4 <= 1)%Q)
      by (apply Qdiv_unit; lra).
    revert Hq1 Hq2.
    generalize ((0 + x2 + x1 + x0 + x) / (4 * 7))%Q.
    generalize ((0 + x6 + x5 + x4 + x3) / 4)%Q.
    intros q1 q2 Hq1 Hq2.
    apply Math_round_between.
    + change (inject_Z 0) with 0%Q. lra.
    + change (inject_Z 100) with 100%Q. lra.
  - repeat constructor; try apply metrics_ok; assumption.
Qed.

Lemma buildReport_some now st :
  (forall m, lookup m (stats st) <> None) ->
  buildReport now st <> None.
Proof.
  intros Hall. unfold buildReport. rewrite forModes_map.
  unfold MODES. cbn [forModes].
  destruct (lookup digits (stats st)) eqn:Ha; [|now apply Hall in Ha].
  destruct (lookup letters (stats st)) eqn:Hb; [|now apply Hall in Hb].
  destruct (lookup colors (stats st)) eqn:Hc; [|now apply Hall in Hc].
  destruct (lookup shapes (stats st)) eqn:Hd; [|now apply Hall in Hd].
  discriminate.
Qed.

End BlocksReports.

Section BlocksSteps.
Import Call Scheduler SpamperceptionBlocks BlocksSessionProps.

Lemma blocks_ok_restat st st2 m v :
  blocks_ok st -> stats_ok v ->
  (forall k, lookup k (stats st2)
             = if Mode_eqb m k then Some v else lookup k (stats st)) ->
  seq st2 = seq st -> blockIdx st2 = blockIdx st ->
  trialIdx st2 = trialIdx st -> seqLen st2 = seqLen st ->
  timers st2 = timers st -> scores st2 = scores st ->
  (replayPos st2 <= Z.to_nat MAX_LEN)%nat ->
  blocks_ok st2.
Proof.
  intros [P1 P2 P3 P4 P5 P6 P7 P8 P9] Hv Hl E1 E2 E3 E4 E5 E6 E7.
  constructor; rewrite ?E1, ?E2, ?E3, ?E4, ?E5, ?E6; try assumption.
  - intros k. rewrite Hl. destruct (Mode_eqb m k); [discriminate|apply P1].
  - intros k ms. rewrite Hl.
    destruct (Mode_eqb m k); [intros [= <-]; exact Hv | apply P2].
Qed.

Lemma blocks_ok_startTrial len draws now st st' :
  0 <= len <= MAX_LEN ->
  blocks_ok st -> startTrial len draws now st = Some st' -> blocks_ok st'.
Proof.
  intros Hlen [P1 P2 P3 P4 P5 P6 P7 P8 P9]. unfold startTrial.
  destruct (randUniqueSeq len draws) as [arr| |] eqn:Hr; try discriminate.
  intros [= <-]. rewrite presentSequence_eq.
  destruct (randUniqueSeq_returned len draws arr ltac:(lia) Hr) as (Hl & _).
  constructor; cbn [stats seq blockIdx trialIdx seqLen timers scores
                    replayPos set_timers set_replayPos set_responseStart
                    set_phase set_seq]; try assumption; try lia.
  - intros t nb [Hin|Hin]%in_app_iff Hcb; [now apply (P7 t)|].
    now apply presentation_never_opens_a_block with (nb := nb) in Hin.
Qed.

Lemma clamp_range v : MIN_LEN <= clamp v MIN_LEN MAX_LEN <= MAX_LEN.
Proof. unfold clamp, MIN_LEN, MAX_LEN. lia. Qed.

Lemma blocks_ok_finishTrial ok draws now st st' ms :
  lookup (mode st) (stats st) = Some ms ->
  blocks_ok (set_stats
               (store (mode st) (trial_closed ok (length (seq st)) ms)
                      (stats st)) st) ->
  finishTrial ok draws now st = Some st' -> blocks_ok st'.
Proof.
  intros Hms Hok. unfold finishTrial. rewrite Hms. cbv zeta.
  change {| spanMax := if ok then Nat.max (spanMax ms) (length (seq st))
                       else spanMax ms;
            hits := hits ms; total := total ms; errors := errors ms;
            rtList := rtList ms; spCorrByPos := spCorrByPos ms;
            spTotalByPos := spTotalByPos ms;
            trials := trials ms ++ [(length (seq st), ok)] |}
    with (trial_closed ok (length (seq st)) ms).
  set (st1 := set_stats _ st) in *.
  pose proof (clamp_range (seqLen st1 + (if ok then 1 else -1))) as Hc.
  set (next := clamp _ MIN_LEN MAX_LEN) in *.
  destruct Hok as [P1 P2 P3 P4 P5 P6 P7 P8 P9].
  destruct (SEQS_PER_BLOCK <=? trialIdx (set_seqLen next st1) + 1)%nat
    eqn:Hlast.
  - destruct (length MODES <=?
              blockIdx (set_phase between
                          (emitEvent (BLOCK_END now (mode st) SEQS_PER_BLOCK)
                                     (set_seqLen next st1))) + 1)%nat
      eqn:Hblock.
    + destruct (buildReport now _) as [r|] eqn:Hr; [|discriminate].
      intros [= <-]. apply buildReport_ok in Hr; [|exact P2].
      constructor; cbn [stats seq blockIdx trialIdx seqLen timers scores
                        replayPos emitScore set_blockIdx set_running
                        set_phase emitEvent set_seqLen]; try assumption.
      * simpl. lia.
      * apply Forall_app. split; [exact P8|]. now constructor.
    + intros [= <-]. apply Nat.leb_gt in Hblock.
      cbn [blockIdx set_phase emitEvent set_seqLen] in Hblock.
      constructor; cbn [stats seq blockIdx trialIdx seqLen timers scores
                        replayPos setTimeout set_timers set_phase
                        emitEvent set_seqLen]; try assumption.
      intros t nb [Hin|[<-|[]]]%in_app_iff Hcb; [now apply (P7 t)|].
      cbn [callback] in Hcb. injection Hcb as <-. exact Hblock.
  - apply Nat.leb_gt in Hlast. cbn [trialIdx set_seqLen] in Hlast.
    apply blocks_ok_startTrial; [unfold MIN_LEN in Hc; lia|].
    constructor; cbn [stats seq blockIdx trialIdx seqLen timers scores
                      replayPos set_trialIdx set_phase set_seqLen];
      assumption.
Qed.

End BlocksSteps.

Section BlocksHandlers.
Import Call Scheduler SpamperceptionBlocks BlocksSessionProps.

Lemma blocks_ok_onCellClick cell nowPerf now draws st st' :
  blocks_ok st ->
  onCellClick cell nowPerf now draws st = Some st' -> blocks_ok st'.
Proof.
  intros Hok. unfold onCellClick.
  destruct (negb (Phase_eqb (phase st) respond)); [now intros [= <-]|].
  destruct (lookup (mode st) (stats st)) as [ms|] eqn:Hms; [|discriminate].
  cbv zeta.
  pose proof (stats_consistent st Hok _ _ Hms) as Hst.
  pose proof (sequence_bounded st Hok) as Hseq.
  pose proof (replay_in_range st Hok) as Hpos.
  set (p := replayPos st) in *. set (r := clickRt nowPerf st).
  change {| spanMax := spanMax ms; hits := S (hits ms);
            total := S (total ms); errors := errors ms;
            rtList := if 0 <? r then rtList ms ++ [r] else rtList ms;
            spCorrByPos := bump p (spCorrByPos ms);
            spTotalByPos := bump p (spTotalByPos ms);
            trials := trials ms |}
    with (clicked_right p r ms).
  change {| spanMax := spanMax ms; hits := hits ms;
            total := S (total ms); errors := S (errors ms);
            rtList := rtList ms; spCorrByPos := spCorrByPos ms;
            spTotalByPos := bump p (spTotalByPos ms);
            trials := trials ms |}
    with (clicked_wrong p ms).
  assert (Hp : match nth_error (seq st) p with
               | Some e => Nat.eqb cell e
               | None => false
               end = true -> (p < Z.to_nat MAX_LEN)%nat).
  { destruct (nth_error (seq st) p) eqn:He; [|discriminate].
    intros _. assert (p < length (seq st))%nat
      by (apply nth_error_Some; congruence).
    lia. }
  destruct (match nth_error (seq st) p with
            | Some e => Nat.eqb cell e
            | None => false
            end).
  - specialize (Hp eq_refl).
    match goal with
    | |- context [(length ?s <=? ?x)%nat] => destruct (length s <=? x)%nat
    end.
    + apply blocks_ok_finishTrial with (ms := clicked_right p r ms).
      * cbn [stats set_stats set_trialLog set_replayPos emitEvent].
        change (mode _) with (mode st).
        now rewrite lookup_store, Mode_eqb_refl.
      * apply blocks_ok_restat
          with (st := st) (m := mode st)
               (v := trial_closed true (length (seq st))
                       (clicked_right p r ms));
          try reflexivity; try assumption.
        -- apply stats_ok_closed_right; [exact Hseq|].
           now apply stats_ok_clicked_right.
        -- intros k. cbn [stats set_stats set_trialLog set_replayPos
                          emitEvent set_lastClickPerf].
           change (mode _) with (mode st).
           rewrite !lookup_store. now destruct (Mode_eqb (mode st) k).
        -- cbn [replayPos set_stats emitEvent set_replayPos]. lia.
    + intros [= <-].
      apply blocks_ok_restat
        with (st := st) (m := mode st) (v := clicked_right p r ms);
        try reflexivity; try assumption.
      * now apply stats_ok_clicked_right.
      * intros k. cbn [stats set_stats set_trialLog set_replayPos].
        now rewrite lookup_store.
      * cbn [replayPos set_replayPos]. lia.
  - apply blocks_ok_finishTrial with (ms := clicked_wrong p ms).
    + cbn [stats set_stats set_trialLog set_replayPos emitEvent].
      change (mode _) with (mode st).
      now rewrite lookup_store, Mode_eqb_refl.
    + apply blocks_ok_restat
        with (st := st) (m := mode st)
             (v := trial_closed false (length (seq st))
                     (clicked_wrong p ms));
        try reflexivity; try assumption.
      * now apply stats_ok_closed_wrong.
      * intros k. cbn [stats set_stats set_trialLog set_replayPos
                       emitEvent set_lastClickPerf].
        change (mode _) with (mode st).
        rewrite !lookup_store. now destruct (Mode_eqb (mode st) k).
Qed.

Lemma blocks_ok_start now st :
  st = initial \/ blocks_ok st -> blocks_ok (start now st).
Proof.
  intros H.
  assert (Hst : forall m ms, lookup m (stats st) = Some ms -> stats_ok ms).
  { destruct H as [->|H]; [discriminate | exact (stats_consistent st H)]. }
  assert (Ht : forall t nb, In t (timers st) -> callback t = NextBlock nb ->
                            (nb < length MODES)%nat).
  { destruct H as [->|H]; [intros t nb [] | exact (next_block_in_range st H)]. }
  assert (Hr : Forall report_ok (scores st)).
  { destruct H as [->|H]; [constructor | exact (reports_in_range st H)]. }
  assert (Hp : (replayPos st <= Z.to_nat MAX_LEN)%nat).
  { destruct H as [->|H]; [simpl; lia | exact (replay_in_range st H)]. }
  constructor.
  - intros m. rewrite start_lookup. discriminate.
  - intros m ms. rewrite start_lookup. intros [= <-].
    destruct (lookup m (stats st)) eqn:Hm; [now apply (Hst m)|].
    exact stats_ok_fresh.
  - simpl. unfold MAX_LEN. lia.
  - simpl. lia.
  - simpl. unfold SEQS_PER_BLOCK. lia.
  - simpl. unfold MIN_LEN, START_LEN, MAX_LEN. lia.
  - intros t nb. cbn [timers start setTimeout set_timers emitEvent
                      set_startTs set_trialLog set_seq set_phase set_seqLen
                      set_trialIdx set_blockIdx set_running
                      resetStatsIfNeeded set_stats].
    intros [Hin|[<-|[]]]%in_app_iff Hcb; [now apply (Ht t)|discriminate].
  - exact Hr.
  - exact Hp.
Qed.

Lemma blocks_ok_stop now st st' :
  blocks_ok st -> stop now st = Some st' -> blocks_ok st'.
Proof.
  intros [P1 P2 P3 P4 P5 P6 P7 P8 P9]. unfold stop. cbv zeta.
  destruct (buildReport now _) as [r|] eqn:Hr; [|discriminate].
  intros [= <-]. apply buildReport_ok in Hr; [|exact P2].
  constructor; cbn [stats seq blockIdx trialIdx seqLen timers scores
                    replayPos emitScore emitEvent set_running clearTimers
                    set_timers];
    try assumption.
  - intros t nb [Hin _]%filter_In. now apply P7.
  - apply Forall_app. split; [exact P8|]. now constructor.
Qed.

Lemma blocks_ok_fire draws nowPerf st st' :
  blocks_ok st -> fire draws nowPerf st = Some st' -> blocks_ok st'.
Proof.
  intros Hok. unfold fire.
  destruct (pop_earliest (timers st)) as [[t rest]|] eqn:Hp; [|discriminate].
  pose proof (pop_earliest_In _ _ _ Hp) as Hin.
  pose proof (pop_earliest_incl _ _ _ Hp) as Hincl.
  destruct Hok as [P1 P2 P3 P4 P5 P6 P7 P8 P9].
  assert (Hrest : blocks_ok (set_timers rest st)).
  { constructor; cbn [stats seq blockIdx trialIdx seqLen timers scores
                      replayPos set_timers]; try assumption.
    intros u nb Hu. apply P7. now apply Hincl. }
  destruct (callback t) as [c|len| |nb] eqn:Hcb; cbv zeta.
  - intros [= <-]. destruct Hrest. now constructor.
  - intros [= <-]. destruct Hrest. now constructor.
  - apply blocks_ok_startTrial; [unfold START_LEN, MAX_LEN; lia|exact Hrest].
  - apply blocks_ok_startTrial; [unfold START_LEN, MAX_LEN; lia|].
    destruct Hrest as [Q1 Q2 Q3 Q4 Q5 Q6 Q7 Q8 Q9].
    constructor; cbn [stats seq blockIdx trialIdx seqLen timers scores
                      replayPos set_phase set_seqLen set_trialIdx
                      set_blockIdx set_timers] in *; try assumption.
    + now apply (P7 t).
    + unfold SEQS_PER_BLOCK. lia.
    + unfold MIN_LEN, START_LEN, MAX_LEN. lia.
Qed.

Lemma blocks_ok_step inp st st' :
  step inp st = Some st' ->
  st = initial \/ blocks_ok st -> st' = initial \/ blocks_ok st'.
Proof.
  destruct inp as [now|now|cell nowPerf now draws|draws nowPerf]; simpl.
  - destruct (running st); [discriminate|].
    intros [= <-] H. right. now apply blocks_ok_start.
  - destruct (running st) eqn:Hrun; [|discriminate].
    intros Hs [->|H]; [discriminate|]. right.
    eapply blocks_ok_stop; eassumption.
  - destruct (cellDisabled st) eqn:Hd; [now intros [= <-]|].
    intros Hs [->|H]; [discriminate|]. right.
    eapply blocks_ok_onCellClick; eassumption.
  - intros Hs [->|H]; [discriminate|]. right.
    eapply blocks_ok_fire; eassumption.
Qed.

Lemma blocks_ok_run inputs :
  forall st st',
    run inputs st = Some st' ->
    st = initial \/ blocks_ok st -> st' = initial \/ blocks_ok st'.
Proof.
  induction inputs as [|inp rest IH]; intros st st'; simpl.
  - now intros [= <-].
  - destruct (step inp st) as [st1|] eqn:Hs; [|discriminate].
    intros Hr H. eapply IH; [exact Hr|].
    eapply blocks_ok_step; eassumption.
Qed.

End BlocksHandlers.

Section BlocksCompletion.
Import Call Scheduler SpamperceptionBlocks BlocksSessionProps.

(** Draws that suffice for a sequence suffice for every shorter one. *)
Lemma randUniqueSeq_loop_shorter len len' draws :
  len <= len' ->
  forall used arr,
    (exists s', randUniqueSeq_loop len' draws used arr = Returned s') ->
    exists s, randUniqueSeq_loop len draws used arr = Returned s.
Proof.
  intros Hle. induction draws as [|r rest IH]; intros used arr [s' Hs'].
  - simpl in *. destruct (Z.of_nat (length arr) <? len) eqn:H1.
    + apply Z.ltb_lt in H1.
      destruct (Z.of_nat (length arr) <? len') eqn:H2; [discriminate|].
      apply Z.ltb_ge in H2. lia.
    + now exists arr.
  - cbn [randUniqueSeq_loop] in *.
    destruct (Z.of_nat (length arr) <? len) eqn:H1; [|now exists arr].
    apply Z.ltb_lt in H1.
    destruct (Z.of_nat (length arr) <? len') eqn:H2;
      [|apply Z.ltb_ge in H2; lia].
    destruct (negb (existsb (Nat.eqb (r mod CELLS)) used));
      apply IH; now exists s'.
Qed.

Lemma startTrial_returns len draws now st arr :
  len <= MAX_LEN ->
  randUniqueSeq MAX_LEN draws = Returned arr ->
  startTrial len draws now st <> None.
Proof.
  intros Hlen Hr. unfold startTrial.
  destruct (randUniqueSeq_loop_shorter len MAX_LEN draws Hlen [] []
              (ex_intro _ arr Hr)) as [s Hs].
  unfold randUniqueSeq. now rewrite Hs.
Qed.

Lemma finishTrial_returns ok draws now st arr :
  (forall m, lookup m (stats st) <> None) ->
  randUniqueSeq MAX_LEN draws = Returned arr ->
  finishTrial ok draws now st <> None.
Proof.
  intros Hall Hr. unfold finishTrial.
  destruct (lookup (mode st) (stats st)) as [ms|] eqn:Hms;
    [|now apply Hall in Hms].
  cbv zeta.
  match goal with
  | |- context [(SEQS_PER_BLOCK <=? ?x)%nat] =>
      destruct (SEQS_PER_BLOCK <=? x)%nat
  end.
  - match goal with
    | |- context [(length MODES <=? ?x)%nat] =>
        destruct (length MODES <=? x)%nat
    end; [|discriminate].
    match goal with
    | |- context [buildReport ?n ?s] =>
        destruct (buildReport n s) eqn:Hb; [discriminate|]
    end.
    apply buildReport_some in Hb; [contradiction|].
    intros k. cbn [stats set_blockIdx set_running set_phase emitEvent
                   set_seqLen set_stats].
    rewrite lookup_store. destruct (Mode_eqb (mode st) k);
      [discriminate | apply Hall].
  - eapply startTrial_returns; [apply clamp_range | exact Hr].
Qed.

Lemma onCellClick_returns cell nowPerf now draws st arr :
  (forall m, lookup m (stats st) <> None) ->
  randUniqueSeq MAX_LEN draws = Returned arr ->
  onCellClick cell nowPerf now draws st <> None.
Proof.
  intros Hall Hr. unfold onCellClick.
  destruct (negb (Phase_eqb (phase st) respond)); [discriminate|].
  destruct (lookup (mode st) (stats st)) as [ms|] eqn:Hms;
    [|now apply Hall in Hms].
  cbv zeta.
  destruct (match nth_error (seq st) (replayPos st) with
            | Some e => Nat.eqb cell e
            | None => false
            end).
  - match goal with
    | |- context [(length ?s <=? ?x)%nat] => destruct (length s <=? x)%nat
    end; [|discriminate].
    eapply finishTrial_returns; [|exact Hr].
    intros k. cbn [stats set_stats set_trialLog set_replayPos emitEvent].
    rewrite lookup_store.
    match goal with
    | |- context [Mode_eqb ?a k] => destruct (Mode_eqb a k)
    end; [discriminate | apply Hall].
  - eapply finishTrial_returns; [|exact Hr].
    intros k. cbn [stats set_stats set_trialLog set_replayPos emitEvent].
    rewrite lookup_store.
    match goal with
    | |- context [Mode_eqb ?a k] => destruct (Mode_eqb a k)
    end; [discriminate | apply Hall].
Qed.

Lemma stop_returns now st :
  (forall m, lookup m (stats st) <> None) -> stop now st <> None.
Proof.
  intros Hall. unfold stop. cbv zeta.
  match goal with
  | |- context [buildReport ?n ?s] =>
      destruct (buildReport n s) eqn:Hb; [discriminate|]
  end.
  now apply buildReport_some in Hb.
Qed.

Lemma started_of_running st :
  st = initial \/ blocks_ok st -> running st = true -> blocks_ok st.
Proof. intros [->|H]; [discriminate | now intros _]. Qed.

End BlocksCompletion.

Section BlocksTheorems.
Import Call Scheduler SpamperceptionBlocks BlocksSessionProps.

(** X18. SpamperceptionBlocks, in every state a session can reach and for
    every modality: the error count is the number of failed trials, the
    reported span is the longest sequence reproduced and at most 7,
    every recorded reaction time is positive, and there are at most as
    many of them as hits.  The serial-position array of correct clicks
    holds 7 counts; the array of totals holds 7 counts, followed by an
    eighth entry [NaN] once a click has been taken at position 7.  The
    replay position is at most 7. *)
Theorem blocks_statistics_consistent inputs st m ms :
  run inputs initial = Some st ->
  lookup m (stats st) = Some ms ->
  errors ms = failures ms
  /\ spanMax ms = longest ms
  /\ Z.of_nat (spanMax ms) <= MAX_LEN
  /\ Forall (fun r => 0 < r) (rtList ms)
  /\ (length (rtList ms) <= hits ms)%nat
  /\ (exists cs, length cs = 7%nat /\ spCorrByPos ms = map Count cs)
  /\ (exists ts,
        length ts = 7%nat
        /\ (spTotalByPos ms = map Count ts
            \/ spTotalByPos ms = map Count ts ++ [NotANumber]))
  /\ (replayPos st <= 7)%nat.
Proof.
  intros Hrun Hm.
  destruct (blocks_ok_run inputs initial st Hrun (or_introl eq_refl))
    as [->|Hok]; [discriminate|].
  pose proof (stats_consistent st Hok m ms Hm) as Hs.
  pose proof (longest_bounded ms Hs) as Hb.
  pose proof (replay_in_range st Hok) as Hp.
  destruct Hs as [_ H2 H3 _ H5 H6 [H7 H8]].
  repeat (split; [assumption|]).
  split; [|exact Hp].
  destruct H8 as [(ts & Hl & He) | (ts & Hl & He)]; exists ts;
    (split; [exact Hl|]); [left | right]; exact He.
Qed.

(** X19. SpamperceptionBlocks never leaves its four blocks of ten trials:
    in every reachable state the block index is below 4 (the fallback
    modality of [mode] is never used), the trial index is below 10, the
    next length lies between 2 and 7, the sequence on display has at
    most 7 cells, and a pending block change leads to an existing
    block. *)
Theorem blocks_session_in_range inputs st :
  run inputs initial = Some st ->
  (blockIdx st < length MODES)%nat
  /\ nth_error MODES (blockIdx st) = Some (mode st)
  /\ (trialIdx st < SEQS_PER_BLOCK)%nat
  /\ MIN_LEN <= seqLen st <= MAX_LEN
  /\ Z.of_nat (length (seq st)) <= MAX_LEN
  /\ forall t nb,
       In t (timers st) -> callback t = NextBlock nb ->
       (nb < length MODES)%nat.
Proof.
  intros Hrun.
  destruct (blocks_ok_run inputs initial st Hrun (or_introl eq_refl))
    as [->|[_ _ P3 P4 P5 P6 P7 _ _]].
  - simpl. unfold SEQS_PER_BLOCK, MIN_LEN, START_LEN, MAX_LEN.
    repeat split; try lia; try reflexivity.
  - repeat split; try assumption; try lia.
    unfold mode. now apply nth_error_nth'.
Qed.

(** X20. Every report of SpamperceptionBlocks, from Stop or from the end
    of the fourth block, lists the four modalities in order and stays in
    range: the STM index and each accuracy lie between 0 and 100, each
    span is at most 7, and the best reaction time is at least 0 and at
    most the average. *)
Theorem blocks_reports_in_range inputs st r :
  run inputs initial = Some st ->
  In r (scores st) ->
  0 <= STM_Index r <= 100
  /\ map fst (metrics r) = MODES
  /\ map fst (perModality r) = MODES
  /\ forall m mm,
       In (m, mm) (metrics r) ->
       0 <= m_accuracyPct mm <= 100
       /\ Z.of_nat (m_spanMax mm) <= MAX_LEN
       /\ 0 <= m_reactionTimeBestMs mm <= m_reactionTimeAvgMs mm.
Proof.
  intros Hrun Hin.
  destruct (blocks_ok_run inputs initial st Hrun (or_introl eq_refl))
    as [->|Hok]; [destruct Hin|].
  pose proof (reports_in_range st Hok) as Hr.
  rewrite Forall_forall in Hr. destruct (Hr r Hin) as (H1 & H2 & H3 & H4).
  split; [exact H1|]. split; [exact H2|]. split; [exact H3|].
  intros m mm Hmm. rewrite Forall_forall in H4. exact (H4 _ Hmm).
Qed.

(** X21. Once SpamperceptionBlocks has been started, no handler fails for
    want of statistics: in every reachable running state Stop builds its
    report, and a click is handled whenever the draws supplied suffice
    for a sequence of 7 cells. *)
Theorem blocks_handlers_find_their_statistics inputs st draws arr :
  run inputs initial = Some st ->
  running st = true ->
  randUniqueSeq MAX_LEN draws = Returned arr ->
  (forall now, step (PressStop now) st <> None)
  /\ (forall cell nowPerf now,
        step (Click cell nowPerf now draws) st <> None).
Proof.
  intros Hrun Hon Hr.
  pose proof (started_of_running st
                (blocks_ok_run inputs initial st Hrun (or_introl eq_refl))
                Hon) as Hok.
  pose proof (stats_present st Hok) as Hall. split.
  - intros now. simpl. rewrite Hon. now apply stop_returns.
  - intros cell nowPerf now. simpl.
    destruct (cellDisabled st); [discriminate|].
    now apply onCellClick_returns with (arr := arr).
Qed.

(** X22. Start does not clear the statistics of SpamperceptionBlocks: a
    modality that has statistics keeps them, one that has none gets fresh
    ones, and only the trial log is emptied. *)
Theorem blocks_start_keeps_statistics now st m :
  lookup m (stats (start now st))
  = Some match lookup m (stats st) with
         | Some ms => ms
         | None => freshStats
         end
  /\ trialLog (start now st) = []
  /\ scores (start now st) = scores st.
Proof.
  split; [apply start_lookup|]. split; reflexivity.
Qed.

End BlocksTheorems.

(** ** The properties above on sessions *)

Section MoreWitnesses.
Import Sessions Examples.

(** X1 on row 4, column 7. *)
Lemma grid_index_round_trip_witness :
  Placement.idxToRowCol (Placement.rowColToIdx 4 7) = (4%nat, 7%nat).
Proof.
  apply (proj2 grid_index_round_trip 4%nat 7%nat).
  unfold Placement.GRID_SIZE. lia.
Defined.

(** X3 on a placement after a stimulus in cell 55: the draws 0 and 0.9
    lead to row 3, column 7. *)
Lemma pickIndex_on_the_grid_and_near_witness :
  Placement.pickIndex (Some 55%nat) (1 # 4) 0 (9 # 10) = 37%nat
  /\ (Placement.pickIndex (Some 55%nat) (1 # 4) 0 (9 # 10) < 100)%nat
  /\ Z.abs (3 - 5) <= 2 /\ Z.abs (7 - 5) <= 2.
Proof.
  destruct (pickIndex_on_the_grid_and_near (Some 55%nat) (1 # 4) 0 (9 # 10))
    as [Hlt Hnear];
    [unfold Qle; simpl; lia | unfold Qlt; simpl; lia
     | unfold Qle; simpl; lia | unfold Qlt; simpl; lia |].
  split; [reflexivity|]. split; [exact Hlt|].
  apply (Hnear 55%nat).
  - reflexivity.
  - unfold Placement.GRID_SIZE. lia.
  - unfold Qlt. simpl. lia.
Defined.

(** X4 on the draws 0.75 and 0.5: row 5 of the right column. *)
Lemma pickEdgeIndex_on_an_edge_witness :
  (Placement.pickEdgeIndex (3 # 4) (1 # 2) < 100)%nat
  /\ snd (Placement.idxToRowCol (Placement.pickEdgeIndex (3 # 4) (1 # 2)))
     = 9%nat.
Proof.
  apply (pickEdgeIndex_on_an_edge (3 # 4) (1 # 2));
    [unfold Qle; simpl; lia | unfold Qlt; simpl; lia].
Defined.

(** X6 on a session stopped while its first stimulus is displayed. *)
Lemma go_nogo_display_discipline_witness :
  GoNoGo.stimuli (ColorReactionGame.run stoppedEarly GoNoGo.initial) = []
  /\ GoNoGo.timeouts (ColorReactionGame.run stoppedEarly GoNoGo.initial) = [].
Proof.
  destruct (go_nogo_display_discipline stoppedEarly)
    as [(_ & _ & Hstopped & _) _].
  apply Hstopped. reflexivity.
Defined.

(** X8 on that session and a click, an expiry timer, a spawn timer and a
    second Stop arriving after it. *)
Lemma stopped_game_is_silent_witness :
  let st := ColorReactionGame.run stoppedEarly GoNoGo.initial in
  let st' := ColorReactionGame.run lateArrivals st in
  GoNoGo.running st' = false /\ GoNoGo.stimuli st' = []
  /\ GoNoGoSession.produced st' = GoNoGoSession.produced st.
Proof.
  destruct (stopped_game_is_silent stoppedEarly lateArrivals) as [H _].
  apply H; reflexivity.
Defined.

(** X9 on the nine hits of 300 ms each, reported at 10500 ms. *)
Lemma reports_reaction_figures_witness :
  let r := GoNoGo.buildReport 10500 GoNoGoProps.beforeTenthHit in
  In (GoNoGo.reactionTimeBestMs r)
     (GoNoGo.reactionList GoNoGoProps.beforeTenthHit)
  /\ GoNoGo.reactionTimeAvgMs r <= 300
  /\ (GoNoGo.completionTimeSec r
      <= inject_Z (GoNoGo.durationMs r) / 1000 + (5001 # 1000000))%Q.
Proof.
  destruct reports_reaction_figures as [H _].
  destruct (H 10500 GoNoGoProps.beforeTenthHit) as (_ & _ & Hne & Hd).
  destruct Hne as (Hin & _ & Hhi); [vm_compute; discriminate|].
  destruct Hd as [_ Hup]; [vm_compute; split; [discriminate|reflexivity]|].
  split; [exact Hin|]. split; [|exact Hup]. apply Hhi.
  vm_compute. intros x Hx.
  repeat (destruct Hx as [<-|Hx]; [discriminate|]). destruct Hx.
Defined.

(** X10 on six draws, two of them for the same cell. *)
Lemma pickUniqueIndices_five_distinct_cells_witness :
  FiveTargetSets.pickUniqueIndices sixDraws
  = Call.Returned [3; 17; 42; 58; 99]%nat
  /\ NoDup [3; 17; 42; 58; 99]%nat.
Proof.
  destruct pickUniqueIndices_five_distinct_cells as (H & _ & _).
  destruct (H sixDraws [3; 17; 42; 58; 99]%nat) as (_ & Hnd & _).
  - repeat (constructor;
            [split; [unfold Qle; simpl; lia | unfold Qlt; simpl; lia]|]).
    constructor.
  - vm_compute. reflexivity.
  - split; [vm_compute; reflexivity | exact Hnd].
Defined.

(** X12 on the first set: cell 3 clicked twice. *)
Lemma target_is_hit_once_witness :
  let st1 := FiveTargetReactionGame.onCellClick 3 100 100 1 fiveShown in
  FiveTargetReactionGame.hits st1 = 1%nat
  /\ FiveTargetReactionGame.onCellClick 3 200 200 1 st1 = st1.
Proof.
  edestruct (target_is_hit_once 3 100 100 1 200 200 1 fiveShown)
    as (Hh & _ & _ & _ & Hagain);
    [reflexivity | reflexivity | reflexivity |].
  split; [exact Hh | exact Hagain].
Defined.

(** X13 on the first set: the click on cell 1 leaves the set as it is, the
    click on cell 5 after the four others completes it. *)
Lemma completed_set_is_replaced_witness :
  FiveTargetReactionGame.currentSet
    (FiveTargetReactionGame.onCellClick 1 100 100 1 fiveShown) = 0%nat
  /\ FiveTargetReactionGame.currentSet
       (FiveTargetReactionGame.onCellClick 5 500 500 1 fourClicked) = 1%nat
  /\ FiveTargetReactionGame.currentColorIdx
       (FiveTargetReactionGame.onCellClick 5 500 500 1 fourClicked) = 1%nat.
Proof.
  edestruct (completed_set_is_replaced 1 100 100 1 fiveShown)
    as [Hsame _]; [reflexivity | reflexivity | reflexivity |].
  edestruct (completed_set_is_replaced 5 500 500 1 fourClicked)
    as [_ Hdone]; [reflexivity | reflexivity | reflexivity |].
  destruct Hsame as (H1 & _); [vm_compute; discriminate|].
  destruct Hdone as (H2 & _ & H3 & _); [reflexivity|].
  split; [exact H1|]. split; [exact H2 | exact H3].
Defined.

(** X15 on the second trial of a session, presented. *)
Lemma span_task_trials_well_formed_witness :
  Z.of_nat (length (CentralPeripheralSpanTask.seq spanSecondTrial)) = 4
  /\ NoDup (CentralPeripheralSpanTask.seq spanSecondTrial).
Proof.
  destruct (span_task_trials_well_formed SpanTaskProps.secondTrialShown
              spanSecondTrial) as (_ & _ & _ & Hseq & _);
    [vm_compute; reflexivity|].
  destruct Hseq as (Hlen & Hnd & _); [right; vm_compute; reflexivity|].
  split; [exact Hlen | exact Hnd].
Defined.

(** X16 on the same session. *)
Lemma span_task_never_forgets_witness :
  SpanSessionProps.keeps CentralPeripheralSpanTask.initial spanSecondTrial.
Proof.
  destruct span_task_never_forgets as [H _].
  apply (H SpanTaskProps.secondTrialShown). vm_compute. reflexivity.
Defined.

(** X17 on the sequence [33; 34; 35] presented from the initial state. *)
Lemma presentation_lights_the_sequence_in_order_witness :
  exists sz,
    SpanSessionProps.fires 7
      (CentralPeripheralSpanTask.presentSeq [33; 34; 35]%nat 0
         CentralPeripheralSpanTask.initial) = Some sz
    /\ CentralPeripheralSpanTask.phase sz = CentralPeripheralSpanTask.respond
    /\ CentralPeripheralSpanTask.timers sz = [].
Proof.
  destruct (presentation_lights_the_sequence_in_order
              [33; 34; 35]%nat 0 CentralPeripheralSpanTask.initial)
    as (_ & sz & H1 & H2 & H3 & _); [reflexivity|].
  exists sz. split; [exact H1|]. split; [exact H2 | exact H3].
Defined.

(** X18 on the digits statistics after a correct and a wrong click, and
    after a click taken at position 7. *)
Lemma blocks_statistics_consistent_witness :
  SpamperceptionBlocks.errors digitsAnswered = 1%nat
  /\ BlocksSessionProps.failures digitsAnswered = 1%nat
  /\ SpamperceptionBlocks.spanMax digitsAnswered
     = BlocksSessionProps.longest digitsAnswered
  /\ BlocksSessionProps.failures digitsPastTheEnd = 1%nat
  /\ SpamperceptionBlocks.spTotalByPos digitsPastTheEnd
     = map SpamperceptionBlocks.Count [10; 10; 10; 9; 8; 7; 6]%nat
       ++ [SpamperceptionBlocks.NotANumber].
Proof.
  destruct (blocks_statistics_consistent blocksWrongClick blocksAnswered
              SpamperceptionBlocks.digits digitsAnswered)
    as (H1 & H2 & _); [vm_compute; reflexivity | vm_compute; reflexivity|].
  destruct (blocks_statistics_consistent pastTheEnd blocksPastTheEnd
              SpamperceptionBlocks.digits digitsPastTheEnd)
    as (G1 & _ & _ & _ & _ & _ & (ts & Hl & Ht) & _);
    [vm_compute; reflexivity | vm_compute; reflexivity|].
  split; [reflexivity|]. split; [now rewrite <- H1|]. split; [exact H2|].
  split; [now rewrite <- G1|]. vm_compute. reflexivity.
Defined.

(** X19 on the same session. *)
Lemma blocks_session_in_range_witness :
  nth_error SpamperceptionBlocks.MODES
    (SpamperceptionBlocks.blockIdx blocksAnswered)
  = Some SpamperceptionBlocks.digits
  /\ SpamperceptionBlocks.seqLen blocksAnswered = 2.
Proof.
  destruct (blocks_session_in_range blocksWrongClick blocksAnswered)
    as (_ & Hm & _); [vm_compute; reflexivity|].
  split; [exact Hm | reflexivity].
Defined.

(** X20 on the report of that session, stopped. *)
Lemma blocks_reports_in_range_witness :
  exists r,
    blocksReport = Some r
    /\ 0 <= SpamperceptionBlocks.STM_Index r <= 100
    /\ map fst (SpamperceptionBlocks.metrics r) = SpamperceptionBlocks.MODES.
Proof.
  destruct blocksReport as [r|] eqn:Hr; [|vm_compute in Hr; discriminate].
  exists r. split; [reflexivity|].
  destruct (blocks_reports_in_range
              (blocksWrongClick ++ [SpamperceptionBlocks.PressStop 5000])
              blocksStopped r) as (H1 & H2 & _).
  - vm_compute. reflexivity.
  - vm_compute in Hr. injection Hr as <-. vm_compute. left. reflexivity.
  - split; [exact H1 | exact H2].
Defined.

(** X21 on the same session before Stop, with draws for seven cells. *)
Lemma blocks_handlers_find_their_statistics_witness :
  SpamperceptionBlocks.step (SpamperceptionBlocks.PressStop 5000)
    blocksAnswered <> None
  /\ SpamperceptionBlocks.step
       (SpamperceptionBlocks.Click 1 6000 6000 BlocksSessionProps.ampleDraws)
       blocksAnswered <> None.
Proof.
  destruct (blocks_handlers_find_their_statistics blocksWrongClick
              blocksAnswered BlocksSessionProps.ampleDraws
              [0; 1; 2; 3; 4; 5; 6]%nat) as [Hstop Hclick];
    [vm_compute; reflexivity | reflexivity | vm_compute; reflexivity|].
  split; [apply Hstop | apply Hclick].
Defined.

End MoreWitnesses.
